(** * Request schemas of [kinto.core.resource.schema]

    A shallow embedding of [src/kinto/core/resource/schema.py] together with
    the part of the [colander] validation library that the module drives
    (schema nodes, the [String], [Integer], [Mapping] and [Sequence] types,
    the [Range], [OneOf] and [Regex] validators and their [Invalid] errors).

    Python values are a small inductive type, dictionaries are association
    lists in insertion order, and raising is an explicit result type. *)

From Stdlib Require Import ZArith List String Ascii Bool Arith Lia.
Import ListNotations.
Open Scope string_scope.
Open Scope list_scope.
Set Warnings "-register-all".

(** ** Python values *)

(** The cstructs and appstructs that flow through the schemas.  [VNull] and
    [VDrop] are the two colander sentinels [colander.null] and
    [colander.drop]; [VNone] is Python's [None]. *)
Inductive value : Type :=
| VNull
| VDrop
| VNone
| VBool (b : bool)
| VInt (z : Z)
| VStr (s : string)
| VList (l : list value)
| VDict (d : list (string * value)).

Definition dict := list (string * value).

(** Python truthiness ([bool(v)]); [colander.null] is falsy, [drop] is an
    ordinary object. *)
Definition truthy (v : value) : bool :=
  match v with
  | VNull => false
  | VDrop => true
  | VNone => false
  | VBool b => b
  | VInt z => negb (z =? 0)%Z
  | VStr s => negb (s =? "")
  | VList l => match l with [] => false | _ => true end
  | VDict d => match d with [] => false | _ => true end
  end.

(** [v == 0] *)
Definition equals_zero (v : value) : bool :=
  match v with
  | VInt z => (z =? 0)%Z
  | VBool b => negb b
  | _ => false
  end.

Definition is_list (v : value) : bool :=
  match v with VList _ => true | _ => false end.

(** ** Dictionaries *)

Fixpoint dict_get (k : string) (d : dict) : option value :=
  match d with
  | [] => None
  | (k', v) :: d' => if k' =? k then Some v else dict_get k d'
  end.

Fixpoint dict_remove (k : string) (d : dict) : dict :=
  match d with
  | [] => []
  | (k', v) :: d' => if k' =? k then dict_remove k d' else (k', v) :: dict_remove k d'
  end.

(** [d[k] = v]: replaces in place, or appends a new key. *)
Fixpoint dict_set (k : string) (v : value) (d : dict) : dict :=
  match d with
  | [] => [(k, v)]
  | (k', v') :: d' => if k' =? k then (k', v) :: d' else (k', v') :: dict_set k v d'
  end.

(** [d.update(other)] *)
Definition dict_update (d other : dict) : dict :=
  fold_left (fun acc kv => dict_set (fst kv) (snd kv) acc) other d.

Definition dict_keys (d : dict) : list string := map fst d.

Definition mem (k : string) (l : list string) : bool := existsb (String.eqb k) l.

(** ** Exceptions *)

(** The messages of the [colander.Invalid] errors raised on the paths
    modelled here.  [NotOneOf] keeps the offending value and the full list of
    choices that colander joins into its text. *)
Inductive message : Type :=
| Required
| NotOneOf (val : value) (choices : list string)
| RegexMismatch
| BelowMin (val min : Z)
| AboveMax (val max : Z)
| NotANumber (val : value)
| NotAString (val : value)
| NotAMapping (val : value)
| NotIterable (val : value)
| UnrecognizedKeys (extra : dict).

(** [colander.Invalid(node, msg)] with the children attached by
    [Invalid.add(exc, pos)]. *)
Inductive invalid : Type :=
| Invalid (node : string) (msg : option message) (children : list (nat * invalid)).

Inductive exn : Type :=
| EInvalid (e : invalid)
| ETypeError
| EIndexError
| EAttributeError.

Inductive result (A : Type) : Type :=
| Ok (a : A)
| Raise (e : exn).
Arguments Ok {A} a.
Arguments Raise {A} e.

Definition is_ok {A} (r : result A) : bool :=
  match r with Ok _ => true | Raise _ => false end.

Definition bind {A B} (r : result A) (f : A -> result B) : result B :=
  match r with
  | Ok a => f a
  | Raise e => Raise e
  end.

Notation "x <- r ;; k" := (bind r (fun x => k))
  (at level 61, r at next level, right associativity).

(** Every node name that occurs in an error tree (the keys of
    [Invalid.asdict()] are paths made of these). *)
Fixpoint invalid_names (e : invalid) : list string :=
  match e with
  | Invalid node _ children =>
      node :: flat_map (fun c => invalid_names (snd c)) children
  end.

(** ** Regular expressions *)

(** Patterns are kept as abstract syntax.  Characters are the 8-bit [ascii];
    [Word] is [\w] read on ASCII ([A-Za-z0-9_]). *)
Inductive regex : Type :=
| Eps
| Chr (c : ascii)
| Word
| Dot
| Cls (chars : list ascii)
| Seq (r1 r2 : regex)
| Alt (r1 r2 : regex)
| Star (r : regex)
| Plus (r : regex)
| Dollar.

Definition is_word (c : ascii) : bool :=
  let n := nat_of_ascii c in
  (((48 <=? n) && (n <=? 57)) || ((65 <=? n) && (n <=? 90))
   || ((97 <=? n) && (n <=? 122)) || (n =? 95))%nat.

Definition newline : ascii := ascii_of_nat 10.

(** [rmatch r s k]: some way of matching [r] at the front of [s] leaves a
    rest that [k] accepts.  A starred body must consume input on every
    round, which does not change which strings match. *)
Fixpoint rmatch (r : regex) (s : string) (k : string -> bool) {struct r} : bool :=
  match r with
  | Eps => k s
  | Chr c => match s with String c' s' => Ascii.eqb c c' && k s' | EmptyString => false end
  | Word => match s with String c' s' => is_word c' && k s' | EmptyString => false end
  | Dot => match s with
           | String c' s' => negb (Ascii.eqb c' newline) && k s'
           | EmptyString => false
           end
  | Cls chars => match s with
                 | String c' s' => existsb (Ascii.eqb c') chars && k s'
                 | EmptyString => false
                 end
  | Seq r1 r2 => rmatch r1 s (fun s' => rmatch r2 s' k)
  | Alt r1 r2 => rmatch r1 s k || rmatch r2 s k
  | Star r' =>
      (fix loop (fuel : nat) (s : string) : bool :=
         k s ||
         match fuel with
         | O => false
         | S fuel' =>
             rmatch r' s (fun s' => (String.length s' <? String.length s)%nat && loop fuel' s')
         end) (String.length s) s
  | Plus r' =>
      rmatch r' s
        (fun s1 =>
           (fix loop (fuel : nat) (s : string) : bool :=
              k s ||
              match fuel with
              | O => false
              | S fuel' =>
                  rmatch r' s
                    (fun s' => (String.length s' <? String.length s)%nat && loop fuel' s')
              end) (String.length s1) s1)
  | Dollar => match s with
              | EmptyString => k s
              | String c EmptyString => Ascii.eqb c newline && k s
              | _ => false
              end
  end.

(** [re.match(r, s) is not None]: the pattern matches some prefix of [s]. *)
Definition re_match (r : regex) (s : string) : bool := rmatch r s (fun _ => true).

(** [re.fullmatch(r, s) is not None]: the whole of [s] is in the language. *)
Definition re_fullmatch (r : regex) (s : string) : bool :=
  rmatch r s (fun rest => rest =? "").

(** ** Schema nodes *)

(** [colander.Mapping(unknown=...)] *)
Inductive unknown_policy : Type := UIgnore | URaise | UPreserve.

(** The [missing] attribute of a node: [colander.required] (the default),
    [colander.drop], or a replacement value. *)
Inductive missing_policy : Type :=
| required
| drop
| MissingValue (v : value).

Inductive validator : Type :=
| Range (min max : option Z)
| OneOf (choices : list string)
| Regex (r : regex).

(** Schema types.  [TAny] and [TFieldList] stand for [kinto.core.schema.Any]
    and [kinto.core.schema.FieldList]. *)
Inductive typ : Type :=
| TString
| TInteger
| TAny
| TMapping (unknown : unknown_policy)
| TSequence
| TFieldList.

(** [colander.SchemaNode(typ, *children, name=, validator=, missing=,
    default=)]; an unset [default] is [colander.null]. *)
Inductive SchemaNode : Type :=
| Node (name : string) (t : typ) (children : list SchemaNode)
       (validator : option validator) (missing : missing_policy)
       (default : value).

Definition node_name (n : SchemaNode) : string :=
  match n with Node name _ _ _ _ _ => name end.
Definition node_typ (n : SchemaNode) : typ :=
  match n with Node _ t _ _ _ _ => t end.
Definition node_children (n : SchemaNode) : list SchemaNode :=
  match n with Node _ _ children _ _ _ => children end.
Definition node_validator (n : SchemaNode) : option validator :=
  match n with Node _ _ _ v _ _ => v end.
Definition node_missing (n : SchemaNode) : missing_policy :=
  match n with Node _ _ _ _ m _ => m end.
Definition node_default (n : SchemaNode) : value :=
  match n with Node _ _ _ _ _ d => d end.

Definition set_name (name : string) (n : SchemaNode) : SchemaNode :=
  match n with Node _ t c v m d => Node name t c v m d end.
Definition set_missing (m : missing_policy) (n : SchemaNode) : SchemaNode :=
  match n with Node name t c v _ d => Node name t c v m d end.
Definition set_default (d : value) (n : SchemaNode) : SchemaNode :=
  match n with Node name t c v m _ => Node name t c v m d end.

(** [SchemaNode.__setitem__]: names the new node, replaces the child of the
    same name where it stands, or adds the node at the end. *)
Fixpoint set_child (name : string) (newnode : SchemaNode) (children : list SchemaNode)
  : list SchemaNode :=
  match children with
  | [] => [set_name name newnode]
  | c :: cs =>
      if name =? node_name c then set_name name newnode :: cs
      else c :: set_child name newnode cs
  end.

Definition setitem (n : SchemaNode) (name : string) (newnode : SchemaNode) : SchemaNode :=
  match n with
  | Node nm t children v m d => Node nm t (set_child name newnode children) v m d
  end.

(** [SchemaNode.get(name)] *)
Fixpoint get_child (name : string) (children : list SchemaNode) : option SchemaNode :=
  match children with
  | [] => None
  | c :: cs => if node_name c =? name then Some c else get_child name cs
  end.

(** ** Validators *)

Definition is_drop (v : value) : bool :=
  match v with VDrop => true | _ => false end.
Definition is_null (v : value) : bool :=
  match v with VNull => true | _ => false end.

(** [validator(node, value)]: [None] when the value passes, the message of
    the [Invalid] it raises otherwise. *)
Definition run_validator (v : validator) (a : value) : result (option message) :=
  match v with
  | Range min max =>
      match a with
      | VInt z =>
          match min with
          | Some lo =>
              if (z <? lo)%Z then Ok (Some (BelowMin z lo))
              else match max with
                   | Some hi => if (z >? hi)%Z then Ok (Some (AboveMax z hi)) else Ok None
                   | None => Ok None
                   end
          | None =>
              match max with
              | Some hi => if (z >? hi)%Z then Ok (Some (AboveMax z hi)) else Ok None
              | None => Ok None
              end
          end
      | _ => Raise ETypeError
      end
  | OneOf choices =>
      match a with
      | VStr s => if mem s choices then Ok None else Ok (Some (NotOneOf a choices))
      | _ => Ok (Some (NotOneOf a choices))
      end
  | Regex r =>
      match a with
      | VStr s => if re_match r s then Ok None else Ok (Some RegexMismatch)
      | _ => Raise ETypeError
      end
  end.

(** ** Python string operations *)

(** [s.startswith(p)] *)
Definition startswith (p s : string) : bool := String.prefix p s.

(** [s.replace(old, new)] for a non-empty [old]: occurrences are replaced
    left to right without overlap; [skip] counts the characters of a replaced
    occurrence that are still to be passed over. *)
Fixpoint replace_from (old new : string) (s : string) (skip : nat) : string :=
  match s with
  | EmptyString => EmptyString
  | String c s' =>
      match skip with
      | S k => replace_from old new s' k
      | O =>
          if String.prefix old s
          then (new ++ replace_from old new s' (String.length old - 1))%string
          else String c (replace_from old new s' O)
      end
  end.

Definition replace (old new s : string) : string := replace_from old new s O.

(** [re.findall('\{.*?\}', s)]: from an opening brace up to the first closing
    one, with no newline in between (the dot does not match it).  [cur] is
    the text of the match being read, if one is open. *)
Fixpoint findall_braces (s : string) (cur : option string) : list string :=
  match s with
  | EmptyString => []
  | String c s' =>
      match cur with
      | None =>
          if Ascii.eqb c "{" then findall_braces s' (Some "{")
          else findall_braces s' None
      | Some acc =>
          if Ascii.eqb c "}" then (acc ++ "}")%string :: findall_braces s' None
          else if Ascii.eqb c newline then findall_braces s' None
          else findall_braces s' (Some (acc ++ String c "")%string)
      end
  end.

(** [name[1:-1]] *)
Definition strip_ends (name : string) : string :=
  match name with
  | EmptyString => EmptyString
  | String _ s' => String.substring 0 (String.length s' - 1) s'
  end.

(** [s.split(',')] *)
Fixpoint split_from (s : string) (cur : string) : list string :=
  match s with
  | EmptyString => [cur]
  | String c s' =>
      if Ascii.eqb c "," then cur :: split_from s' ""
      else split_from s' (cur ++ String c "")%string
  end.

Definition split_commas (s : string) : list string := split_from s "".

(** ** Collaborators of the module *)

(** An object found by [pydoc.locate]; [regexp] is [None] when the object
    has no such attribute. *)
Record PyObject : Type := { regexp : option regex }.

(** Modelled from the spec: [kinto.core.schema.Any] is not part of the
    module.  Section 3 has the [value] of a patch operation an arbitrary
    typed payload, so the type returns whatever it is given. *)
Definition Any_deserialize (c : value) : result value := Ok c.

(** Modelled from the spec: [kinto.core.schema.FieldList] is not part of the
    module.  Section 4.2 has it split the raw value on commas into an ordered
    sequence of tokens; input that is not a string yields no sequence (the
    [drop] sentinel stands for that outcome). *)
Definition FieldList_spec (c : value) : result value :=
  match c with
  | VStr s => Ok (VList (map VStr (split_commas s)))
  | _ => Ok VDrop
  end.

Definition digit_of (c : ascii) : option Z :=
  let n := nat_of_ascii c in
  if ((48 <=? n) && (n <=? 57))%nat then Some (Z.of_nat (n - 48)) else None.

Fixpoint digits_from (s : string) (acc : Z) : option Z :=
  match s with
  | EmptyString => Some acc
  | String c s' =>
      match digit_of c with
      | Some d => digits_from s' (10 * acc + d)%Z
      | None => None
      end
  end.

(** An instance of Python's [int(s)] on plain decimal literals, an optional
    sign followed by digits. *)
Definition int_of_decimal (s : string) : option Z :=
  match s with
  | EmptyString => None
  | String c s' =>
      if Ascii.eqb c "-" then
        match s' with
        | EmptyString => None
        | _ => option_map Z.opp (digits_from s' 0%Z)
        end
      else if Ascii.eqb c "+" then
        match s' with
        | EmptyString => None
        | _ => digits_from s' 0%Z
        end
      else digits_from s 0%Z
  end.

(** Modelled from the spec: [kinto.core.utils.native_value] is not part of
    the module.  Section 4.1: the boolean literals become booleans, a string
    in the integer grammar an integer, the null token [None], and any other
    token stays the string it was. *)
Definition native_value_spec (v : value) : value :=
  match v with
  | VStr s =>
      if s =? "true" then VBool true
      else if s =? "false" then VBool false
      else if s =? "null" then VNone
      else match int_of_decimal s with
           | Some z => VInt z
           | None => v
           end
  | _ => v
  end.

(** Stand-ins for the collaborators in the closed examples: two generators
    that [pydoc.locate] finds, the pattern of the storage generator, and a
    header schema without fields. *)
Definition digit_chars : list ascii :=
  ["0"; "1"; "2"; "3"; "4"; "5"; "6"; "7"; "8"; "9"]%char.

Definition hex_chars : list ascii :=
  (digit_chars ++ ["a"; "b"; "c"; "d"; "e"; "f"; "-"])%char.

Definition digits_regexp : regex := Seq (Plus (Cls digit_chars)) Dollar.

Definition name_regexp : regex := Seq (Plus Word) Dollar.

Definition storage_regexp : regex := Seq (Plus (Cls hex_chars)) Dollar.

Definition example_locate (dotted : string) : option PyObject :=
  if dotted =? "generators.Digits" then Some {| regexp := Some digits_regexp |}
  else if dotted =? "generators.Name" then Some {| regexp := Some name_regexp |}
  else None.

(** ** Deserialization *)

Section Schema.

Set Default Proof Using "Type".

(** Python's [int(s)] for a string, [None] where it raises. *)
Variable int_of_str : string -> option Z.

(** [kinto.core.schema.FieldList().deserialize]; the class is imported by the
    module and defined outside it. *)
Variable FieldList_deserialize : value -> result value.

Definition raise_invalid (node : string) (m : message) : result value :=
  Raise (EInvalid (Invalid node (Some m) [])).

(** [colander.String.deserialize] with [allow_empty=False] and no encoding:
    a falsy input is [null], a string is returned as it is, and anything
    else is refused as not being a string. *)
Definition String_deserialize (node : string) (c : value) : result value :=
  if negb (truthy c) then Ok VNull
  else match c with
       | VStr s => Ok (VStr s)
       | _ => raise_invalid node (NotAString c)
       end.

(** [colander.Integer.deserialize]: [int(cstruct)]. *)
Definition Integer_deserialize (node : string) (c : value) : result value :=
  if negb (equals_zero c) && negb (truthy c) then Ok VNull
  else match c with
       | VInt z => Ok (VInt z)
       | VBool b => Ok (VInt (if b then 1 else 0))
       | VStr s =>
           match int_of_str s with
           | Some z => Ok (VInt z)
           | None => raise_invalid node (NotANumber c)
           end
       | _ => raise_invalid node (NotANumber c)
       end.

(** [if error is not None: raise error] then [return result]. *)
Definition finish (node : string) (error : list (nat * invalid)) (res : value)
  : result value :=
  match error with
  | [] => Ok res
  | _ => Raise (EInvalid (Invalid node None error))
  end.

(** The loop of [colander.Mapping._impl] over the children: every child
    pops its key from the copied mapping ([remaining]); an [Invalid] raised
    by a child is collected under the child's position. *)
Definition Mapping_loop (callback : SchemaNode -> value -> result value)
  : list SchemaNode -> nat -> dict -> list (nat * invalid) -> dict ->
    result (dict * list (nat * invalid) * dict) :=
  fix loop cs num remaining error res :=
    match cs with
    | [] => Ok (remaining, error, res)
    | subnode :: cs' =>
        let name := node_name subnode in
        let subval := match dict_get name remaining with
                      | Some v => v
                      | None => VNull
                      end in
        let remaining' := dict_remove name remaining in
        if is_drop subval || (is_null subval && is_drop (node_default subnode))
        then loop cs' (S num) remaining' error res
        else
          match callback subnode subval with
          | Raise (EInvalid e) => loop cs' (S num) remaining' (error ++ [(num, e)]) res
          | Raise e => Raise e
          | Ok sub_result =>
              if is_drop sub_result then loop cs' (S num) remaining' error res
              else loop cs' (S num) remaining' error (dict_set name sub_result res)
          end
    end.

(** [colander.Mapping._impl]: what the children leave over is handled by the
    [unknown] policy. *)
Definition Mapping_impl (callback : SchemaNode -> value -> result value)
    (node : string) (unknown : unknown_policy) (children : list SchemaNode)
    (c : value) : result value :=
  match c with
  | VDict d =>
      st <- Mapping_loop callback children O d [] [] ;;
      let '(remaining, error, res) := st in
      match unknown with
      | URaise =>
          match remaining with
          | [] => finish node error (VDict res)
          | _ => raise_invalid node (UnrecognizedKeys remaining)
          end
      | UPreserve => finish node error (VDict (dict_update res remaining))
      | UIgnore => finish node error (VDict res)
      end
  | _ => raise_invalid node (NotAMapping c)
  end.

(** The loop of [colander.Sequence._impl] over the items. *)
Definition Sequence_loop (callback : SchemaNode -> value -> result value)
    (subnode : SchemaNode)
  : list value -> nat -> list (nat * invalid) -> list value ->
    result (list (nat * invalid) * list value) :=
  fix loop l num error res :=
    match l with
    | [] => Ok (error, res)
    | subval :: l' =>
        if is_drop subval || (is_null subval && is_drop (node_default subnode))
        then loop l' (S num) error res
        else
          match callback subnode subval with
          | Raise (EInvalid e) => loop l' (S num) (error ++ [(num, e)]) res
          | Raise e => Raise e
          | Ok sub_result =>
              if is_drop sub_result then loop l' (S num) error res
              else loop l' (S num) error (res ++ [sub_result])
          end
    end.

(** [colander.Sequence._impl] with [accept_scalar=False]. *)
Definition Sequence_impl (callback : SchemaNode -> value -> result value)
    (node : string) (children : list SchemaNode) (c : value) : result value :=
  match c with
  | VList l =>
      match children with
      | [] => Raise EIndexError
      | subnode :: _ =>
          st <- Sequence_loop callback subnode l O [] [] ;;
          finish node (fst st) (VList (snd st))
      end
  | _ => raise_invalid node (NotIterable c)
  end.

(** [SchemaNode.deserialize]: the null cstruct and a null appstruct go to the
    [missing] policy; anything else is validated. *)
Fixpoint deserialize (n : SchemaNode) (c : value) {struct n} : result value :=
  match n with
  | Node name t children validator missing default =>
      let on_missing :=
        match missing with
        | required => raise_invalid name Required
        | drop => Ok VDrop
        | MissingValue v => Ok v
        end in
      match t with
      | TFieldList => FieldList_deserialize c
      | _ =>
          if is_null c then on_missing
          else
            appstruct <- match t with
                         | TString => String_deserialize name c
                         | TInteger => Integer_deserialize name c
                         | TAny => Any_deserialize c
                         | TMapping unknown => Mapping_impl deserialize name unknown children c
                         | TSequence => Sequence_impl deserialize name children c
                         | TFieldList => FieldList_deserialize c
                         end ;;
            if is_null appstruct then on_missing
            else
              match validator with
              | None => Ok appstruct
              | Some v =>
                  m <- run_validator v appstruct ;;
                  match m with
                  | None => Ok appstruct
                  | Some msg => raise_invalid name msg
                  end
              end
      end
  end.


(** ** The module's schemas *)

(** [kinto.core.utils.native_value], imported by the module. *)
Variable native_value : value -> value.

(** [pydoc.locate]: the object a dotted name resolves to, if any. *)
Variable locate : string -> option PyObject.

(** [StorageBase.id_generator.regexp], the pattern of the storage layer's
    own generator. *)
Variable StorageBase_id_generator_regexp : regex.

(** [HeaderSchema()], whose fields are of a type defined outside the
    module. *)
Variable HeaderSchema : SchemaNode.

Definition POSTGRESQL_MAX_INTEGER_VALUE : Z := (2 ^ 64 / 2)%Z.

Definition positive_big_integer : validator :=
  Range (Some 0%Z) (Some POSTGRESQL_MAX_INTEGER_VALUE).

(** *** Permissions *)

(** [PermissionsSchema._get_node_principals] *)
Definition get_node_principals (perm : string) : SchemaNode :=
  let principal := Node "" TString [] None required VNull in
  Node perm TSequence [principal] None drop VNull.

(** [PermissionsSchema.schema_type] *)
Definition PermissionsSchema_schema_type (known_perms : list string) : typ :=
  match known_perms with
  | [] => TMapping UPreserve
  | _ => TMapping URaise
  end.

(** [PermissionsSchema(name=..., missing=..., permissions=known_perms)]:
    one child is set for every known permission. *)
Definition PermissionsSchema (name : string) (missing : missing_policy)
    (known_perms : list string) : SchemaNode :=
  fold_left (fun self perm => setitem self perm (get_node_principals perm))
    known_perms
    (Node name (PermissionsSchema_schema_type known_perms) [] None missing VNull).

(** [for perm in cstruct: colander.OneOf(choices=known_perms)(self, perm)] *)
Fixpoint check_perms (self_name : string) (known_perms : list string) (keys : list string)
  : result unit :=
  match keys with
  | [] => Ok tt
  | perm :: keys' =>
      if mem perm known_perms then check_perms self_name known_perms keys'
      else Raise (EInvalid (Invalid self_name (Some (NotOneOf (VStr perm) known_perms)) []))
  end.

(** The loop of the open case: every value goes through a sequence of
    strings. *)
Fixpoint deserialize_open_perms (items : dict) (permissions : dict) : result dict :=
  match items with
  | [] => Ok permissions
  | (perm, principals) :: items' =>
      let perm_schema :=
        Node "" TSequence [Node "" TString [] None required VNull] None required VNull in
      r <- deserialize perm_schema principals ;;
      deserialize_open_perms items' (dict_set perm r permissions)
  end.

(** A value that is a sequence of non-empty strings. *)
Definition principals (v : value) : Prop :=
  exists l, v = VList (map VStr l) /\ Forall (fun s => s <> "") l.

(** [PermissionsSchema.deserialize] *)
Definition PermissionsSchema_deserialize (name : string) (missing : missing_policy)
    (known_perms : list string) (cstruct : value) : result value :=
  let self := PermissionsSchema name missing known_perms in
  match cstruct with
  | VDict d =>
      match known_perms with
      | _ :: _ =>
          _ <- check_perms name known_perms (dict_keys d) ;;
          deserialize self cstruct
      | [] =>
          permissions <- deserialize_open_perms d [] ;;
          Ok (VDict permissions)
      end
  | _ => deserialize self cstruct
  end.

(** *** Querystrings *)

(** Modelled from the spec: [kinto.core.schema.QueryField] is not part of the
    module; the reserved querystring keys are optional, so a field that is
    absent is dropped. *)
Definition QueryField (name : string) (t : typ) (v : option validator) : SchemaNode :=
  Node name t [] v drop VNull.

Definition FieldList (name : string) : SchemaNode :=
  Node name TFieldList [] None drop VNull.

(** A [QuerySchema] class with the given declared fields: [missing] is
    [drop] and unknown keys are ignored by the mapping. *)
Definition QuerySchema (fields : list SchemaNode) : SchemaNode :=
  Node "" (TMapping UIgnore) fields None drop VNull.

(** [k.startswith('in_') or k.startswith('exclude_')] *)
Definition is_list_filter (k : string) : bool :=
  startswith "in_" k || startswith "exclude_" k.

(** The loop of [QuerySchema.deserialize] over [cstruct.items()]. *)
Fixpoint deserialize_filters (items : dict) (values : dict) : result dict :=
  match items with
  | [] => Ok values
  | (k, v) :: items' =>
      if is_list_filter k then
        as_list <- FieldList_deserialize v ;;
        match as_list with
        | VList l => deserialize_filters items' (dict_set k (VList (map native_value l)) values)
        | _ => deserialize_filters items' values
        end
      else deserialize_filters items' (dict_set k (native_value v) values)
  end.

(** [QuerySchema.deserialize] *)
Definition QuerySchema_deserialize (self : SchemaNode) (cstruct : value) : result value :=
  schema_values <- deserialize self cstruct ;;
  if is_drop schema_values then Ok schema_values
  else
    match cstruct with
    | VDict d =>
        values <- deserialize_filters d [] ;;
        match schema_values with
        | VDict sv => Ok (VDict (dict_update values sv))
        | _ => Raise ETypeError
        end
    | _ => Raise EAttributeError
    end.

Definition CollectionQuerySchema_fields : list SchemaNode :=
  [ QueryField "_limit" TInteger (Some positive_big_integer);
    FieldList "_sort";
    QueryField "_token" TString None;
    QueryField "_since" TInteger (Some positive_big_integer);
    QueryField "_to" TInteger (Some positive_big_integer);
    QueryField "_before" TInteger (Some positive_big_integer);
    QueryField "id" TString None;
    QueryField "last_modified" TInteger (Some positive_big_integer) ].

Definition CollectionQuerySchema : SchemaNode := QuerySchema CollectionQuerySchema_fields.

Definition RecordGetQuerySchema : SchemaNode := QuerySchema [FieldList "_fields"].

Definition CollectionGetQuerySchema : SchemaNode :=
  QuerySchema (CollectionQuerySchema_fields ++ [FieldList "_fields"]).

(** The reserved fields typed as integers. *)
Definition integer_fields : list string :=
  ["_limit"; "_since"; "_to"; "_before"; "last_modified"].

(** *** Bodies *)

(** The deferred [RecordSchema.data]: when the supplied schema accepts the
    empty record its [default] becomes [{}] and its [missing] becomes
    [drop]; otherwise it is returned as supplied. *)
Definition RecordSchema_data (data : option SchemaNode) : result (option SchemaNode) :=
  match data with
  | Some d =>
      match deserialize d (VDict []) with
      | Raise (EInvalid _) => Ok (Some d)
      | Raise e => Raise e
      | Ok _ => Ok (Some (set_missing drop (set_default (VDict []) d)))
      end
  | None => Ok None
  end.

(** [RecordSchema().bind(data=..., permissions=...)]: the deferred
    attributes are resolved in the order of [dir()]; a resolved node becomes
    the child of that name, a permissions schema that is not supplied stays
    deferred and gives no child. *)
Definition RecordSchema_bind (data permissions : option SchemaNode) : result SchemaNode :=
  data' <- RecordSchema_data data ;;
  let self := Node "" (TMapping URaise) [] None required VNull in
  let self := match data' with Some v => setitem self "data" v | None => self end in
  let self := match permissions with Some v => setitem self "permissions" v | None => self end in
  Ok self.

Definition op_validator : validator :=
  OneOf ["test"; "add"; "remove"; "replace"; "move"; "copy"].

(** The pattern of [path_validator]: one or more groups, each a slash
    followed by any number of word characters. *)
Definition pointer_regex : regex := Plus (Seq (Chr "/") (Star Word)).

Definition path_validator : validator := Regex pointer_regex.

Definition JsonPatchOperationSchema (name : string) (missing : missing_policy) : SchemaNode :=
  Node name (TMapping URaise)
    [ Node "op" TString [] (Some op_validator) required VNull;
      Node "path" TString [] (Some path_validator) required VNull;
      Node "from" TString [] (Some path_validator) drop VNull;
      Node "value" TAny [] None drop VNull ]
    None missing VNull.

Definition JsonPatchBodySchema : SchemaNode :=
  Node "" TSequence [JsonPatchOperationSchema "operations" drop] None required VNull.

(** *** Requests *)

(** The bind-time context (the keyword arguments of [bind]). *)
Record kwargs : Type := {
  kw_path : option string;
  kw_resource_name : option string;
  kw_id_generators : option dict;
  kw_header : option SchemaNode;
  kw_querystring : option SchemaNode
}.

(** The [try] block of [build_path]: the generator named for the
    placeholder, else the one under ['id_generator'], is located and its
    [regexp] read; every [AttributeError] on the way falls back to the
    storage generator. *)
Definition resolve_regexp (id_generators : option dict) (rid : string) : regex :=
  match id_generators with
  | None => StorageBase_id_generator_regexp
  | Some gens =>
      let get k := match dict_get k gens with Some v => v | None => VNone end in
      let resource_id_gen := get (rid ++ "_generator")%string in
      let default_id_gen := get "id_generator" in
      let id_gen := if truthy resource_id_gen then resource_id_gen else default_id_gen in
      match id_gen with
      | VStr dotted =>
          match locate dotted with
          | Some obj =>
              match regexp obj with
              | Some r => r
              | None => StorageBase_id_generator_regexp
              end
          | None => StorageBase_id_generator_regexp
          end
      | _ => StorageBase_id_generator_regexp
      end
  end.

(** The name a placeholder gets in the schema: ['id'] when it is
    [current_resource_id + '_id']. *)
Definition field_name (current_resource_id rid : string) : string :=
  if rid =? (current_resource_id ++ "_id")%string then "id" else rid.

(** The loop of [build_path] over the placeholders;
    [current_resource_id + '_id'] raises [TypeError] on [None]. *)
Fixpoint build_nodes (id_generators : option dict) (current_resource_id : option string)
    (resource_ids : list string) (path_schema : SchemaNode) : result SchemaNode :=
  match resource_ids with
  | [] => Ok path_schema
  | rid :: rest =>
      let regexp := resolve_regexp id_generators rid in
      match current_resource_id with
      | None => Raise ETypeError
      | Some r =>
          let rid := field_name r rid in
          let validator := Regex regexp in
          build_nodes id_generators current_resource_id rest
            (setitem path_schema rid (Node "" TString [] (Some validator) required VNull))
      end
  end.

(** The node [build_path] makes for a placeholder. *)
Definition placeholder_node (id_generators : option dict) (rid : string) : SchemaNode :=
  Node "" TString [] (Some (Regex (resolve_regexp id_generators rid))) required VNull.

(** The placeholders of a path, brackets removed. *)
Definition placeholders (path : string) : list string :=
  map strip_ends (findall_braces path None).

(** The path once [{id}] stands for the current resource. *)
Definition specialize (current_resource_id : option string) (path : string) : string :=
  match current_resource_id with
  | Some r => if truthy (VStr r) then replace "{id}" ("{" ++ r ++ "_id}")%string path else path
  | None => path
  end.

(** [build_path]: [None] when there is no path yet. *)
Definition build_path (kw : kwargs) : result (option SchemaNode) :=
  match kw_path kw with
  | None => Ok None
  | Some path =>
      if negb (truthy (VStr path)) then Ok None
      else
        let current_resource_id := kw_resource_name kw in
        let path := specialize current_resource_id path in
        let resource_ids := placeholders path in
        let id_generators := kw_id_generators kw in
        let path_schema := Node "path" (TMapping UIgnore) [] None required VNull in
        r <- build_nodes id_generators current_resource_id resource_ids path_schema ;;
        Ok (Some r)
  end.

(** What the attribute [path] of a request schema holds: the deferred of the
    class ([build_path(...) or colander.deferred(build_path)]), the bare
    deferred [build_path] it leaves on the instance, or [None]. *)
Inductive path_attr : Type := PathClassDeferred | PathInstanceDeferred | PathNone.

(** The attributes [header] and [querystring]: the deferred of the class, or
    the [None] it leaves on the instance. *)
Inductive plain_attr : Type := AttrDeferred | AttrNone.

Record RequestSchemaState : Type := {
  rs_children : list SchemaNode;
  rs_header : plain_attr;
  rs_path : path_attr;
  rs_querystring : plain_attr
}.

(** [RequestSchema()] before any binding. *)
Definition RequestSchema : RequestSchemaState :=
  {| rs_children := []; rs_header := AttrDeferred;
     rs_path := PathClassDeferred; rs_querystring := AttrDeferred |}.

Definition with_child (name : string) (v : SchemaNode) (self : RequestSchemaState)
  : RequestSchemaState :=
  {| rs_children := set_child name v (rs_children self); rs_header := rs_header self;
     rs_path := rs_path self; rs_querystring := rs_querystring self |}.

Definition with_header (a : plain_attr) (self : RequestSchemaState) : RequestSchemaState :=
  {| rs_children := rs_children self; rs_header := a;
     rs_path := rs_path self; rs_querystring := rs_querystring self |}.

Definition with_path (a : path_attr) (self : RequestSchemaState) : RequestSchemaState :=
  {| rs_children := rs_children self; rs_header := rs_header self;
     rs_path := a; rs_querystring := rs_querystring self |}.

Definition with_querystring (a : plain_attr) (self : RequestSchemaState)
  : RequestSchemaState :=
  {| rs_children := rs_children self; rs_header := rs_header self;
     rs_path := rs_path self; rs_querystring := a |}.

(** [RequestSchema.after_bind] *)
Definition after_bind (self : RequestSchemaState) : RequestSchemaState :=
  let self :=
    match get_child "header" (rs_children self) with
    | None => with_child "header" HeaderSchema self
    | Some _ => self
    end in
  match get_child "querystring" (rs_children self) with
  | None => with_child "querystring" (QuerySchema []) self
  | Some _ => self
  end.

(** One round of [SchemaNode._bind] for the attribute [header]: the deferred
    returns [kwargs.get('header')]; a node becomes the child of that name,
    [None] is stored on the instance. *)
Definition bind_header (kw : kwargs) (self : RequestSchemaState) : RequestSchemaState :=
  match rs_header self with
  | AttrDeferred =>
      match kw_header kw with
      | Some v => with_child "header" v self
      | None => with_header AttrNone self
      end
  | AttrNone => self
  end.

(** The same for [path]: the deferred of the class returns the schema built
    by [build_path], or the deferred [build_path] itself, which then lives
    on the instance and returns the schema or [None]. *)
Definition bind_path (kw : kwargs) (self : RequestSchemaState) : result RequestSchemaState :=
  match rs_path self with
  | PathClassDeferred =>
      r <- build_path kw ;;
      match r with
      | Some v => Ok (with_child "path" v self)
      | None => Ok (with_path PathInstanceDeferred self)
      end
  | PathInstanceDeferred =>
      r <- build_path kw ;;
      match r with
      | Some v => Ok (with_child "path" v self)
      | None => Ok (with_path PathNone self)
      end
  | PathNone => Ok self
  end.

Definition bind_querystring (kw : kwargs) (self : RequestSchemaState)
  : RequestSchemaState :=
  match rs_querystring self with
  | AttrDeferred =>
      match kw_querystring kw with
      | Some v => with_child "querystring" v self
      | None => with_querystring AttrNone self
      end
  | AttrNone => self
  end.

(** [schema.bind] with keyword arguments [kw] on a request schema: the clone
    resolves its deferred attributes in the order of [dir()] ([header],
    [path], [querystring]), then [after_bind] runs. *)
Definition RequestSchema_bind (kw : kwargs) (self : RequestSchemaState)
  : result RequestSchemaState :=
  let self := bind_header kw self in
  self <- bind_path kw self ;;
  let self := bind_querystring kw self in
  Ok (after_bind self).

(** A request schema on which binding with [kw] has nothing left to change:
    every attribute that is still deferred already has, as child, the node
    the context gives it, and the two defaults are in place. *)
Definition settled (kw : kwargs) (s : RequestSchemaState) : Prop :=
  (rs_header s = AttrDeferred ->
   forall h, kw_header kw = Some h ->
             get_child "header" (rs_children s) = Some (set_name "header" h)) /\
  (rs_path s <> PathNone ->
   exists r, build_path kw = Ok r /\
             forall v, r = Some v ->
                       get_child "path" (rs_children s) = Some (set_name "path" v)) /\
  (rs_querystring s = AttrDeferred ->
   forall q, kw_querystring kw = Some q ->
             get_child "querystring" (rs_children s) = Some (set_name "querystring" q)) /\
  get_child "header" (rs_children s) <> None /\
  get_child "querystring" (rs_children s) <> None.

(** The bound path schema, if there is one. *)
Definition path_schema_of (self : RequestSchemaState) : option SchemaNode :=
  get_child "path" (rs_children self).

(** *** Resource schemas *)

(** An [Options] class of a resource schema; an attribute that the class
    does not define is [None]. *)
Record Options : Type := {
  readonly_fields : option (list string);
  preserve_unknown : option value
}.

(** [ResourceSchema.get_option] for the two attributes:
    [getattr(cls.Options, attr, default_value)], where the default is read
    from [ResourceSchema.Options] (no read-only field, unknown fields
    preserved). *)
Definition get_option_readonly_fields (cls : Options) : list string :=
  match readonly_fields cls with
  | Some fields => fields
  | None => []
  end.

Definition get_option_preserve_unknown (cls : Options) : value :=
  match preserve_unknown cls with
  | Some v => v
  | None => VBool true
  end.

(** [ResourceSchema.is_readonly] *)
Definition is_readonly (cls : Options) (field : string) : bool :=
  mem field (get_option_readonly_fields cls).

(** [ResourceSchema.schema_type]: the option is compared with [is True]. *)
Definition ResourceSchema_schema_type (cls : Options) : typ :=
  match get_option_preserve_unknown cls with
  | VBool true => TMapping UPreserve
  | _ => TMapping UIgnore
  end.

(** A resource schema class with the given options and declared fields. *)
Definition ResourceSchema (cls : Options) (fields : list SchemaNode) : SchemaNode :=
  Node "" (ResourceSchema_schema_type cls) fields None required VNull.

(** *** Requests with a body *)

(** What the attribute [body] of a payload request schema holds: the
    deferred of the class ([get_body(...) or colander.deferred(get_body)]),
    the bare deferred [get_body] it leaves on the instance, or [None]. *)
Inductive body_attr : Type := BodyClassDeferred | BodyInstanceDeferred | BodyNone.

(** A [PayloadRequestSchema]: a request schema with the attribute [body]. *)
Record PayloadRequestSchemaState : Type := {
  prs_request : RequestSchemaState;
  prs_body : body_attr
}.

(** [PayloadRequestSchema()] before any binding. *)
Definition PayloadRequestSchema : PayloadRequestSchemaState :=
  {| prs_request := RequestSchema; prs_body := BodyClassDeferred |}.

(** One round of [SchemaNode._bind] for the attribute [body], with
    [kwargs.get('body')] as [body]: a node becomes the child of that name;
    without one the deferred of the class leaves the deferred [get_body] on
    the instance, and that one leaves [None]. *)
Definition bind_body (body : option SchemaNode) (self : PayloadRequestSchemaState)
  : PayloadRequestSchemaState :=
  match prs_body self with
  | BodyClassDeferred =>
      match body with
      | Some v => {| prs_request := with_child "body" v (prs_request self);
                     prs_body := prs_body self |}
      | None => {| prs_request := prs_request self; prs_body := BodyInstanceDeferred |}
      end
  | BodyInstanceDeferred =>
      match body with
      | Some v => {| prs_request := with_child "body" v (prs_request self);
                     prs_body := prs_body self |}
      | None => {| prs_request := prs_request self; prs_body := BodyNone |}
      end
  | BodyNone => self
  end.

(** [schema.bind] on a payload request schema: [body] comes first in the
    order of [dir()], then the attributes of the request schema and
    [after_bind]. *)
Definition PayloadRequestSchema_bind (body : option SchemaNode) (kw : kwargs)
    (self : PayloadRequestSchemaState) : result PayloadRequestSchemaState :=
  let self := bind_body body self in
  r <- RequestSchema_bind kw (prs_request self) ;;
  Ok {| prs_request := r; prs_body := prs_body self |}.

(** ** Dictionaries: basic facts *)

(** Facts about plain data do not depend on the collaborators: the proofs
    below start by setting these aside. *)
Ltac plain_data :=
  try clear HeaderSchema; try clear StorageBase_id_generator_regexp; try clear locate;
  try clear native_value; try clear FieldList_deserialize; try clear int_of_str.

Lemma dict_get_set (k k' : string) (v : value) (d : dict) :
  dict_get k (dict_set k' v d) = if k' =? k then Some v else dict_get k d.
Proof.
  induction d as [|[k0 v0] d IH]; simpl.
  - destruct (k' =? k); reflexivity.
  - destruct (k0 =? k') eqn:E0; simpl.
    + apply String.eqb_eq in E0; subst k0.
      destruct (k' =? k); reflexivity.
    + rewrite IH. destruct (k0 =? k) eqn:E1; [|reflexivity].
      apply String.eqb_eq in E1; subst k0.
      rewrite String.eqb_sym, E0. reflexivity.
Qed.

Lemma dict_keys_set (x k : string) (v : value) (d : dict) :
  In x (dict_keys (dict_set k v d)) <-> x = k \/ In x (dict_keys d).
Proof.
  plain_data.
  induction d as [|[k0 v0] d IH]; simpl.
  - intuition.
  - destruct (k0 =? k) eqn:E; simpl.
    + apply String.eqb_eq in E; subst k0. intuition.
    + rewrite IH. intuition.
Qed.

Lemma dict_set_NoDup (k : string) (v : value) (d : dict) :
  NoDup (dict_keys d) -> NoDup (dict_keys (dict_set k v d)).
Proof.
  induction d as [|[k0 v0] d IH]; simpl; intros H.
  - constructor; [intros [] | constructor].
  - inversion H as [|? ? Hn Hd]; subst.
    destruct (k0 =? k) eqn:E; simpl.
    + constructor; assumption.
    + constructor; [|apply IH; assumption].
      intros Hin. apply dict_keys_set in Hin. destruct Hin as [->|Hin].
      * rewrite String.eqb_refl in E. discriminate.
      * contradiction.
Qed.

Lemma dict_get_None (k : string) (d : dict) :
  dict_get k d = None <-> ~ In k (dict_keys d).
Proof.
  plain_data.
  induction d as [|[k0 v0] d IH]; simpl.
  - intuition.
  - destruct (k0 =? k) eqn:E.
    + apply String.eqb_eq in E. split; [discriminate | intros H; exfalso; auto].
    + apply String.eqb_neq in E. rewrite IH. intuition.
Qed.

Lemma dict_get_In (k : string) (v : value) (d : dict) :
  NoDup (dict_keys d) -> In (k, v) d -> dict_get k d = Some v.
Proof.
  induction d as [|[k0 v0] d IH]; simpl; intros Hnd Hin; [contradiction|].
  inversion Hnd as [|? ? Hn Hd]; subst.
  destruct Hin as [Heq|Hin].
  - inversion Heq; subst. rewrite String.eqb_refl. reflexivity.
  - destruct (k0 =? k) eqn:E.
    + apply String.eqb_eq in E; subst k0. exfalso. apply Hn.
      change (In (fst (k, v)) (map fst d)). apply in_map. assumption.
    + apply IH; assumption.
Qed.

Lemma dict_get_Some_In (k : string) (v : value) (d : dict) :
  dict_get k d = Some v -> In (k, v) d.
Proof.
  induction d as [|[k0 v0] d IH]; simpl; [discriminate|].
  destruct (k0 =? k) eqn:E.
  - apply String.eqb_eq in E; subst. intros H; inversion H; subst. left; reflexivity.
  - intros H. right. apply IH. assumption.
Qed.

Lemma dict_get_remove (k k' : string) (d : dict) :
  dict_get k (dict_remove k' d) = if k' =? k then None else dict_get k d.
Proof.
  induction d as [|[k0 v0] d IH]; simpl.
  - destruct (k' =? k); reflexivity.
  - destruct (k0 =? k') eqn:E0.
    + apply String.eqb_eq in E0; subst k0. rewrite IH.
      destruct (k' =? k); reflexivity.
    + simpl. rewrite IH. destruct (k0 =? k) eqn:E1; [|reflexivity].
      apply String.eqb_eq in E1; subst k0.
      rewrite String.eqb_sym, E0. reflexivity.
Qed.

Lemma dict_keys_remove (x k : string) (d : dict) :
  In x (dict_keys (dict_remove k d)) <-> x <> k /\ In x (dict_keys d).
Proof.
  plain_data.
  induction d as [|[k0 v0] d IH]; simpl.
  - intuition.
  - destruct (k0 =? k) eqn:E.
    + apply String.eqb_eq in E; subst k0. rewrite IH. intuition. subst. intuition.
    + apply String.eqb_neq in E. simpl. rewrite IH. intuition. subst. intuition.
Qed.

Lemma dict_update_NoDup (d other : dict) :
  NoDup (dict_keys d) -> NoDup (dict_keys (dict_update d other)).
Proof.
  unfold dict_update. revert d.
  induction other as [|[k v] o IH]; simpl; intros d H; [assumption|].
  apply IH. apply dict_set_NoDup. assumption.
Qed.

(** [d.update(other)] read key by key: the entry of [other] where it has
    one, the entry of [d] otherwise. *)
Lemma dict_get_update (k : string) (d other : dict) :
  NoDup (dict_keys other) ->
  dict_get k (dict_update d other) =
  match dict_get k other with
  | Some v => Some v
  | None => dict_get k d
  end.
Proof.
  unfold dict_update. revert d.
  induction other as [|[k0 v0] o IH]; simpl; intros d Hnd; [reflexivity|].
  inversion Hnd as [|? ? Hn Hd]; subst.
  rewrite IH by assumption. rewrite dict_get_set.
  destruct (k0 =? k) eqn:E; [|reflexivity].
  apply String.eqb_eq in E; subst k0.
  apply dict_get_None in Hn. rewrite Hn. reflexivity.
Qed.

(** ** Mappings: what the loop over the children builds *)

Lemma Mapping_loop_keys (callback : SchemaNode -> value -> result value)
    (cs : list SchemaNode) :
  forall num remaining error res remaining' error' res',
    Mapping_loop callback cs num remaining error res = Ok (remaining', error', res') ->
    NoDup (dict_keys res) ->
    NoDup (dict_keys res') /\
    forall k, In k (dict_keys res') -> In k (dict_keys res) \/ In k (map node_name cs).
Proof.
  plain_data.
  induction cs as [|c cs IH]; simpl;
    intros num remaining error res remaining' error' res' H Hnd.
  - inversion H; subst. auto.
  - destruct (is_drop _ || _).
    + apply IH in H; [|assumption]. destruct H as [H1 H2]. split; [assumption|].
      intros k Hk. apply H2 in Hk. tauto.
    + destruct (callback c _) as [a|[e| | |]]; try discriminate.
      * destruct (is_drop a).
        -- apply IH in H; [|assumption]. destruct H as [H1 H2]. split; [assumption|].
           intros k Hk. apply H2 in Hk. tauto.
        -- apply IH in H; [|apply dict_set_NoDup; assumption].
           destruct H as [H1 H2]. split; [assumption|].
           intros k Hk. apply H2 in Hk. destruct Hk as [Hk|Hk]; [|tauto].
           apply dict_keys_set in Hk. destruct Hk as [->|Hk]; tauto.
      * apply IH in H; [|assumption]. destruct H as [H1 H2]. split; [assumption|].
        intros k Hk. apply H2 in Hk. tauto.
Qed.

(** The declared stage of a query schema yields a dictionary whose keys are
    distinct and are names of declared fields. *)
Lemma QuerySchema_declared (fields : list SchemaNode) (d sv : dict) :
  deserialize (QuerySchema fields) (VDict d) = Ok (VDict sv) ->
  NoDup (dict_keys sv) /\ forall k, In k (dict_keys sv) -> In k (map node_name fields).
Proof.
  unfold QuerySchema. simpl.
  destruct (Mapping_loop deserialize fields 0 d [] []) as [[[rem err] res]|e] eqn:E;
    simpl; [|discriminate].
  destruct err; simpl; [|discriminate].
  intros H. inversion H; subst.
  apply Mapping_loop_keys in E; [|constructor].
  destruct E as [H1 H2]. split; [assumption|].
  intros k Hk. apply H2 in Hk. destruct Hk as [[]|Hk]. assumption.
Qed.

(** A query schema returns a dictionary only for a dictionary. *)
Lemma QuerySchema_dict_input (fields : list SchemaNode) (cstruct : value) (sv : dict) :
  deserialize (QuerySchema fields) cstruct = Ok (VDict sv) -> exists d, cstruct = VDict d.
Proof.
  unfold QuerySchema. destruct cstruct; simpl; try discriminate.
  intros _. eexists; reflexivity.
Qed.

(** ** Field filters *)

Lemma filters_untouched (items : dict) :
  forall values0 values k,
    deserialize_filters items values0 = Ok values ->
    ~ In k (dict_keys items) ->
    dict_get k values = dict_get k values0.
Proof.
  plain_data.
  induction items as [|[k0 v0] items IH]; simpl; intros values0 values k H Hk.
  - inversion H; reflexivity.
  - assert (Hne : (k0 =? k) = false) by (apply String.eqb_neq; intuition).
    assert (Hk' : ~ In k (dict_keys items)) by intuition.
    destruct (is_list_filter k0).
    + destruct (FieldList_deserialize v0) as [a|e]; simpl in H; [|discriminate].
      destruct a; try (apply IH with (k := k) in H; assumption).
      apply IH with (k := k) in H; [|assumption].
      rewrite H, dict_get_set, Hne. reflexivity.
    + apply IH with (k := k) in H; [|assumption].
      rewrite H, dict_get_set, Hne. reflexivity.
Qed.

(** What the loop leaves under a key of the raw mapping. *)
Lemma filters_lookup (items : dict) :
  forall values0 values k v,
    deserialize_filters items values0 = Ok values ->
    NoDup (dict_keys items) ->
    In (k, v) items ->
    dict_get k values =
    if is_list_filter k then
      match FieldList_deserialize v with
      | Ok (VList l) => Some (VList (map native_value l))
      | _ => dict_get k values0
      end
    else Some (native_value v).
Proof.
  induction items as [|[k0 v0] items IH]; simpl; intros values0 values k v H Hnd Hin;
    [contradiction|].
  inversion Hnd as [|? ? Hn Hd]; subst.
  destruct Hin as [Heq|Hin].
  - inversion Heq; subst k0 v0.
    destruct (is_list_filter k).
    + destruct (FieldList_deserialize v) as [a|e]; simpl in H; [|discriminate].
      destruct a; try (apply filters_untouched with (k := k) in H; assumption).
      apply filters_untouched with (k := k) in H; [|assumption].
      rewrite H, dict_get_set, String.eqb_refl. reflexivity.
    + apply filters_untouched with (k := k) in H; [|assumption].
      rewrite H, dict_get_set, String.eqb_refl. reflexivity.
  - assert (Hne : (k0 =? k) = false).
    { apply String.eqb_neq. intros ->. apply Hn.
      change (In (fst (k, v)) (map fst items)). apply in_map. assumption. }
    destruct (is_list_filter k0).
    + destruct (FieldList_deserialize v0) as [a|e]; simpl in H; [|discriminate].
      destruct a; try (apply IH with (k := k) (v := v) in H; assumption).
      apply IH with (k := k) (v := v) in H; try assumption.
      rewrite H, dict_get_set, Hne. reflexivity.
    + apply IH with (k := k) (v := v) in H; try assumption.
      rewrite H, dict_get_set, Hne. reflexivity.
Qed.

(** The loop raises only when the field-list parser does. *)
Lemma filters_total (items : dict) :
  forall values0,
    (forall k v, In (k, v) items -> is_list_filter k = true ->
                 is_ok (FieldList_deserialize v) = true) ->
    exists values, deserialize_filters items values0 = Ok values.
Proof.
  induction items as [|[k0 v0] items IH]; simpl; intros values0 H.
  - eexists; reflexivity.
  - assert (H' : forall k v, In (k, v) items ->
                 is_list_filter k = true ->
                 is_ok (FieldList_deserialize v) = true)
      by (intros k v Hin; apply H; right; assumption).
    destruct (is_list_filter k0) eqn:E.
    + specialize (H k0 v0 (or_introl eq_refl) E).
      destruct (FieldList_deserialize v0) as [a|e]; simpl in *; [|discriminate].
      destruct a; apply IH; assumption.
    + apply IH; assumption.
Qed.

(** ** The resolver's output *)

(** C2: whenever the resolver returns a mapping, that mapping is the
    inferred filter values updated with the values of the declared schema:
    a key the declared schema produced carries the declared value, also
    when filter inference produced one for the same key; every other key
    carries the inferred value. *)
Theorem QuerySchema_declared_overwrites_inferred
    (fields : list SchemaNode) (cstruct : value) (out : dict) :
  QuerySchema_deserialize (QuerySchema fields) cstruct = Ok (VDict out) ->
  exists d sv values,
    cstruct = VDict d /\
    deserialize (QuerySchema fields) cstruct = Ok (VDict sv) /\
    deserialize_filters d [] = Ok values /\
    out = dict_update values sv /\
    (forall k v, dict_get k sv = Some v -> dict_get k out = Some v) /\
    (forall k, dict_get k sv = None -> dict_get k out = dict_get k values).
Proof.
  unfold QuerySchema_deserialize.
  destruct (deserialize (QuerySchema fields) cstruct) as [schema_values|e] eqn:E;
    simpl; [|discriminate].
  destruct (is_drop schema_values) eqn:Ed.
  { destruct schema_values; simpl in Ed; discriminate. }
  destruct cstruct as [| | | | | | |d]; try discriminate.
  destruct (deserialize_filters d []) as [values|e] eqn:Ef; simpl; [|discriminate].
  destruct schema_values as [| | | | | | |sv]; try discriminate.
  intros H. inversion H; subst out. clear H.
  destruct (QuerySchema_declared _ _ _ E) as [Hnd _].
  exists d, sv, values.
  do 2 (split; [reflexivity|]). split; [exact Ef|]. split; [reflexivity|]. split.
  - intros k v Hk. rewrite dict_get_update by assumption. rewrite Hk. reflexivity.
  - intros k Hk. rewrite dict_get_update by assumption. rewrite Hk. reflexivity.
Qed.

(** C7: a key that starts with [in_] or [exclude_] and is not a declared
    field.  When the field-list parser returns something that is not a list,
    the key is absent from the output and the request is not failed; when it
    returns a list, the output holds under the key the tokens of that list,
    each coerced to its native value.  (The request fails only when the
    declared stage or the parser itself raises.) *)
Theorem list_filter_parsed_or_dropped
    (fields : list SchemaNode) (d sv : dict) (k : string) (v : value) :
  NoDup (dict_keys d) ->
  In (k, v) d ->
  is_list_filter k = true ->
  ~ In k (map node_name fields) ->
  deserialize (QuerySchema fields) (VDict d) = Ok (VDict sv) ->
  (forall k' v', In (k', v') d -> is_list_filter k' = true ->
                 is_ok (FieldList_deserialize v') = true) ->
  exists out,
    QuerySchema_deserialize (QuerySchema fields) (VDict d) = Ok (VDict out) /\
    dict_get k out =
    match FieldList_deserialize v with
    | Ok (VList tokens) => Some (VList (map native_value tokens))
    | _ => None
    end.
Proof.
  intros Hnd Hin Hk Hdecl Hsv Hfl.
  destruct (filters_total d [] Hfl) as [values Ef].
  destruct (QuerySchema_declared _ _ _ Hsv) as [Hnd' Hkeys].
  exists (dict_update values sv). split.
  - unfold QuerySchema_deserialize. rewrite Hsv. simpl. rewrite Ef. reflexivity.
  - rewrite dict_get_update by assumption.
    assert (Hnone : dict_get k sv = None).
    { apply dict_get_None. intros Hc. apply Hdecl. apply Hkeys. assumption. }
    rewrite Hnone.
    rewrite (filters_lookup d [] values k v Ef Hnd Hin). rewrite Hk.
    destruct (FieldList_deserialize v) as [a|e]; [|reflexivity].
    destruct a; reflexivity.
Qed.

(** ** JSON Patch operations *)

Lemma pointer_match_slash (rest : string) :
  re_match pointer_regex (String "/" rest) = true.
Proof.
  unfold re_match, pointer_regex. simpl.
  destruct (String.length rest) eqn:E; simpl; rewrite E; reflexivity.
Qed.

(** The pointer check passes exactly on the strings that begin with a
    slash. *)
Lemma pointer_match_iff (s : string) :
  re_match pointer_regex s = true <-> exists rest, s = String "/" rest.
Proof.
  split.
  - destruct s as [|c rest]; [discriminate|].
    unfold re_match, pointer_regex. cbn [rmatch].
    destruct (Ascii.eqb "/" c) eqn:E; [|discriminate].
    apply Ascii.eqb_eq in E. subst c. intros _. eexists; reflexivity.
  - intros [rest ->]. apply pointer_match_slash.
Qed.

(** What [colander.String] makes of a value: [null] of a falsy one, the
    string itself of a string, and an [Invalid] of anything else. *)
Lemma String_deserialize_cases (name : string) (v : value) :
  (truthy v = false /\ String_deserialize name v = Ok VNull) \/
  (exists s, v = VStr s /\ s <> "" /\ String_deserialize name v = Ok (VStr s)) \/
  (truthy v = true /\
   String_deserialize name v = Raise (EInvalid (Invalid name (Some (NotAString v)) []))).
Proof.
  unfold String_deserialize.
  destruct (truthy v) eqn:E; cbn [negb]; [|left; auto].
  right. destruct v as [| | | | |s| |]; try (right; split; reflexivity).
  left. exists s. split; [reflexivity|]. split; [|reflexivity].
  intros ->. discriminate E.
Qed.

Lemma deserialize_mapping (name : string) (u : unknown_policy) (cs : list SchemaNode)
    (m : missing_policy) (df : value) (d : dict) :
  deserialize (Node name (TMapping u) cs None m df) (VDict d) =
  Mapping_impl deserialize name u cs (VDict d).
Proof.
  simpl. destruct (Mapping_loop deserialize cs 0 d [] []) as [[[rem err] res]|e];
    simpl; [|reflexivity].
  destruct u; simpl.
  - destruct err; reflexivity.
  - destruct rem; [destruct err; reflexivity | reflexivity].
  - destruct err; reflexivity.
Qed.

Lemma Mapping_loop_error_grows (callback : SchemaNode -> value -> result value)
    (cs : list SchemaNode) :
  forall num remaining error res remaining' error' res',
    Mapping_loop callback cs num remaining error res = Ok (remaining', error', res') ->
    exists extra, error' = error ++ extra.
Proof.
  induction cs as [|c cs IH]; simpl;
    intros num remaining error res remaining' error' res' H.
  - inversion H; subst. exists []. rewrite app_nil_r. reflexivity.
  - destruct (is_drop _ || _); [eapply IH; eassumption|].
    destruct (callback c _) as [a|[e| | |]]; try discriminate.
    + destruct (is_drop a); eapply IH; eassumption.
    + apply IH in H. destruct H as [extra ->]. rewrite <- app_assoc.
      eexists; reflexivity.
Qed.

(** One round of the loop on a run that ends without any error. *)
Lemma Mapping_loop_cons_ok (callback : SchemaNode -> value -> result value)
    (c : SchemaNode) (cs : list SchemaNode) (num : nat) (remaining res remaining' res' : dict) :
  Mapping_loop callback (c :: cs) num remaining [] res = Ok (remaining', [], res') ->
  let subval := match dict_get (node_name c) remaining with
                | Some v => v
                | None => VNull
                end in
  (is_drop subval || (is_null subval && is_drop (node_default c)) = true /\
   Mapping_loop callback cs (S num) (dict_remove (node_name c) remaining) [] res
   = Ok (remaining', [], res'))
  \/
  (is_drop subval || (is_null subval && is_drop (node_default c)) = false /\
   exists r, callback c subval = Ok r /\
     Mapping_loop callback cs (S num) (dict_remove (node_name c) remaining) []
       (if is_drop r then res else dict_set (node_name c) r res)
     = Ok (remaining', [], res')).
Proof.
  simpl. intros H.
  destruct (is_drop _ || _); [left; auto|].
  right. split; [reflexivity|].
  destruct (callback c _) as [a|[e| | |]]; try discriminate.
  - exists a. split; [reflexivity|]. destruct (is_drop a); assumption.
  - apply Mapping_loop_error_grows in H. destruct H as [extra H].
    destruct extra; discriminate.
Qed.

(** A string node with a validator: the [missing] policy on a falsy
    input, otherwise the input, which is a string that passed the
    validator. *)
Lemma string_node_result (name : string) (val : validator) (m : missing_policy)
    (v r : value) :
  deserialize (Node name TString [] (Some val) m VNull) v = Ok r ->
  (m = drop /\ r = VDrop /\ truthy v = false) \/
  (exists mv, m = MissingValue mv /\ r = mv /\ truthy v = false) \/
  (exists s, v = VStr s /\ r = VStr s /\ s <> "" /\
             run_validator val (VStr s) = Ok None).
Proof.
  plain_data.
  simpl. 
  assert (Hm : forall r', match m with
                     | required => raise_invalid name Required
                     | drop => Ok VDrop
                     | MissingValue v0 => Ok v0
                     end = Ok r' ->
               (m = drop /\ r' = VDrop) \/ (exists mv, m = MissingValue mv /\ r' = mv)).
  { intros r'. destruct m; intros H; inversion H; subst; [left|right; eexists]; auto. }
  destruct (is_null v) eqn:En.
  { assert (Ht : truthy v = false) by (destruct v; try discriminate En; reflexivity).
    intros H. apply Hm in H. destruct H as [[H1 H2]|[mv [H1 H2]]];
      [left|right; left; exists mv]; auto. }
  destruct (String_deserialize_cases name v) as [[Ht E]|[[s [-> [Hs E]]]|[Ht E]]];
    rewrite E; simpl.
  - intros H. apply Hm in H. destruct H as [[H1 H2]|[mv [H1 H2]]];
      [left|right; left; exists mv]; auto.
  - destruct (run_validator val (VStr s)) as [[msg|]|e] eqn:Ev; simpl; try discriminate.
    intros H. inversion H; subst. right. right. exists s. auto.
  - discriminate.
Qed.

(** Input read from a request holds no [colander.drop] sentinel. *)
Lemma nodrop_get (k : string) (d : dict) :
  Forall (fun kv => is_drop (snd kv) = false) d ->
  is_drop (match dict_get k d with Some v => v | None => VNull end) = false.
Proof.
  induction d as [|[k0 v0] d IH]; simpl; intros H; [reflexivity|].
  inversion H; subst. destruct (k0 =? k); [assumption | apply IH; assumption].
Qed.

Lemma nodrop_remove (k : string) (d : dict) :
  Forall (fun kv => is_drop (snd kv) = false) d ->
  Forall (fun kv => is_drop (snd kv) = false) (dict_remove k d).
Proof.
  induction d as [|[k0 v0] d IH]; simpl; intros H; [constructor|].
  inversion H; subst. destruct (k0 =? k); [apply IH; assumption|].
  constructor; [assumption | apply IH; assumption].
Qed.

Lemma mem_In (k : string) (l : list string) : mem k l = true <-> In k l.
Proof.
  unfold mem. rewrite existsb_exists. split.
  - intros [x [Hx E]]. apply String.eqb_eq in E. subst. assumption.
  - intros H. exists k. split; [assumption | apply String.eqb_refl].
Qed.

Lemma OneOf_passes (choices : list string) (s : string) :
  run_validator (OneOf choices) (VStr s) = Ok None -> In s choices.
Proof.
  simpl. destruct (mem s choices) eqn:E; [|discriminate].
  intros _. apply mem_In. assumption.
Qed.

Lemma Regex_passes (r : regex) (s : string) :
  run_validator (Regex r) (VStr s) = Ok None -> re_match r s = true.
Proof.
  simpl. destruct (re_match r s); [reflexivity | discriminate].
Qed.

Lemma dict_get_remove_ne (k k' : string) (d : dict) :
  k' <> k -> dict_get k (dict_remove k' d) = dict_get k d.
Proof.
  intros H. rewrite dict_get_remove.
  apply String.eqb_neq in H. rewrite H. reflexivity.
Qed.

Lemma any_node_result (name : string) (v r : value) :
  deserialize (Node name TAny [] None drop VNull) v = Ok r ->
  (is_null v = true /\ r = VDrop) \/ (is_null v = false /\ r = v).
Proof.
  simpl. destruct (is_null v) eqn:E; simpl.
  - intros H; inversion H; auto.
  - intros H; inversion H; auto.
Qed.

Ltac mapping_step E Hd r Hr :=
  apply Mapping_loop_cons_ok in E; cbv zeta in E; cbn [node_name node_default] in E;
  rewrite (nodrop_get _ _ Hd) in E; rewrite ?andb_false_r in E;
  destruct E as [[E _]|[_ [r [Hr E]]]]; [discriminate E|].

Lemma get_or_null_str (k : string) (d : dict) (s : string) :
  match dict_get k d with Some v => v | None => VNull end = VStr s ->
  dict_get k d = Some (VStr s).
Proof.
  destruct (dict_get k d); intros H; [rewrite H; reflexivity | discriminate].
Qed.

Lemma patch_operation_only_if
    (name : string) (missing : missing_policy) (d : dict) (out : value) :
  Forall (fun kv => is_drop (snd kv) = false) d ->
  deserialize (JsonPatchOperationSchema name missing) (VDict d) = Ok out ->
  exists o op path,
    out = VDict o /\
    dict_get "op" o = Some (VStr op) /\
    In op ["test"; "add"; "remove"; "replace"; "move"; "copy"] /\
    dict_get "path" o = Some (VStr path) /\
    re_match pointer_regex path = true /\
    (forall f, dict_get "from" o = Some f ->
               exists s, f = VStr s /\ re_match pointer_regex s = true) /\
    (forall k, In k (dict_keys d) -> In k ["op"; "path"; "from"; "value"]) /\
    (dict_get "from" d = None -> dict_get "from" o = None) /\
    (dict_get "value" d = None -> dict_get "value" o = None) /\
    (forall s, dict_get "op" d = Some (VStr s) -> op = s) /\
    (forall s, dict_get "path" d = Some (VStr s) -> path = s) /\
    dict_get "op" d = Some (VStr op) /\
    dict_get "path" d = Some (VStr path) /\
    (forall v, dict_get "from" d = Some v ->
               (truthy v = false /\ dict_get "from" o = None) \/
               (exists s, v = VStr s /\ re_match pointer_regex s = true /\
                          dict_get "from" o = Some (VStr s))).
Proof.
  plain_data.
  intros Hd H. unfold JsonPatchOperationSchema in H.
  rewrite deserialize_mapping in H. unfold Mapping_impl in H.
  destruct (Mapping_loop _ _ _ _ _ _) as [[[rem err] res]|e] eqn:E; simpl in H;
    [|discriminate].
  destruct rem; [|discriminate]. destruct err; [|discriminate].
  simpl in H. inversion H; subst out. clear H.
  pose proof (nodrop_remove "op" d Hd) as Hd1.
  pose proof (nodrop_remove "path" _ Hd1) as Hd2.
  pose proof (nodrop_remove "from" _ Hd2) as Hd3.
  mapping_step E Hd r1 Hr1.
  apply string_node_result in Hr1.
  destruct Hr1 as [[Hm _]|[[mv [Hm _]]|[op [Hv1 [-> [_ Hop]]]]]]; try discriminate Hm.
  apply get_or_null_str in Hv1.
  apply OneOf_passes in Hop.
  change (if is_drop (VStr op) then [] else dict_set "op" (VStr op) [])
    with [("op", VStr op)] in E.
  mapping_step E Hd1 r2 Hr2.
  apply string_node_result in Hr2.
  destruct Hr2 as [[Hm _]|[[mv [Hm _]]|[path [Hv2 [-> [_ Hpath]]]]]]; try discriminate Hm.
  apply get_or_null_str in Hv2.
  rewrite !dict_get_remove_ne in Hv2 by discriminate.
  apply Regex_passes in Hpath.
  change (if is_drop (VStr path) then [("op", VStr op)]
          else dict_set "path" (VStr path) [("op", VStr op)])
    with [("op", VStr op); ("path", VStr path)] in E.
  mapping_step E Hd2 r3 Hr3.
  mapping_step E Hd3 r4 Hr4.
  rewrite !dict_get_remove_ne in Hr3 by discriminate.
  rewrite !dict_get_remove_ne in Hr4 by discriminate.
  assert (Hkeys : forall k, In k (dict_keys d) -> In k ["op"; "path"; "from"; "value"]).
  { intros k Hk. simpl in E. inversion E as [[Hrem Hres]].
    destruct (string_dec k "op") as [->|N1]; [simpl; tauto|].
    destruct (string_dec k "path") as [->|N2]; [simpl; tauto|].
    destruct (string_dec k "from") as [->|N3]; [simpl; tauto|].
    destruct (string_dec k "value") as [->|N4]; [simpl; tauto|].
    exfalso.
    assert (Hin : In k (dict_keys (dict_remove "value" (dict_remove "from"
                     (dict_remove "path" (dict_remove "op" d)))))).
    { repeat (apply dict_keys_remove; split; [assumption|]). assumption. }
    rewrite Hrem in Hin. exact Hin. }
  assert (Hfrom : (r3 = VDrop /\
                   truthy match dict_get "from" d with Some v => v | None => VNull end
                   = false) \/
                  (exists s, match dict_get "from" d with Some v => v | None => VNull end
                             = VStr s /\
                             r3 = VStr s /\ re_match pointer_regex s = true)).
  { pose proof (string_node_result _ _ _ _ _ Hr3) as Hc.
    destruct Hc as [[_ [-> Ht]]|[[mv [Hm _]]|[s [Hv [-> [_ Hs]]]]]]; try discriminate Hm.
    - left. auto.
    - right. exists s. split; [exact Hv|]. split; [reflexivity|].
      apply Regex_passes; assumption. }
  assert (Hvalue : r4 = VDrop \/ (is_drop r4 = false /\ dict_get "value" d <> None)).
  { pose proof (any_node_result _ _ _ Hr4) as Hc.
    destruct Hc as [[_ ->]|[Hn ->]]; [left; reflexivity|].
    right. split.
    - apply (nodrop_get "value" d Hd).
    - intros Hnone. rewrite Hnone in Hn. discriminate. }
  clear Hr3 Hr4.
  destruct Hfrom as [[-> Htr]|[s [Hv3 [-> Hs]]]];
    destruct Hvalue as [->|[Hr4 Hvd]];
    simpl in E; try rewrite Hr4 in E; injection E as Hrem Hres; subst res;
    eexists; exists op, path;
    (split; [reflexivity|]); simpl;
    (split; [reflexivity|]); (split; [exact Hop|]);
    (split; [reflexivity|]); (split; [exact Hpath|]);
    (split; [|split; [exact Hkeys|]]);
    try (intros f Hf; first [discriminate Hf | injection Hf as <-; exists s; auto]);
    (split; [intros Hn; first [reflexivity | (rewrite Hn in Hv3; discriminate Hv3)]|]);
    (split; [intros Hn; first [reflexivity | contradiction (Hvd Hn)]|]);
    (split; [intros s' Hs'; congruence|]);
    (split; [intros s' Hs'; congruence|]);
    (split; [exact Hv1|]); (split; [exact Hv2|]);
    intros v Hv;
    first [ rewrite Hv in Htr; left; split; [exact Htr|reflexivity]
          | rewrite Hv in Hv3; right; exists s;
            split; [exact Hv3|split; [exact Hs|reflexivity]] ].
Qed.

(** A string that is not empty and does not pass the pointer check, given
    as [from], makes the operation fail. *)
Lemma patch_operation_bad_from
    (name : string) (missing : missing_policy) (d : dict) (s : string) :
  Forall (fun kv => is_drop (snd kv) = false) d ->
  dict_get "from" d = Some (VStr s) ->
  s <> "" ->
  re_match pointer_regex s = false ->
  is_ok (deserialize (JsonPatchOperationSchema name missing) (VDict d)) = false.
Proof.
  intros Hd Hf Hne Hs.
  destruct (deserialize (JsonPatchOperationSchema name missing) (VDict d)) as [out|e] eqn:E;
    [|reflexivity].
  exfalso.
  destruct (patch_operation_only_if _ _ _ _ Hd E)
    as [o [op [path [_ [_ [_ [_ [_ [_ [_ [_ [_ [_ [_ [_ [_ Hfrom]]]]]]]]]]]]]]]].
  destruct (Hfrom _ Hf) as [[Ht _]|[s' [Hv [Hm _]]]].
  - simpl in Ht. apply String.eqb_neq in Hne. rewrite Hne in Ht. discriminate.
  - injection Hv as <-. rewrite Hm in Hs. discriminate.
Qed.

(** A value given as [op], [path] or [from] that is not a string and is
    not falsy makes the operation fail. *)
Lemma patch_operation_not_a_string
    (name : string) (missing : missing_policy) (d : dict) (k : string) (v : value) :
  Forall (fun kv => is_drop (snd kv) = false) d ->
  In k ["op"; "path"; "from"] ->
  dict_get k d = Some v ->
  truthy v = true ->
  (forall s, v <> VStr s) ->
  is_ok (deserialize (JsonPatchOperationSchema name missing) (VDict d)) = false.
Proof.
  intros Hd Hk Hv Ht Hns.
  destruct (deserialize (JsonPatchOperationSchema name missing) (VDict d)) as [out|e] eqn:E;
    [|reflexivity].
  exfalso.
  destruct (patch_operation_only_if _ _ _ _ Hd E)
    as [o [op [path [_ [_ [_ [_ [_ [_ [_ [_ [_ [_ [_ [Hop [Hpath Hfrom]]]]]]]]]]]]]]]].
  destruct Hk as [<-|[<-|[<-|[]]]].
  - rewrite Hop in Hv. injection Hv as <-. exact (Hns op eq_refl).
  - rewrite Hpath in Hv. injection Hv as <-. exact (Hns path eq_refl).
  - destruct (Hfrom _ Hv) as [[Hf _]|[s [-> _]]].
    + rewrite Hf in Ht. discriminate.
    + exact (Hns s eq_refl).
Qed.

Lemma string_node_accepts (name : string) (val : validator) (m : missing_policy) (s : string) :
  s <> "" ->
  run_validator val (VStr s) = Ok None ->
  deserialize (Node name TString [] (Some val) m VNull) (VStr s) = Ok (VStr s).
Proof.
  intros Hs Hv. simpl. unfold String_deserialize. simpl.
  apply String.eqb_neq in Hs. rewrite Hs. simpl.
  simpl in Hv. rewrite Hv. reflexivity.
Qed.

Lemma patch_operation_minimal (name : string) (missing : missing_policy) (op path : string) :
  In op ["test"; "add"; "remove"; "replace"; "move"; "copy"] ->
  re_match pointer_regex path = true ->
  deserialize (JsonPatchOperationSchema name missing)
    (VDict [("op", VStr op); ("path", VStr path)])
  = Ok (VDict [("op", VStr op); ("path", VStr path)]).
Proof.
  intros Hop Hpath.
  assert (Hop' : op <> "" /\ run_validator op_validator (VStr op) = Ok None).
  { simpl in Hop. decompose [or] Hop; subst; try contradiction;
      (split; [discriminate | reflexivity]). }
  assert (Hpath' : path <> "" /\ run_validator path_validator (VStr path) = Ok None).
  { split.
    - apply pointer_match_iff in Hpath. destruct Hpath as [rest ->]. discriminate.
    - simpl. rewrite Hpath. reflexivity. }
  destruct Hop' as [Ho1 Ho2]. destruct Hpath' as [Hp1 Hp2].
  unfold JsonPatchOperationSchema. rewrite deserialize_mapping.
  unfold Mapping_impl, Mapping_loop.
  cbn [dict_get dict_remove node_name node_default is_drop is_null String.eqb Ascii.eqb
       Bool.eqb orb andb].
  rewrite (string_node_accepts "op" _ _ op Ho1 Ho2).
  cbn [dict_get dict_remove dict_set node_name node_default is_drop is_null String.eqb
       Ascii.eqb Bool.eqb orb andb].
  rewrite (string_node_accepts "path" _ _ path Hp1 Hp2).
  reflexivity.
Qed.

(** A falsy value given as [from] is dropped like an absent one. *)
Lemma patch_operation_falsy_from
    (name : string) (missing : missing_policy) (op path : string) (v : value) :
  In op ["test"; "add"; "remove"; "replace"; "move"; "copy"] ->
  re_match pointer_regex path = true ->
  truthy v = false ->
  deserialize (JsonPatchOperationSchema name missing)
    (VDict [("op", VStr op); ("path", VStr path); ("from", v)])
  = Ok (VDict [("op", VStr op); ("path", VStr path)]).
Proof.
  intros Hop Hpath Hv.
  assert (Hop' : op <> "" /\ run_validator op_validator (VStr op) = Ok None).
  { simpl in Hop. decompose [or] Hop; subst; try contradiction;
      (split; [discriminate | reflexivity]). }
  assert (Hpath' : path <> "" /\ run_validator path_validator (VStr path) = Ok None).
  { split.
    - apply pointer_match_iff in Hpath. destruct Hpath as [rest ->]. discriminate.
    - simpl. rewrite Hpath. reflexivity. }
  destruct Hop' as [Ho1 Ho2]. destruct Hpath' as [Hp1 Hp2].
  assert (Hfrom : deserialize (Node "from" TString [] (Some path_validator) drop VNull) v
                  = Ok VDrop).
  { cbn [deserialize]. destruct (is_null v); [reflexivity|].
    unfold String_deserialize. rewrite Hv. reflexivity. }
  assert (Hnd : is_drop v = false) by (destruct v; try reflexivity; discriminate Hv).
  unfold JsonPatchOperationSchema. rewrite deserialize_mapping.
  unfold Mapping_impl, Mapping_loop.
  cbn [dict_get dict_remove node_name node_default is_drop is_null String.eqb Ascii.eqb
       Bool.eqb orb andb].
  rewrite (string_node_accepts "op" _ _ op Ho1 Ho2).
  cbn [dict_get dict_remove dict_set node_name node_default is_drop is_null String.eqb
       Ascii.eqb Bool.eqb orb andb].
  rewrite (string_node_accepts "path" _ _ path Hp1 Hp2).
  cbn [dict_get dict_remove dict_set node_name node_default is_drop is_null String.eqb
       Ascii.eqb Bool.eqb orb andb].
  rewrite Hnd, andb_false_r, Hfrom. reflexivity.
Qed.

(** C6, as the code has it: an operation validates only if [op] is a
    string, one of the six literals, and [path] is a string that passes the
    pointer check, which asks for a match at the start of the string, so
    for a leading slash.  A [from] that is there is either falsy (the empty
    string, [null] and the like), and then dropped like an absent one, or a
    string that passes the same check and is kept: a non-empty [from]
    without a leading slash fails, and so does an [op], [path] or [from]
    that is neither falsy nor a string.  Any key other than [op], [path],
    [from] and [value] fails validation; an absent [from] or [value] is left
    out of the result, and an operation made of a valid [op] and [path]
    alone validates unchanged. *)
Theorem patch_operation_closed_shape
    (name : string) (missing : missing_policy) (d : dict) :
  Forall (fun kv => is_drop (snd kv) = false) d ->
  (forall out,
      deserialize (JsonPatchOperationSchema name missing) (VDict d) = Ok out ->
      exists o op path,
        out = VDict o /\
        dict_get "op" o = Some (VStr op) /\
        In op ["test"; "add"; "remove"; "replace"; "move"; "copy"] /\
        dict_get "path" o = Some (VStr path) /\
        re_match pointer_regex path = true /\
        (forall f, dict_get "from" o = Some f ->
                   exists s, f = VStr s /\ re_match pointer_regex s = true) /\
        (forall k, In k (dict_keys d) -> In k ["op"; "path"; "from"; "value"]) /\
        (dict_get "from" d = None -> dict_get "from" o = None) /\
        (dict_get "value" d = None -> dict_get "value" o = None) /\
        (forall s, dict_get "op" d = Some (VStr s) -> op = s) /\
        (forall s, dict_get "path" d = Some (VStr s) -> path = s) /\
        dict_get "op" d = Some (VStr op) /\
        dict_get "path" d = Some (VStr path) /\
        (forall v, dict_get "from" d = Some v ->
                   (truthy v = false /\ dict_get "from" o = None) \/
                   (exists s, v = VStr s /\ re_match pointer_regex s = true /\
                              dict_get "from" o = Some (VStr s)))) /\
  (forall s, re_match pointer_regex s = true <-> exists rest, s = String "/" rest) /\
  (forall op path,
      In op ["test"; "add"; "remove"; "replace"; "move"; "copy"] ->
      re_match pointer_regex path = true ->
      deserialize (JsonPatchOperationSchema name missing)
        (VDict [("op", VStr op); ("path", VStr path)])
      = Ok (VDict [("op", VStr op); ("path", VStr path)])) /\
  (forall s, dict_get "from" d = Some (VStr s) ->
             s <> "" ->
             (forall rest, s <> String "/" rest) ->
             is_ok (deserialize (JsonPatchOperationSchema name missing) (VDict d)) = false) /\
  (forall k v, In k ["op"; "path"; "from"] ->
               dict_get k d = Some v ->
               truthy v = true ->
               (forall s, v <> VStr s) ->
               is_ok (deserialize (JsonPatchOperationSchema name missing) (VDict d))
               = false) /\
  (forall op path v,
      In op ["test"; "add"; "remove"; "replace"; "move"; "copy"] ->
      re_match pointer_regex path = true ->
      truthy v = false ->
      deserialize (JsonPatchOperationSchema name missing)
        (VDict [("op", VStr op); ("path", VStr path); ("from", v)])
      = Ok (VDict [("op", VStr op); ("path", VStr path)])).
Proof.
  intros Hd. split; [|split; [|split; [|split; [|split]]]].
  - intros out H. eapply patch_operation_only_if; eassumption.
  - apply pointer_match_iff.
  - apply patch_operation_minimal.
  - intros s Hf Hne Hns. apply (patch_operation_bad_from name missing d s Hd Hf Hne).
    destruct (re_match pointer_regex s) eqn:E; [|reflexivity].
    apply pointer_match_iff in E. destruct E as [rest ->].
    exfalso. exact (Hns rest eq_refl).
  - intros k v Hk Hv Ht Hns.
    exact (patch_operation_not_a_string name missing d k v Hd Hk Hv Ht Hns).
  - apply patch_operation_falsy_from.
Qed.

(** C10: the pointer check on [path] and [from] is a match at the start of
    the string only.  Every string that begins with a slash passes it,
    whatever follows; the strings "/a b" and "/a!?" are outside the grammar
    taken as a whole, and an operation carrying them as [path] and [from]
    validates. *)
Theorem pointer_check_is_prefix_match :
  (forall rest, run_validator path_validator (VStr (String "/" rest)) = Ok None) /\
  re_fullmatch pointer_regex "/a b" = false /\
  re_fullmatch pointer_regex "/a!?" = false /\
  deserialize (JsonPatchOperationSchema "" required)
    (VDict [("op", VStr "move"); ("path", VStr "/a b"); ("from", VStr "/a!?")])
  = Ok (VDict [("op", VStr "move"); ("path", VStr "/a b"); ("from", VStr "/a!?")]).
Proof.
  split; [|split; [|split]]; try reflexivity.
  intros rest. unfold path_validator. simpl run_validator.
  rewrite pointer_match_slash. reflexivity.
Qed.

(** ** Integer fields of the querystring *)

Lemma POSTGRESQL_MAX_INTEGER_VALUE_eq : POSTGRESQL_MAX_INTEGER_VALUE = (2 ^ 63)%Z.
Proof. reflexivity. Qed.

(** The validator of the integer fields passes exactly the integers from 0
    to 2^63, both included. *)
Lemma positive_big_integer_range (n : Z) :
  run_validator positive_big_integer (VInt n) = Ok None <-> (0 <= n <= 2 ^ 63)%Z.
Proof.
  unfold positive_big_integer, run_validator. rewrite POSTGRESQL_MAX_INTEGER_VALUE_eq.
  destruct (n <? 0)%Z eqn:E1.
  - apply Z.ltb_lt in E1. split; [discriminate | lia].
  - apply Z.ltb_ge in E1. destruct (n >? 2 ^ 63)%Z eqn:E2.
    + rewrite Z.gtb_ltb in E2. apply Z.ltb_lt in E2. split; [discriminate | lia].
    + rewrite Z.gtb_ltb in E2. apply Z.ltb_ge in E2. split; [lia | reflexivity].
Qed.

(** Every integer-typed reserved field is declared with that validator and
    takes an integer exactly when the validator passes it. *)
Lemma integer_field_range (f : string) (n : Z) :
  In f integer_fields ->
  exists node,
    get_child f CollectionQuerySchema_fields = Some node /\
    node_validator node = Some positive_big_integer /\
    (deserialize node (VInt n) = Ok (VInt n) <-> (0 <= n <= 2 ^ 63)%Z).
Proof.
  intros Hf.
  assert (H : deserialize (QueryField f TInteger (Some positive_big_integer)) (VInt n)
              = Ok (VInt n) <-> (0 <= n <= 2 ^ 63)%Z).
  { rewrite <- positive_big_integer_range. unfold QueryField.
    cbn [deserialize is_null]. unfold Integer_deserialize.
    cbn [equals_zero truthy].
    assert (Hb : negb (n =? 0)%Z && negb (negb (n =? 0)%Z) = false)
      by (destruct (n =? 0)%Z; reflexivity).
    rewrite Hb. cbn [bind is_null].
    destruct (run_validator positive_big_integer (VInt n)) as [[m|]|e]; simpl;
      split; intros H; try discriminate; reflexivity. }
  simpl in Hf. decompose [or] Hf; subst; try contradiction;
    (eexists; split; [reflexivity|]; split; [reflexivity|]; exact H).
Qed.

(** C8, at the failing input: a template with a placeholder bound without a
    resource name makes [build_path] raise [TypeError]. *)
Theorem build_path_without_resource_name_raises :
  build_path {| kw_path := Some "/buckets/{bucket_id}"; kw_resource_name := None;
                kw_id_generators := Some []; kw_header := None;
                kw_querystring := None |}
  = Raise ETypeError.
Proof. reflexivity. Qed.

(** The same for every template that has a placeholder. *)
Lemma build_path_None_resource (kw : kwargs) (path : string) :
  kw_path kw = Some path ->
  kw_resource_name kw = None ->
  placeholders path <> [] ->
  build_path kw = Raise ETypeError.
Proof.
  intros Hp Hr Hph. unfold build_path. rewrite Hp, Hr.
  destruct path as [|c path]; [exfalso; apply Hph; reflexivity|].
  cbn [truthy negb String.eqb]. unfold specialize.
  destruct (placeholders (String c path)) as [|rid rest]; [contradiction|].
  reflexivity.
Qed.

(** Without placeholders the binding does return a schema, an empty one. *)
Lemma build_path_no_placeholder (kw : kwargs) (path : string) :
  kw_path kw = Some path ->
  path <> "" ->
  placeholders (specialize (kw_resource_name kw) path) = [] ->
  build_path kw = Ok (Some (Node "path" (TMapping UIgnore) [] None required VNull)).
Proof.
  intros Hp Hne Hph. unfold build_path. rewrite Hp.
  destruct path as [|c path]; [contradiction|].
  cbn [truthy negb String.eqb]. rewrite Hph. reflexivity.
Qed.
(** ** Binding a request schema *)

Lemma node_name_set_name (n : string) (v : SchemaNode) : node_name (set_name n v) = n.
Proof. destruct v; reflexivity. Qed.

Lemma get_child_set_same (n : string) (v : SchemaNode) (cs : list SchemaNode) :
  get_child n (set_child n v cs) = Some (set_name n v).
Proof.
  induction cs as [|c cs IH]; simpl.
  - rewrite node_name_set_name, String.eqb_refl. reflexivity.
  - destruct (n =? node_name c) eqn:E; simpl.
    + rewrite node_name_set_name, String.eqb_refl. reflexivity.
    + rewrite String.eqb_sym, E. assumption.
Qed.

Lemma get_child_set_other (n n' : string) (v : SchemaNode) (cs : list SchemaNode) :
  n <> n' -> get_child n (set_child n' v cs) = get_child n cs.
Proof.
  intros Hne. assert (Hf : (n' =? n) = false) by (apply String.eqb_neq; auto).
  induction cs as [|c cs IH]; simpl.
  - rewrite node_name_set_name, Hf. reflexivity.
  - destruct (n' =? node_name c) eqn:E; simpl.
    + rewrite node_name_set_name, Hf. apply String.eqb_eq in E. rewrite <- E, Hf.
      reflexivity.
    + rewrite IH. reflexivity.
Qed.

(** Setting a child that is already there changes nothing. *)
Lemma set_child_fixed (n : string) (v : SchemaNode) (cs : list SchemaNode) :
  get_child n cs = Some (set_name n v) -> set_child n v cs = cs.
Proof.
  induction cs as [|c cs IH]; simpl; [discriminate|].
  rewrite (String.eqb_sym n). destruct (node_name c =? n).
  - intros H. inversion H. reflexivity.
  - intros H. rewrite IH by assumption. reflexivity.
Qed.

Lemma after_bind_attrs (s : RequestSchemaState) :
  rs_header (after_bind s) = rs_header s /\
  rs_path (after_bind s) = rs_path s /\
  rs_querystring (after_bind s) = rs_querystring s.
Proof.
  unfold after_bind.
  destruct (get_child "header" (rs_children s));
    destruct (get_child "querystring" _); auto.
Qed.

Lemma after_bind_keeps (s : RequestSchemaState) (n : string) (x : SchemaNode) :
  get_child n (rs_children s) = Some x ->
  get_child n (rs_children (after_bind s)) = Some x.
Proof.
  intros H. unfold after_bind.
  assert (H1 : get_child n
                 (rs_children match get_child "header" (rs_children s) with
                              | None => with_child "header" HeaderSchema s
                              | Some _ => s
                              end) = Some x).
  { destruct (get_child "header" (rs_children s)) eqn:E; [assumption|].
    simpl. rewrite get_child_set_other; [assumption|].
    intros ->. rewrite E in H. discriminate. }
  destruct (get_child "querystring" _) eqn:E; [assumption|].
  simpl. rewrite get_child_set_other; [assumption|].
  intros ->. rewrite E in H1. discriminate.
Qed.

Lemma after_bind_defaults (s : RequestSchemaState) :
  get_child "header" (rs_children (after_bind s)) <> None /\
  get_child "querystring" (rs_children (after_bind s)) <> None.
Proof.
  unfold after_bind.
  destruct (get_child "header" (rs_children s)) eqn:E1;
    destruct (get_child "querystring" _) eqn:E2; simpl in *;
    rewrite ?get_child_set_same, ?get_child_set_other by discriminate;
    try (rewrite get_child_set_other in E2 by discriminate);
    rewrite ?E1, ?E2, ?get_child_set_same; split; discriminate.
Qed.

Lemma after_bind_fixed (s : RequestSchemaState) :
  get_child "header" (rs_children s) <> None ->
  get_child "querystring" (rs_children s) <> None ->
  after_bind s = s.
Proof.
  intros H1 H2. unfold after_bind.
  destruct (get_child "header" (rs_children s)); [|contradiction].
  destruct (get_child "querystring" (rs_children s)); [reflexivity|contradiction].
Qed.

Lemma bind_header_facts (kw : kwargs) (s : RequestSchemaState) :
  rs_path (bind_header kw s) = rs_path s /\
  rs_querystring (bind_header kw s) = rs_querystring s /\
  (forall n, n <> "header" ->
             get_child n (rs_children (bind_header kw s)) = get_child n (rs_children s)) /\
  (rs_header (bind_header kw s) = AttrDeferred ->
   forall h, kw_header kw = Some h ->
             get_child "header" (rs_children (bind_header kw s))
             = Some (set_name "header" h)).
Proof.
  unfold bind_header.
  destruct (rs_header s) eqn:Eh; [destruct (kw_header kw) as [h0|] eqn:Ek|]; simpl.
  - repeat split; auto.
    + intros n Hn. apply get_child_set_other. assumption.
    + intros _ h Hh. inversion Hh; subst. apply get_child_set_same.
  - repeat split; auto; discriminate.
  - repeat split; auto. intros H. rewrite Eh in H. discriminate.
Qed.

Lemma bind_querystring_facts (kw : kwargs) (s : RequestSchemaState) :
  rs_header (bind_querystring kw s) = rs_header s /\
  rs_path (bind_querystring kw s) = rs_path s /\
  (forall n, n <> "querystring" ->
             get_child n (rs_children (bind_querystring kw s))
             = get_child n (rs_children s)) /\
  (rs_querystring (bind_querystring kw s) = AttrDeferred ->
   forall q, kw_querystring kw = Some q ->
             get_child "querystring" (rs_children (bind_querystring kw s))
             = Some (set_name "querystring" q)).
Proof.
  unfold bind_querystring.
  destruct (rs_querystring s) eqn:Eh; [destruct (kw_querystring kw) as [h0|] eqn:Ek|];
    simpl.
  - repeat split; auto.
    + intros n Hn. apply get_child_set_other. assumption.
    + intros _ h Hh. inversion Hh; subst. apply get_child_set_same.
  - repeat split; auto; discriminate.
  - repeat split; auto. intros H. rewrite Eh in H. discriminate.
Qed.

Lemma bind_path_facts (kw : kwargs) (s sp : RequestSchemaState) :
  bind_path kw s = Ok sp ->
  rs_header sp = rs_header s /\
  rs_querystring sp = rs_querystring s /\
  (forall n, n <> "path" -> get_child n (rs_children sp) = get_child n (rs_children s)) /\
  (rs_path sp <> PathNone ->
   exists r, build_path kw = Ok r /\
             forall v, r = Some v ->
                       get_child "path" (rs_children sp) = Some (set_name "path" v)).
Proof.
  unfold bind_path.
  destruct (rs_path s) eqn:Ep;
    [destruct (build_path kw) as [[v|]|e] eqn:Eb
    |destruct (build_path kw) as [[v|]|e] eqn:Eb|];
    simpl; intros H; inversion H; subst sp; clear H; simpl;
    repeat split; auto;
    try (intros n Hn; apply get_child_set_other; assumption);
    try (intros _; eexists; split; [reflexivity|]; intros v0 Hv; inversion Hv; subst;
         apply get_child_set_same);
    try (intros _; eexists; split; [reflexivity|]; intros v0 Hv; discriminate Hv);
    try (intros Hc; contradiction).
Qed.

(** What a binding leaves is settled for the context it was bound with. *)
Lemma bind_settles (kw : kwargs) (self s1 : RequestSchemaState) :
  RequestSchema_bind kw self = Ok s1 -> settled kw s1.
Proof.
  unfold RequestSchema_bind. intros H.
  destruct (bind_path kw (bind_header kw self)) as [sp|e] eqn:Ep; simpl in H;
    [|discriminate].
  inversion H; subst s1; clear H.
  destruct (after_bind_attrs (bind_querystring kw sp)) as [Ah [Ap Aq]].
  destruct (after_bind_defaults (bind_querystring kw sp)) as [Dh Dq].
  destruct (bind_header_facts kw self) as [_ [_ [_ Hown]]].
  destruct (bind_path_facts kw _ _ Ep) as [Ph [_ [Pother Pown]]].
  destruct (bind_querystring_facts kw sp) as [Qh [Qp [Qother Qown]]].
  unfold settled. rewrite Ah, Ap, Aq.
  split; [|split; [|split; [|split; assumption]]].
  - intros Hh h Hkw. apply after_bind_keeps.
    rewrite Qother by discriminate. rewrite Pother by discriminate.
    apply Hown; [|assumption]. rewrite <- Ph, <- Qh. assumption.
  - intros Hp. rewrite Qp in Hp. destruct (Pown Hp) as [r [Hr Hv]].
    exists r. split; [assumption|]. intros v Ev. apply after_bind_keeps.
    rewrite Qother by discriminate. apply Hv. assumption.
  - intros Hq q Hkw. apply after_bind_keeps. apply Qown; assumption.
Qed.

(** Binding a settled schema with the same context leaves its children as
    they are. *)
Lemma settled_bind (kw : kwargs) (s : RequestSchemaState) :
  settled kw s ->
  exists s2, RequestSchema_bind kw s = Ok s2 /\ rs_children s2 = rs_children s.
Proof.
  intros [Sh [Sp [Sq [Dh Dq]]]]. unfold RequestSchema_bind.
  assert (Hh : rs_children (bind_header kw s) = rs_children s /\
               rs_path (bind_header kw s) = rs_path s /\
               rs_querystring (bind_header kw s) = rs_querystring s).
  { unfold bind_header. destruct (rs_header s) eqn:E; [|auto].
    destruct (kw_header kw) as [h|] eqn:Ek; simpl; [|auto].
    rewrite set_child_fixed; auto. }
  destruct Hh as [Hc1 [Hp1 Hq1]].
  assert (Hp : exists sp, bind_path kw (bind_header kw s) = Ok sp /\
                          rs_children sp = rs_children s /\
                          rs_querystring sp = rs_querystring s).
  { unfold bind_path. rewrite Hp1.
    destruct (rs_path s) eqn:E.
    - destruct Sp as [r [Hr Hv]]; [discriminate|]. rewrite Hr. simpl.
      destruct r as [v|]; eexists; (split; [reflexivity|]); simpl; rewrite ?Hc1; auto.
      rewrite set_child_fixed; auto.
    - destruct Sp as [r [Hr Hv]]; [discriminate|]. rewrite Hr. simpl.
      destruct r as [v|]; eexists; (split; [reflexivity|]); simpl; rewrite ?Hc1; auto.
      rewrite set_child_fixed; auto.
    - eexists; split; [reflexivity|]. auto. }
  destruct Hp as [sp [Hb [Hc2 Hq2]]]. rewrite Hb. simpl.
  assert (Hq : rs_children (bind_querystring kw sp) = rs_children s).
  { unfold bind_querystring. rewrite Hq2. destruct (rs_querystring s) eqn:E; [|auto].
    destruct (kw_querystring kw) as [q|] eqn:Ek; simpl; [|auto].
    rewrite Hc2. rewrite set_child_fixed; auto. }
  eexists. split; [reflexivity|].
  rewrite after_bind_fixed; rewrite ?Hq; auto.
Qed.

(** C3: binding is idempotent.  Binding a request schema and binding the
    result again with the same context gives a schema with the same
    children, so the same path schema, which returns the same result on
    every input; and two bindings of one schema with one context are
    equal. *)
Theorem bind_idempotent (kw : kwargs) (self s1 : RequestSchemaState) :
  RequestSchema_bind kw self = Ok s1 ->
  exists s2,
    RequestSchema_bind kw s1 = Ok s2 /\
    rs_children s2 = rs_children s1 /\
    path_schema_of s2 = path_schema_of s1 /\
    (forall p1 p2 cstruct,
        path_schema_of s1 = Some p1 -> path_schema_of s2 = Some p2 ->
        deserialize p1 cstruct = deserialize p2 cstruct) /\
    (forall s1', RequestSchema_bind kw self = Ok s1' -> s1' = s1).
Proof.
  intros H. destruct (settled_bind kw s1 (bind_settles _ _ _ H)) as [s2 [H2 Hc]].
  exists s2. split; [assumption|]. split; [assumption|].
  unfold path_schema_of. rewrite Hc. split; [reflexivity|]. split.
  - intros p1 p2 c E1 E2. rewrite E1 in E2. inversion E2. reflexivity.
  - intros s1' H'. rewrite H in H'. inversion H'. reflexivity.
Qed.

(** ** Path schemas *)

Lemma build_nodes_fold (id_generators : option dict) (r : string) (rids : list string) :
  forall path_schema,
    build_nodes id_generators (Some r) rids path_schema =
    Ok (fold_left
          (fun schema rid =>
             setitem schema (field_name r rid) (placeholder_node id_generators rid))
          rids path_schema).
Proof.
  induction rids as [|rid rids IH]; intros path_schema; simpl; [reflexivity|].
  rewrite IH. reflexivity.
Qed.

Lemma fold_setitem_children (id_generators : option dict) (r : string) (rids : list string) :
  forall name t cs v m d,
    fold_left
      (fun schema rid =>
         setitem schema (field_name r rid) (placeholder_node id_generators rid))
      rids (Node name t cs v m d) =
    Node name t
      (fold_left
         (fun cs rid => set_child (field_name r rid) (placeholder_node id_generators rid) cs)
         rids cs) v m d.
Proof.
  induction rids as [|rid rids IH]; intros name t cs v m d; simpl; [reflexivity|].
  rewrite IH. reflexivity.
Qed.

Lemma fold_set_child_other (id_generators : option dict) (r : string) (rids : list string) :
  forall cs name,
    ~ In name (map (field_name r) rids) ->
    get_child name
      (fold_left
         (fun cs rid => set_child (field_name r rid) (placeholder_node id_generators rid) cs)
         rids cs) = get_child name cs.
Proof.
  plain_data.
  induction rids as [|rid rids IH]; intros cs name Hn; simpl; [reflexivity|].
  simpl in Hn. rewrite IH by tauto.
  apply get_child_set_other. intros ->. tauto.
Qed.

(** Every placeholder has its field; the field holds the pattern resolved
    for the last placeholder that goes by that field name. *)
Lemma fold_set_child_lookup (id_generators : option dict) (r : string) (rids : list string) :
  forall cs rid,
    In rid rids ->
    exists rid',
      In rid' rids /\ field_name r rid' = field_name r rid /\
      get_child (field_name r rid)
        (fold_left
           (fun cs rid => set_child (field_name r rid) (placeholder_node id_generators rid) cs)
           rids cs)
      = Some (set_name (field_name r rid) (placeholder_node id_generators rid')).
Proof.
  induction rids as [|x rids IH]; intros cs rid Hin; [contradiction|].
  simpl.
  destruct (in_dec string_dec (field_name r rid) (map (field_name r) rids)) as [Hl|Hl].
  - apply in_map_iff in Hl. destruct Hl as [y [Hy Hyin]].
    destruct (IH (set_child (field_name r x) (placeholder_node id_generators x) cs) y Hyin)
      as [rid' [H1 [H2 H3]]].
    exists rid'. split; [right; assumption|]. split; [congruence|].
    rewrite <- Hy. exact H3.
  - destruct Hin as [->|Hin].
    + exists rid. split; [left; reflexivity|]. split; [reflexivity|].
      rewrite fold_set_child_other by assumption. apply get_child_set_same.
    + exfalso. apply Hl. apply in_map. assumption.
Qed.

Lemma field_name_own (r : string) : field_name r (r ++ "_id")%string = "id".
Proof. unfold field_name. rewrite String.eqb_refl. reflexivity. Qed.

(** When [{id}] itself is not among the placeholders, two placeholders go by
    the same field name only if they are the same. *)
Lemma field_name_inj (r x y : string) :
  x <> "id" -> y <> "id" -> field_name r x = field_name r y -> x = y.
Proof.
  unfold field_name. intros Hx Hy.
  destruct (x =? r ++ "_id")%string eqn:Ex; destruct (y =? r ++ "_id")%string eqn:Ey;
    intros H; try congruence.
  apply String.eqb_eq in Ex, Ey. congruence.
Qed.

(** The precedence of [resolve_regexp]. *)
Lemma resolve_explicit (gens : dict) (rid dotted : string) (obj : PyObject) (pattern : regex) :
  dict_get (rid ++ "_generator")%string gens = Some (VStr dotted) ->
  dotted <> "" ->
  locate dotted = Some obj ->
  regexp obj = Some pattern ->
  resolve_regexp (Some gens) rid = pattern.
Proof.
  intros Hg Hd Hl Hr. unfold resolve_regexp. rewrite Hg. simpl.
  apply String.eqb_neq in Hd. rewrite Hd. simpl. rewrite Hl, Hr. reflexivity.
Qed.

Lemma resolve_default (gens : dict) (rid dotted : string) (obj : PyObject) (pattern : regex) :
  dict_get (rid ++ "_generator")%string gens = None ->
  dict_get "id_generator" gens = Some (VStr dotted) ->
  locate dotted = Some obj ->
  regexp obj = Some pattern ->
  resolve_regexp (Some gens) rid = pattern.
Proof.
  intros Hg Hd Hl Hr. unfold resolve_regexp. rewrite Hg, Hd. simpl.
  rewrite Hl, Hr. reflexivity.
Qed.

(** A name that is chosen but resolves to nothing, or to an object without
    a pattern, gives the pattern of the storage generator. *)
Lemma resolve_unlocatable (gens : dict) (rid dotted : string) :
  dict_get (rid ++ "_generator")%string gens = Some (VStr dotted) ->
  dotted <> "" ->
  locate dotted = None \/ locate dotted = Some {| regexp := None |} ->
  resolve_regexp (Some gens) rid = StorageBase_id_generator_regexp.
Proof.
  intros Hg Hd Hl. unfold resolve_regexp. rewrite Hg. simpl.
  apply String.eqb_neq in Hd. rewrite Hd. simpl.
  destruct Hl as [Hl|Hl]; rewrite Hl; reflexivity.
Qed.

Lemma resolve_baseline (gens : dict) (rid : string) :
  dict_get (rid ++ "_generator")%string gens = None ->
  dict_get "id_generator" gens = None ->
  resolve_regexp (Some gens) rid = StorageBase_id_generator_regexp.
Proof.
  intros Hg Hd. unfold resolve_regexp. rewrite Hg, Hd. reflexivity.
Qed.

(** C1, as the code has it.  With a resource name, binding a non-empty
    template returns a mapping schema that has, for every placeholder, a
    required string field; the placeholder of the bound resource goes by the
    name [id].  The pattern of a field is resolved from the registry under
    the key made of the whole placeholder name followed by [_generator]
    (for the placeholder [bar_id] the key [bar_id_generator]): the generator
    named there wins when it is found and has a pattern; with no such key
    the generator named under [id_generator] is used; with neither key the
    pattern is that of the storage generator. *)
Theorem path_fields_and_precedence
    (kw : kwargs) (path r : string) (gens : dict) :
  kw_path kw = Some path ->
  path <> "" ->
  kw_resource_name kw = Some r ->
  kw_id_generators kw = Some gens ->
  let rids := placeholders (specialize (Some r) path) in
  exists cs,
    build_path kw = Ok (Some (Node "path" (TMapping UIgnore) cs None required VNull)) /\
    (forall rid, In rid rids ->
       exists rid',
         In rid' rids /\ field_name r rid' = field_name r rid /\
         (~ In "id" rids -> rid' = rid) /\
         get_child (field_name r rid) cs =
         Some (Node (field_name r rid) TString []
                 (Some (Regex (resolve_regexp (Some gens) rid'))) required VNull)) /\
    field_name r (r ++ "_id")%string = "id" /\
    (forall rid dotted obj pattern,
        dict_get (rid ++ "_generator")%string gens = Some (VStr dotted) ->
        dotted <> "" -> locate dotted = Some obj -> regexp obj = Some pattern ->
        resolve_regexp (Some gens) rid = pattern) /\
    (forall rid dotted obj pattern,
        dict_get (rid ++ "_generator")%string gens = None ->
        dict_get "id_generator" gens = Some (VStr dotted) ->
        locate dotted = Some obj -> regexp obj = Some pattern ->
        resolve_regexp (Some gens) rid = pattern) /\
    (forall rid,
        dict_get (rid ++ "_generator")%string gens = None ->
        dict_get "id_generator" gens = None ->
        resolve_regexp (Some gens) rid = StorageBase_id_generator_regexp).
Proof.
  intros Hp Hne Hr Hg rids.
  unfold build_path. rewrite Hp, Hr, Hg.
  destruct path as [|c path']; [contradiction|].
  cbn [truthy negb String.eqb]. fold rids.
  rewrite build_nodes_fold, fold_setitem_children. cbn [bind].
  eexists. split; [reflexivity|].
  split; [|split; [apply field_name_own|split; [|split]]].
  - intros rid Hin.
    destruct (fold_set_child_lookup (Some gens) r rids [] rid Hin) as [rid' [H1 [H2 H3]]].
    exists rid'. split; [assumption|]. split; [assumption|]. split.
    + intros Hid. apply (field_name_inj r); try assumption; intros ->; contradiction.
    + rewrite H3. reflexivity.
  - apply resolve_explicit.
  - apply resolve_default.
  - apply resolve_baseline.
Qed.

(** ** Record bodies *)

(** A node of a colander type that is given no value falls to its [missing]
    policy. *)
Lemma deserialize_null (c : SchemaNode) :
  node_typ c <> TFieldList ->
  deserialize c VNull =
  match node_missing c with
  | required => raise_invalid (node_name c) Required
  | drop => Ok VDrop
  | MissingValue v => Ok v
  end.
Proof.
  destruct c as [name t cs v m d]. simpl. intros Ht.
  destruct t; try reflexivity. contradiction.
Qed.

(** The loop of a mapping over an empty input: nothing raises past the
    loop, and a required child that is not skipped leaves an error. *)
Lemma Mapping_loop_empty (cs : list SchemaNode) :
  (forall c, In c cs -> node_typ c <> TFieldList) ->
  forall num error res,
  exists error' res',
    Mapping_loop deserialize cs num [] error res = Ok ([], error', res') /\
    (error <> [] -> error' <> []) /\
    ((exists c, In c cs /\ node_missing c = required /\ is_drop (node_default c) = false) ->
     error' <> []).
Proof.
  induction cs as [|c cs IH]; intros Ht num error res.
  - exists error, res. split; [reflexivity|]. split; [auto|].
    intros [c [[] _]].
  - assert (Ht' : forall c', In c' cs -> node_typ c' <> TFieldList)
      by (intros c' Hc'; apply Ht; right; assumption).
    cbn [Mapping_loop dict_get dict_remove is_drop is_null orb andb].
    rewrite (deserialize_null c) by (apply Ht; left; reflexivity).
    destruct (is_drop (node_default c)) eqn:Ed.
    + destruct (IH Ht' (S num) error res) as [e' [r' [H1 [H2 H3]]]].
      exists e', r'. split; [assumption|]. split; [assumption|].
      intros [c0 [[->|Hin] [Hm Hd]]]; [congruence|].
      apply H3. exists c0. auto.
    + destruct (node_missing c) eqn:Em.
      * unfold raise_invalid.
        destruct (IH Ht' (S num) (error ++ [(num, Invalid (node_name c) (Some Required) [])])
                    res) as [e' [r' [H1 [H2 H3]]]].
        exists e', r'. split; [assumption|].
        assert (Hne : error ++ [(num, Invalid (node_name c) (Some Required) [])] <> [])
          by (destruct error; discriminate).
        split; intros _; apply H2; assumption.
      * cbn [is_drop].
        destruct (IH Ht' (S num) error res) as [e' [r' [H1 [H2 H3]]]].
        exists e', r'. split; [assumption|]. split; [assumption|].
        intros [c0 [[->|Hin] [Hm Hd]]]; [congruence|].
        apply H3. exists c0. auto.
      * destruct (is_drop v);
          [destruct (IH Ht' (S num) error res) as [e' [r' [H1 [H2 H3]]]]
          |destruct (IH Ht' (S num) error (dict_set (node_name c) v res))
             as [e' [r' [H1 [H2 H3]]]]];
          exists e', r'; (split; [assumption|]); (split; [assumption|]);
          intros [c0 [[->|Hin] [Hm Hd]]]; try congruence;
          apply H3; exists c0; auto.
Qed.

Lemma dict_remove_absent (k : string) (d : dict) :
  dict_get k d = None -> dict_remove k d = d.
Proof.
  plain_data.
  induction d as [|[k0 v0] d IH]; simpl; [reflexivity|].
  destruct (k0 =? k); [discriminate|]. intros H. rewrite IH by assumption. reflexivity.
Qed.

(** The loop of a mapping does the same whatever position it starts from
    and whatever errors were collected before: the leftover and the result
    are the same, and so are the errors it adds, up to their positions. *)
Lemma Mapping_loop_num (callback : SchemaNode -> value -> result value)
    (cs : list SchemaNode) :
  forall n1 n2 remaining e1 e2 res,
    match Mapping_loop callback cs n1 remaining e1 res,
          Mapping_loop callback cs n2 remaining e2 res with
    | Ok (r1, err1, res1), Ok (r2, err2, res2) =>
        r1 = r2 /\ res1 = res2 /\
        exists x1 x2, err1 = e1 ++ x1 /\ err2 = e2 ++ x2 /\ map snd x1 = map snd x2
    | Raise a, Raise b => a = b
    | _, _ => False
    end.
Proof.
  plain_data.
  induction cs as [|c cs IH]; intros n1 n2 remaining e1 e2 res; simpl.
  - split; [reflexivity|]. split; [reflexivity|].
    exists [], []. rewrite !app_nil_r. auto.
  - destruct (is_drop _ || _); [apply IH|].
    destruct (callback c _) as [a|[e| | |]]; try reflexivity.
    + destruct (is_drop a); apply IH.
    + specialize (IH (S n1) (S n2) (dict_remove (node_name c) remaining)
                    (e1 ++ [(n1, e)]) (e2 ++ [(n2, e)]) res).
      destruct (Mapping_loop callback cs (S n1) _ _ _) as [[[r1 err1] res1]|a1];
        destruct (Mapping_loop callback cs (S n2) _ _ _) as [[[r2 err2] res2]|a2];
        try assumption.
      destruct IH as [H1 [H2 [x1 [x2 [Hx1 [Hx2 Hx]]]]]].
      split; [assumption|]. split; [assumption|].
      exists ((n1, e) :: x1), ((n2, e) :: x2).
      rewrite Hx1, Hx2, <- !app_assoc. simpl. rewrite Hx. auto.
Qed.

(** In a mapping that raises on unknown keys, a first child that may be
    dropped and has no value in the input changes nothing for the caller:
    the input validates exactly when it does without that child, with the
    same result. *)
Lemma closed_mapping_dropped_child (dn : SchemaNode) (tail : list SchemaNode) (d : dict) :
  node_typ dn <> TFieldList ->
  node_missing dn = drop ->
  dict_get (node_name dn) d = None ->
  forall r,
    deserialize (Node "" (TMapping URaise) (dn :: tail) None required VNull) (VDict d) = Ok r
    <-> deserialize (Node "" (TMapping URaise) tail None required VNull) (VDict d) = Ok r.
Proof.
  plain_data.
  intros Ht Hm Hd r. rewrite !deserialize_mapping. unfold Mapping_impl.
  assert (Hstep : Mapping_loop deserialize (dn :: tail) 0 d [] []
                  = Mapping_loop deserialize tail 1 d [] []).
  { cbn [Mapping_loop]. rewrite Hd. cbn [is_drop is_null orb andb].
    rewrite (dict_remove_absent _ _ Hd).
    destruct (is_drop (node_default dn)); [reflexivity|].
    rewrite (deserialize_null dn Ht), Hm. reflexivity. }
  rewrite Hstep.
  pose proof (Mapping_loop_num deserialize tail 1 0 d [] [] []) as H.
  destruct (Mapping_loop deserialize tail 1 d [] []) as [[[r1 err1] res1]|a1];
    destruct (Mapping_loop deserialize tail 0 d [] []) as [[[r2 err2] res2]|a2];
    try contradiction.
  - destruct H as [-> [-> [x1 [x2 [-> [-> Hx]]]]]]. cbn [bind app].
    destruct r2; [|tauto].
    destruct x1, x2; try discriminate Hx; cbn [finish]; [tauto|].
    split; discriminate.
  - subst a2. tauto.
Qed.

(** A first child that is required and has no value in the input makes the
    mapping fail; the [Invalid] raised is the one about unrecognized keys,
    or it holds [Required] on that child at position 0. *)
Lemma closed_mapping_required_child (dn : SchemaNode) (tail : list SchemaNode) (d : dict) :
  node_typ dn <> TFieldList ->
  node_missing dn = required ->
  is_drop (node_default dn) = false ->
  dict_get (node_name dn) d = None ->
  match deserialize (Node "" (TMapping URaise) (dn :: tail) None required VNull) (VDict d) with
  | Ok _ => False
  | Raise (EInvalid x) =>
      (exists rem, rem <> [] /\ x = Invalid "" (Some (UnrecognizedKeys rem)) []) \/
      (exists rest,
          x = Invalid "" None ((0%nat, Invalid (node_name dn) (Some Required) []) :: rest))
  | Raise _ => True
  end.
Proof.
  intros Ht Hm Hdf Hd. rewrite deserialize_mapping. unfold Mapping_impl.
  assert (Hstep : Mapping_loop deserialize (dn :: tail) 0 d [] []
                  = Mapping_loop deserialize tail 1 d
                      [(0%nat, Invalid (node_name dn) (Some Required) [])] []).
  { cbn [Mapping_loop]. rewrite Hd. cbn [is_drop is_null orb andb]. rewrite Hdf.
    rewrite (dict_remove_absent _ _ Hd).
    rewrite (deserialize_null dn Ht), Hm. reflexivity. }
  rewrite Hstep.
  destruct (Mapping_loop deserialize tail 1 d _ []) as [[[rem err] res]|a] eqn:E;
    cbn [bind].
  - apply Mapping_loop_error_grows in E. destruct E as [extra ->].
    destruct rem as [|kv rem].
    + cbn [app finish]. right. exists extra. reflexivity.
    + unfold raise_invalid. left. eexists. split; [|reflexivity]. discriminate.
  - destruct a as [x| | |]; try exact I.
    exfalso. revert E. clear. revert d.
    generalize 1%nat, [(0%nat, Invalid (node_name dn) (Some Required) [])], (@nil (string * value)).
    induction tail as [|c cs IH]; intros num error res d H; simpl in H; [discriminate|].
    destruct (is_drop _ || _); [eapply IH; eassumption|].
    destruct (deserialize c _) as [a|[e| | |]]; try discriminate.
    + destruct (is_drop a); eapply IH; eassumption.
    + eapply IH; eassumption.
Qed.

(** What [RecordSchema().bind] leaves: the data schema the deferred
    returned, if any, then the permissions schema, if one was given. *)
Lemma RecordSchema_bind_children (data permissions : option SchemaNode) :
  RecordSchema_bind data permissions =
  data' <- RecordSchema_data data ;;
  Ok (Node "" (TMapping URaise)
        (match data' with Some v => [set_name "data" v] | None => [] end ++
         match permissions with Some p => [set_name "permissions" p] | None => [] end)
        None required VNull).
Proof.
  unfold RecordSchema_bind.
  destruct (RecordSchema_data data) as [[v|]|e]; cbn [bind]; [| |reflexivity];
    destruct permissions as [p|]; cbn [setitem set_child app]; try reflexivity.
  rewrite node_name_set_name. reflexivity.
Qed.

(** C4, as the code has it.  When the data schema accepts the empty record
    its [missing] becomes [drop]: for a body without [data] the data node
    then gives no entry, no default and no error, so the body validates
    exactly when it validates against the record schema bound without a
    data schema, with the same result; with no permissions schema bound
    the empty body validates and the result is the empty object.  When the
    data schema rejects the empty record it is kept as supplied: if it is
    required (and its [default] is not [drop]), a body without [data] never
    validates, and the [Invalid] raised is the one about unrecognized keys
    or holds [Required] on the [data] node at position 0, with no field
    inside the data schema named (with no permissions schema bound and the
    empty body, that is the whole error); if it may be dropped, a body
    without [data] is treated as in the first case.  A data schema with a
    required field does reject the empty record. *)
Theorem record_body_without_data
    (name : string) (u : unknown_policy) (cs : list SchemaNode)
    (val : option validator) (m : missing_policy) (df : value)
    (permissions : option SchemaNode) :
  let data := Node name (TMapping u) cs val m df in
  exists bare,
    RecordSchema_bind None permissions = Ok bare /\
    (forall v, deserialize data (VDict []) = Ok v ->
       exists schema,
         RecordSchema_bind (Some data) permissions = Ok schema /\
         get_child "data" (node_children schema)
         = Some (Node "data" (TMapping u) cs val drop (VDict [])) /\
         (permissions = None -> deserialize schema (VDict []) = Ok (VDict [])) /\
         (forall d, dict_get "data" d = None ->
            forall r, deserialize schema (VDict d) = Ok r
                      <-> deserialize bare (VDict d) = Ok r)) /\
    (forall e, deserialize data (VDict []) = Raise (EInvalid e) ->
       exists schema,
         RecordSchema_bind (Some data) permissions = Ok schema /\
         get_child "data" (node_children schema)
         = Some (Node "data" (TMapping u) cs val m df) /\
         (m = required -> is_drop df = false ->
          (permissions = None ->
           deserialize schema (VDict [])
           = Raise (EInvalid (Invalid "" None [(0, Invalid "data" (Some Required) [])]))) /\
          (forall d, dict_get "data" d = None ->
             match deserialize schema (VDict d) with
             | Ok _ => False
             | Raise (EInvalid x) =>
                 (exists rem, rem <> [] /\
                              x = Invalid "" (Some (UnrecognizedKeys rem)) []) \/
                 (exists rest,
                     x = Invalid "" None ((0, Invalid "data" (Some Required) []) :: rest))
             | Raise _ => True
             end)) /\
         (m = drop ->
          (permissions = None -> deserialize schema (VDict []) = Ok (VDict [])) /\
          (forall d, dict_get "data" d = None ->
             forall r, deserialize schema (VDict d) = Ok r
                       <-> deserialize bare (VDict d) = Ok r))) /\
    ((forall c, In c cs -> node_typ c <> TFieldList) ->
     (exists c, In c cs /\ node_missing c = required /\ is_drop (node_default c) = false) ->
     exists e, deserialize data (VDict []) = Raise (EInvalid e)).
Proof.
  intros data.
  exists (Node "" (TMapping URaise)
            match permissions with Some p => [set_name "permissions" p] | None => [] end
            None required VNull).
  split; [rewrite RecordSchema_bind_children; reflexivity|].
  split; [|split].
  - intros v Hv. rewrite RecordSchema_bind_children.
    unfold RecordSchema_data. rewrite Hv. cbn [bind app].
    eexists. split; [reflexivity|]. split; [reflexivity|]. split.
    + intros ->. reflexivity.
    + intros d Hd r. apply closed_mapping_dropped_child;
        [discriminate|reflexivity|exact Hd].
  - intros e He. rewrite RecordSchema_bind_children.
    unfold RecordSchema_data. rewrite He. cbn [bind app].
    eexists. split; [reflexivity|]. split; [reflexivity|]. split.
    + intros Hm Hdf. split.
      * intros ->. cbn. rewrite Hdf. unfold data. rewrite Hm. reflexivity.
      * intros d Hd.
        apply (closed_mapping_required_child (set_name "data" data));
          [discriminate|exact Hm|exact Hdf|exact Hd].
    + intros Hm. split.
      * intros ->. cbn. unfold data. rewrite Hm. destruct (is_drop df); reflexivity.
      * intros d Hd r.
        apply (closed_mapping_dropped_child (set_name "data" data));
          [discriminate|exact Hm|exact Hd].
  - intros Ht Hreq. unfold data. cbn [deserialize is_null Mapping_impl].
    destruct (Mapping_loop_empty cs Ht 0 [] []) as [e' [r' [H1 [_ H3]]]].
    rewrite H1. specialize (H3 Hreq). cbn [bind].
    destruct e' as [|x e']; [contradiction|].
    destruct u; eexists; reflexivity.
Qed.

(** ** Permissions *)

Lemma check_perms_raises (name : string) (known_perms keys : list string) :
  (exists k, In k keys /\ ~ In k known_perms) ->
  exists k0,
    find (fun k => negb (mem k known_perms)) keys = Some k0 /\
    In k0 keys /\ ~ In k0 known_perms /\
    check_perms name known_perms keys
    = Raise (EInvalid (Invalid name (Some (NotOneOf (VStr k0) known_perms)) [])).
Proof.
  induction keys as [|k keys IH]; intros [k1 [Hin Hn]]; [contradiction|].
  simpl. destruct (mem k known_perms) eqn:E; simpl.
  - apply mem_In in E. destruct Hin as [->|Hin]; [contradiction|].
    destruct IH as [k0 [H1 [H2 [H3 H4]]]]; [exists k1; auto|].
    exists k0. auto.
  - exists k. repeat split; auto.
    intros Hc. apply mem_In in Hc. congruence.
Qed.

Lemma check_perms_passes (name : string) (known_perms keys : list string) :
  (forall k, In k keys -> In k known_perms) ->
  check_perms name known_perms keys = Ok tt.
Proof.
  induction keys as [|k keys IH]; intros H; simpl; [reflexivity|].
  assert (E : mem k known_perms = true) by (apply mem_In; apply H; left; reflexivity).
  rewrite E. apply IH. intros k' Hk'. apply H. right. assumption.
Qed.

Lemma set_child_In (n : string) (v c : SchemaNode) (cs : list SchemaNode) :
  In c (set_child n v cs) -> c = set_name n v \/ In c cs.
Proof.
  plain_data.
  induction cs as [|c0 cs IH]; simpl.
  - intros [<-|[]]. left; reflexivity.
  - destruct (n =? node_name c0); simpl.
    + intros [<-|H]; auto.
    + intros [<-|H]; auto. apply IH in H. tauto.
Qed.

Lemma set_child_names (x n : string) (v : SchemaNode) (cs : list SchemaNode) :
  In x (map node_name (set_child n v cs)) <-> x = n \/ In x (map node_name cs).
Proof.
  plain_data.
  induction cs as [|c0 cs IH]; simpl.
  - rewrite node_name_set_name. intuition.
  - destruct (n =? node_name c0) eqn:E; simpl.
    + apply String.eqb_eq in E. rewrite node_name_set_name. rewrite <- E. intuition.
    + rewrite IH. intuition.
Qed.

Lemma set_child_NoDup (n : string) (v : SchemaNode) (cs : list SchemaNode) :
  NoDup (map node_name cs) -> NoDup (map node_name (set_child n v cs)).
Proof.
  induction cs as [|c0 cs IH]; simpl; intros H.
  - rewrite node_name_set_name. constructor; [intros [] | constructor].
  - inversion H as [|? ? Hn Hd]; subst.
    destruct (n =? node_name c0) eqn:E; simpl.
    + apply String.eqb_eq in E. rewrite node_name_set_name. rewrite E.
      constructor; assumption.
    + constructor; [|apply IH; assumption].
      intros Hin. apply set_child_names in Hin. destruct Hin as [Hin|Hin]; [|contradiction].
      rewrite Hin, String.eqb_refl in E. discriminate.
Qed.

(** The children of a permissions schema: one sequence of strings for each
    known permission, under distinct names. *)
Lemma PermissionsSchema_children (known_perms : list string) :
  forall cs,
    (forall c, In c cs -> c = get_node_principals (node_name c)) ->
    NoDup (map node_name cs) ->
    let cs' := fold_left (fun cs perm => set_child perm (get_node_principals perm) cs)
                 known_perms cs in
    (forall c, In c cs' -> c = get_node_principals (node_name c)) /\
    NoDup (map node_name cs') /\
    (forall x, In x (map node_name cs') <-> In x (map node_name cs) \/ In x known_perms).
Proof.
  plain_data.
  induction known_perms as [|p ps IH]; intros cs H1 H2; simpl.
  - split; [assumption|]. split; [assumption|]. intuition.
  - destruct (IH (set_child p (get_node_principals p) cs)) as [A [B C]].
    + intros c Hc. apply set_child_In in Hc. destruct Hc as [->|Hc]; [reflexivity|auto].
    + apply set_child_NoDup. assumption.
    + split; [assumption|]. split; [assumption|].
      intros x. rewrite C, set_child_names. intuition.
Qed.

Lemma PermissionsSchema_node (name : string) (missing : missing_policy)
    (known_perms : list string) :
  PermissionsSchema name missing known_perms =
  Node name (PermissionsSchema_schema_type known_perms)
    (fold_left (fun cs perm => set_child perm (get_node_principals perm) cs) known_perms [])
    None missing VNull.
Proof.
  unfold PermissionsSchema.
  generalize (PermissionsSchema_schema_type known_perms) as t.
  generalize (@nil SchemaNode) as cs.
  induction known_perms as [|p ps IH]; intros cs t; simpl; [reflexivity|].
  apply IH.
Qed.

Lemma Sequence_loop_strings (subname : string) (l : list string) :
  Forall (fun s => s <> "") l ->
  forall num res,
    Sequence_loop deserialize (Node subname TString [] None required VNull)
      (map VStr l) num [] res
    = Ok ([], res ++ map VStr l).
Proof.
  induction 1 as [|s l Hs Hl IH]; intros num res; simpl.
  - rewrite app_nil_r. reflexivity.
  - unfold String_deserialize. simpl.
    apply String.eqb_neq in Hs. rewrite Hs. simpl.
    rewrite IH. rewrite <- app_assoc. reflexivity.
Qed.

Lemma principals_accepted (perm : string) (v : value) :
  principals v -> deserialize (get_node_principals perm) v = Ok v.
Proof.
  intros [l [-> Hl]]. unfold get_node_principals.
  cbn [deserialize is_null Sequence_impl].
  rewrite (Sequence_loop_strings "" l Hl). reflexivity.
Qed.

Lemma Mapping_loop_cons (callback : SchemaNode -> value -> result value)
    (c : SchemaNode) (cs : list SchemaNode) (num : nat) (remaining : dict)
    (error : list (nat * invalid)) (res : dict) :
  Mapping_loop callback (c :: cs) num remaining error res =
  let name := node_name c in
  let subval := match dict_get name remaining with
                | Some v => v
                | None => VNull
                end in
  let remaining' := dict_remove name remaining in
  if is_drop subval || (is_null subval && is_drop (node_default c))
  then Mapping_loop callback cs (S num) remaining' error res
  else
    match callback c subval with
    | Raise (EInvalid e) =>
        Mapping_loop callback cs (S num) remaining' (error ++ [(num, e)]) res
    | Raise e => Raise e
    | Ok sub_result =>
        if is_drop sub_result then Mapping_loop callback cs (S num) remaining' error res
        else Mapping_loop callback cs (S num) remaining' error (dict_set name sub_result res)
    end.
Proof. reflexivity. Qed.

Lemma dict_remove_In (k k0 : string) (v : value) (d : dict) :
  In (k, v) (dict_remove k0 d) -> In (k, v) d.
Proof.
  plain_data.
  induction d as [|[k1 v1] d IH]; simpl; [auto|].
  destruct (k1 =? k0); simpl; intuition.
Qed.

(** The loop of the mapping over children that are sequences of strings,
    on an input whose values all are: the children's keys are popped, the
    entries they held are copied to the result, and no error is raised. *)
Lemma Mapping_loop_principals (cs : list SchemaNode) :
  (forall c, In c cs -> c = get_node_principals (node_name c)) ->
  NoDup (map node_name cs) ->
  forall num remaining res,
    (forall k v, In (k, v) remaining -> principals v) ->
    exists remaining' res',
      Mapping_loop deserialize cs num remaining [] res = Ok (remaining', [], res') /\
      (forall x, In x (dict_keys remaining') <->
                 In x (dict_keys remaining) /\ ~ In x (map node_name cs)) /\
      (forall k, dict_get k res' =
                 if mem k (map node_name cs) then
                   match dict_get k remaining with
                   | Some v => Some v
                   | None => dict_get k res
                   end
                 else dict_get k res).
Proof.
  plain_data.
  induction cs as [|c cs IH]; intros Hc Hnd num remaining res Hv.
  - exists remaining, res. split; [reflexivity|]. split; [simpl; intuition|].
    intros k. reflexivity.
  - inversion Hnd as [|? ? Hn Hd]; subst.
    assert (Hc' : forall c', In c' cs -> c' = get_node_principals (node_name c'))
      by (intros c' H'; apply Hc; right; assumption).
    pose proof (Hc c (or_introl eq_refl)) as Ec.
    remember (node_name c) as n eqn:En. subst c. clear En.
    change (node_name (get_node_principals n)) with n in *.
    assert (Hv' : forall k v, In (k, v) (dict_remove n remaining) -> principals v)
      by (intros k v Hin; apply (Hv k v); eapply dict_remove_In; eassumption).
    rewrite Mapping_loop_cons. cbv zeta.
    change (node_name (get_node_principals n)) with n.
    change (node_default (get_node_principals n)) with VNull.
    cbn [is_drop]. rewrite andb_false_r, orb_false_r.
    assert (Hfinish :
              forall res1 rem' res',
                (forall k, dict_get k res1 =
                           if n =? k then
                             match dict_get k remaining with
                             | Some v => Some v
                             | None => dict_get k res
                             end
                           else dict_get k res) ->
                (forall x, In x (dict_keys rem') <->
                           In x (dict_keys (dict_remove n remaining)) /\
                           ~ In x (map node_name cs)) ->
                (forall k, dict_get k res' =
                           if mem k (map node_name cs) then
                             match dict_get k (dict_remove n remaining) with
                             | Some v => Some v
                             | None => dict_get k res1
                             end
                           else dict_get k res1) ->
                (forall x, In x (dict_keys rem') <->
                           In x (dict_keys remaining) /\
                           ~ In x (map node_name (get_node_principals n :: cs))) /\
                (forall k, dict_get k res' =
                           if mem k (map node_name (get_node_principals n :: cs)) then
                             match dict_get k remaining with
                             | Some v => Some v
                             | None => dict_get k res
                             end
                           else dict_get k res)).
    { intros res1 rem' res' Hres1 H2 H3. split.
      - intros x. rewrite H2, dict_keys_remove. simpl. intuition.
      - intros k. rewrite H3. rewrite dict_get_remove. rewrite Hres1.
        unfold mem. simpl. rewrite (String.eqb_sym k n).
        destruct (n =? k) eqn:E; simpl; [|reflexivity].
        apply String.eqb_eq in E. subst k.
        assert (Hm : existsb (String.eqb n) (map node_name cs) = false).
        { destruct (existsb (String.eqb n) (map node_name cs)) eqn:Em; [|reflexivity].
          exfalso. apply Hn. apply mem_In. exact Em. }
        rewrite Hm. reflexivity. }
    destruct (dict_get n remaining) as [v|] eqn:Eg.
    + assert (Hp : principals v)
        by (apply (Hv n); apply dict_get_Some_In; assumption).
      rewrite (principals_accepted n v Hp).
      assert (Hnd' : is_drop v = false) by (destruct Hp as [l [-> _]]; reflexivity).
      rewrite Hnd'.
      destruct (IH Hc' Hd (S num) (dict_remove n remaining) (dict_set n v res) Hv')
        as [rem' [res' [H1 [H2 H3]]]].
      exists rem', res'. split; [exact H1|].
      apply (Hfinish (dict_set n v res)); try assumption.
      intros k. rewrite dict_get_set. destruct (n =? k) eqn:E; [|reflexivity].
      apply String.eqb_eq in E. subst k. rewrite Eg. reflexivity.
    + change (deserialize (get_node_principals n) VNull) with (@Ok value VDrop).
      cbn [is_drop].
      destruct (IH Hc' Hd (S num) (dict_remove n remaining) res Hv')
        as [rem' [res' [H1 [H2 H3]]]].
      exists rem', res'. split; [exact H1|].
      apply (Hfinish res); try assumption.
      intros k. destruct (n =? k) eqn:E; [|reflexivity].
      apply String.eqb_eq in E. subst k. rewrite Eg. reflexivity.
Qed.

(** C5, as the code has it.  With a non-empty list of known permissions: a
    mapping with a key outside the list fails, and the error carries the
    first such key together with the whole list of known permissions; a
    mapping whose keys are all known and whose values are sequences of
    non-empty strings deserializes to the same entries. *)
Theorem known_permissions_checked
    (name : string) (missing : missing_policy) (known_perms : list string) (d : dict) :
  known_perms <> [] ->
  ((exists k, In k (dict_keys d) /\ ~ In k known_perms) ->
   exists k0,
     find (fun k => negb (mem k known_perms)) (dict_keys d) = Some k0 /\
     In k0 (dict_keys d) /\ ~ In k0 known_perms /\
     PermissionsSchema_deserialize name missing known_perms (VDict d)
     = Raise (EInvalid (Invalid name (Some (NotOneOf (VStr k0) known_perms)) []))) /\
  ((forall k v, In (k, v) d -> In k known_perms /\ principals v) ->
   exists out,
     PermissionsSchema_deserialize name missing known_perms (VDict d) = Ok (VDict out) /\
     forall k, dict_get k out = dict_get k d).
Proof.
  intros Hne. destruct known_perms as [|p ps] eqn:Ek; [contradiction|].
  rewrite <- Ek in *. clear Hne.
  assert (Hdes : PermissionsSchema_deserialize name missing known_perms (VDict d) =
                 _ <- check_perms name known_perms (dict_keys d) ;;
                 deserialize (PermissionsSchema name missing known_perms) (VDict d)).
  { unfold PermissionsSchema_deserialize. rewrite Ek. reflexivity. }
  rewrite Hdes. clear Hdes. split.
  - intros Hbad. destruct (check_perms_raises name known_perms _ Hbad)
      as [k0 [H1 [H2 [H3 H4]]]].
    exists k0. rewrite H4. auto.
  - intros Hgood.
    rewrite check_perms_passes.
    2:{ intros k Hk. unfold dict_keys in Hk. apply in_map_iff in Hk.
        destruct Hk as [[k' v] [<- Hin]]. apply (Hgood k' v Hin). }
    cbn [bind]. rewrite PermissionsSchema_node.
    assert (Ht : PermissionsSchema_schema_type known_perms = TMapping URaise)
      by (rewrite Ek; reflexivity).
    rewrite Ht. rewrite deserialize_mapping.
    destruct (PermissionsSchema_children known_perms [])
      as [A [B C]]; [intros c []| constructor |].
    set (cs := fold_left (fun cs perm => set_child perm (get_node_principals perm) cs)
                 known_perms []) in *.
    destruct (Mapping_loop_principals cs A B 0 d [])
      as [rem' [res' [H1 [H2 H3]]]].
    { intros k v Hin. apply (Hgood k v Hin). }
    unfold Mapping_impl. rewrite H1. cbn [bind].
    assert (Hrem : rem' = []).
    { destruct rem' as [|[k v] rem']; [reflexivity|]. exfalso.
      destruct (H2 k) as [Hk _]. destruct Hk as [Hin Hnot]; [left; reflexivity|].
      apply Hnot. apply C. right.
      unfold dict_keys in Hin. apply in_map_iff in Hin.
      destruct Hin as [[k' v'] [<- Hin]]. apply (Hgood k' v' Hin). }
    rewrite Hrem. cbn. exists res'. split; [reflexivity|].
    intros k. rewrite H3. destruct (mem k (map node_name cs)) eqn:Em.
    + destruct (dict_get k d); reflexivity.
    + simpl. symmetry. apply dict_get_None. intros Hin.
      assert (Hk : In k known_perms).
      { unfold dict_keys in Hin. apply in_map_iff in Hin.
        destruct Hin as [[k' v'] [<- Hin]]. apply (Hgood k' v' Hin). }
      assert (Hm : mem k (map node_name cs) = true)
        by (apply mem_In; apply C; right; assumption).
      congruence.
Qed.

(** ** Mappings: the leftover and the untouched keys *)

Lemma dict_remove_NoDup (k : string) (d : dict) :
  NoDup (dict_keys d) -> NoDup (dict_keys (dict_remove k d)).
Proof.
  plain_data.
  induction d as [|[k0 v0] d IH]; simpl; intros H; [constructor|].
  inversion H as [|? ? Hn Hd]; subst.
  destruct (k0 =? k); [apply IH; assumption|].
  simpl. constructor; [|apply IH; assumption].
  intros Hin. apply dict_keys_remove in Hin. tauto.
Qed.

(** What the loop leaves of the input, and what it leaves alone in the
    result. *)
Lemma Mapping_loop_leftover (callback : SchemaNode -> value -> result value)
    (cs : list SchemaNode) :
  forall num remaining error res remaining' error' res',
    Mapping_loop callback cs num remaining error res = Ok (remaining', error', res') ->
    (forall k, dict_get k remaining' =
               if mem k (map node_name cs) then None else dict_get k remaining) /\
    (NoDup (dict_keys remaining) -> NoDup (dict_keys remaining')) /\
    (forall k, ~ In k (map node_name cs) -> dict_get k res' = dict_get k res).
Proof.
  plain_data.
  induction cs as [|c cs IH];
    intros num remaining error res remaining' error' res' H.
  - simpl in H. inversion H; subst. repeat split; auto.
  - rewrite Mapping_loop_cons in H. cbv zeta in H.
    assert (Hstep : forall err1 res1,
               (forall k, k <> node_name c -> dict_get k res1 = dict_get k res) ->
               Mapping_loop callback cs (S num) (dict_remove (node_name c) remaining)
                 err1 res1 = Ok (remaining', error', res') ->
               (forall k, dict_get k remaining' =
                          if mem k (map node_name (c :: cs)) then None
                          else dict_get k remaining) /\
               (NoDup (dict_keys remaining) -> NoDup (dict_keys remaining')) /\
               (forall k, ~ In k (map node_name (c :: cs)) ->
                          dict_get k res' = dict_get k res)).
    { intros err1 res1 Hres1 Hl. apply IH in Hl. destruct Hl as [A [B C]].
      split; [|split].
      - intros k. rewrite A. rewrite dict_get_remove. unfold mem. simpl.
        rewrite (String.eqb_sym k). destruct (node_name c =? k); simpl;
          destruct (existsb (String.eqb k) (map node_name cs)); reflexivity.
      - intros Hnd. apply B. apply dict_remove_NoDup. assumption.
      - intros k Hk. simpl in Hk. rewrite C by tauto. apply Hres1.
        intros ->. tauto. }
    destruct (is_drop _ || _); [eapply Hstep; eauto|].
    destruct (callback c _) as [a|[e| | |]]; try discriminate.
    + destruct (is_drop a); [eapply Hstep; eauto|].
      eapply Hstep; [|eassumption].
      intros k Hk. rewrite dict_get_set.
      assert (E : (node_name c =? k) = false) by (apply String.eqb_neq; auto).
      rewrite E. reflexivity.
    + eapply Hstep; eauto.
Qed.

(** ** Resource schemas *)

(** X1: a record's fields that the resource schema does not declare.  With
    [preserve_unknown] left at its default or set to [True] they are in the
    output as they came; with any other value of the option they are left
    out. *)
Theorem resource_unknown_fields
    (cls : Options) (fields : list SchemaNode) (d o : dict) (k : string) :
  NoDup (dict_keys d) ->
  deserialize (ResourceSchema cls fields) (VDict d) = Ok (VDict o) ->
  ~ In k (map node_name fields) ->
  (preserve_unknown cls = None \/ preserve_unknown cls = Some (VBool true) ->
   dict_get k o = dict_get k d) /\
  ((exists v, preserve_unknown cls = Some v /\ v <> VBool true) ->
   dict_get k o = None).
Proof.
  intros Hnd H Hk. unfold ResourceSchema in H.
  assert (Ht : ResourceSchema_schema_type cls = TMapping UPreserve \/
               ResourceSchema_schema_type cls = TMapping UIgnore).
  { unfold ResourceSchema_schema_type.
    destruct (get_option_preserve_unknown cls) as [| | |[|]| | | |]; auto. }
  assert (Hres : forall u, ResourceSchema_schema_type cls = TMapping u ->
                 u <> URaise ->
                 dict_get k o = match u with
                                | UPreserve => dict_get k d
                                | _ => None
                                end).
  { intros u Hu Hur. rewrite Hu in H. rewrite deserialize_mapping in H.
    unfold Mapping_impl in H.
    destruct (Mapping_loop deserialize fields 0 d [] []) as [[[rem err] res]|e] eqn:E;
      simpl in H; [|discriminate].
    destruct (Mapping_loop_leftover _ _ _ _ _ _ _ _ _ E) as [A [B C]].
    assert (Hm : mem k (map node_name fields) = false).
    { destruct (mem k (map node_name fields)) eqn:Em; [|reflexivity].
      apply mem_In in Em. contradiction. }
    destruct u; [| contradiction |];
      destruct err; simpl in H; try discriminate; inversion H; subst o.
    - rewrite (C k Hk). reflexivity.
    - rewrite dict_get_update by (apply B; assumption).
      rewrite A, Hm, (C k Hk). simpl. destruct (dict_get k d); reflexivity. }
  split.
  - intros Hp. apply (Hres UPreserve); [|discriminate].
    unfold ResourceSchema_schema_type, get_option_preserve_unknown.
    destruct Hp as [-> | ->]; reflexivity.
  - intros [v [Hv Hne]]. apply (Hres UIgnore); [|discriminate].
    unfold ResourceSchema_schema_type, get_option_preserve_unknown. rewrite Hv.
    destruct v as [| | |[|]| | | |]; try reflexivity. contradiction.
Qed.

(** A class that defines no [readonly_fields] has no read-only field. *)
Lemma is_readonly_default (cls : Options) (field : string) :
  readonly_fields cls = None -> is_readonly cls field = false.
Proof.
  plain_data.
  intros H. unfold is_readonly, get_option_readonly_fields. rewrite H. reflexivity.
Qed.

(** ** Permissions without a closed set *)

Lemma sequence_of_strings_accepted (name : string) (m : missing_policy) (v : value) :
  principals v ->
  deserialize (Node name TSequence [Node "" TString [] None required VNull] None m VNull) v
  = Ok v.
Proof.
  intros [l [-> Hl]].
  cbn [deserialize is_null Sequence_impl].
  rewrite (Sequence_loop_strings "" l Hl). reflexivity.
Qed.

Lemma dict_set_fresh (k : string) (v : value) (d : dict) :
  ~ In k (dict_keys d) -> dict_set k v d = d ++ [(k, v)].
Proof.
  plain_data.
  induction d as [|[k0 v0] d IH]; simpl; intros H; [reflexivity|].
  destruct (k0 =? k) eqn:E.
  - apply String.eqb_eq in E. exfalso. apply H. left. assumption.
  - rewrite IH by tauto. reflexivity.
Qed.

Lemma deserialize_open_perms_cons (perm : string) (v : value) (items permissions : dict) :
  deserialize_open_perms ((perm, v) :: items) permissions =
  (r <- deserialize
          (Node "" TSequence [Node "" TString [] None required VNull] None required VNull)
          v ;;
   deserialize_open_perms items (dict_set perm r permissions)).
Proof. reflexivity. Qed.

Lemma deserialize_open_perms_principals (items : dict) :
  forall permissions,
    (forall k v, In (k, v) items -> principals v) ->
    NoDup (dict_keys (permissions ++ items)) ->
    deserialize_open_perms items permissions = Ok (permissions ++ items).
Proof.
  plain_data.
  induction items as [|[k v] items IH]; intros permissions Hv Hnd.
  - simpl. rewrite app_nil_r. reflexivity.
  - rewrite deserialize_open_perms_cons.
    rewrite (sequence_of_strings_accepted "" required v)
      by (apply (Hv k); left; reflexivity).
    cbn [bind].
    assert (Hk : ~ In k (dict_keys permissions)).
    { unfold dict_keys in *. rewrite map_app in Hnd. simpl in Hnd.
      apply NoDup_remove_2 in Hnd. intros Hin. apply Hnd. apply in_or_app. tauto. }
    rewrite dict_set_fresh by assumption.
    rewrite IH.
    + rewrite <- app_assoc. reflexivity.
    + intros k' v' Hin. apply (Hv k'). right. assumption.
    + rewrite <- app_assoc. exact Hnd.
Qed.

(** X2: with no closed set of permissions, a mapping whose values are
    sequences of non-empty strings is returned as it is, whatever its
    keys. *)
Theorem open_permissions_unchanged
    (name : string) (missing : missing_policy) (d : dict) :
  NoDup (dict_keys d) ->
  (forall k v, In (k, v) d -> principals v) ->
  PermissionsSchema_deserialize name missing [] (VDict d) = Ok (VDict d).
Proof.
  intros Hnd Hv. unfold PermissionsSchema_deserialize.
  rewrite (deserialize_open_perms_principals d [] Hv Hnd). reflexivity.
Qed.

Lemma deserialize_open_perms_app (pre : dict) :
  forall rest permissions,
    (forall k v, In (k, v) pre -> principals v) ->
    exists permissions',
      deserialize_open_perms (pre ++ rest) permissions
      = deserialize_open_perms rest permissions'.
Proof.
  induction pre as [|[k v] pre IH]; intros rest permissions Hv.
  - exists permissions. reflexivity.
  - rewrite <- app_comm_cons, deserialize_open_perms_cons.
    rewrite (sequence_of_strings_accepted "" required v)
      by (apply (Hv k); left; reflexivity).
    cbn [bind]. apply IH. intros k' v' Hin. apply (Hv k'). right. assumption.
Qed.

(** X3: with no closed set of permissions, the first value that is not a
    sequence fails the whole mapping; the error is raised on the unnamed
    sequence schema, so it does not say which permission was at fault. *)
Theorem open_permissions_not_a_sequence
    (name : string) (missing : missing_policy) (pre post : dict) (k : string) (v : value) :
  (forall k' v', In (k', v') pre -> principals v') ->
  is_list v = false ->
  PermissionsSchema_deserialize name missing [] (VDict (pre ++ (k, v) :: post))
  = Raise (EInvalid (Invalid "" (Some (if is_null v then Required else NotIterable v)) [])).
Proof.
  intros Hpre Hv. unfold PermissionsSchema_deserialize.
  destruct (deserialize_open_perms_app pre ((k, v) :: post) [] Hpre) as [p' ->].
  destruct v; try discriminate Hv; reflexivity.
Qed.

(** X4: permissions that are not a mapping, with or without a closed set:
    no value at all goes to the [missing] policy of the schema, anything
    else is refused as not being a mapping. *)
Theorem permissions_not_a_mapping
    (name : string) (missing : missing_policy) (known_perms : list string) (c : value) :
  (forall d, c <> VDict d) ->
  PermissionsSchema_deserialize name missing known_perms c =
  if is_null c then
    match missing with
    | required => Raise (EInvalid (Invalid name (Some Required) []))
    | drop => Ok VDrop
    | MissingValue v => Ok v
    end
  else Raise (EInvalid (Invalid name (Some (NotAMapping c)) [])).
Proof.
  intros Hc.
  assert (H : PermissionsSchema_deserialize name missing known_perms c
              = deserialize (PermissionsSchema name missing known_perms) c).
  { unfold PermissionsSchema_deserialize. destruct c; try reflexivity.
    exfalso. eapply Hc. reflexivity. }
  rewrite H, PermissionsSchema_node.
  unfold PermissionsSchema_schema_type.
  destruct known_perms; destruct c; try reflexivity;
    exfalso; eapply Hc; reflexivity.
Qed.

(** ** Querystrings: scalar filters, keys, and refusals *)

Lemma QuerySchema_deserialize_inv (fields : list SchemaNode) (d out : dict) :
  QuerySchema_deserialize (QuerySchema fields) (VDict d) = Ok (VDict out) ->
  exists sv values,
    deserialize (QuerySchema fields) (VDict d) = Ok (VDict sv) /\
    deserialize_filters d [] = Ok values /\
    out = dict_update values sv.
Proof.
  unfold QuerySchema_deserialize.
  destruct (deserialize (QuerySchema fields) (VDict d)) as [schema_values|e] eqn:E;
    cbn [bind]; [|discriminate].
  destruct (is_drop schema_values) eqn:Ed.
  { destruct schema_values; simpl in Ed; discriminate. }
  destruct (deserialize_filters d []) as [values|e] eqn:Ef; cbn [bind]; [|discriminate].
  destruct schema_values as [| | | | | | |sv]; try discriminate.
  intros H. inversion H. exists sv, values. auto.
Qed.

(** X5: a raw key that is neither a list filter nor a declared field is in
    the output with the native value of what it held. *)
Theorem scalar_filter_native
    (fields : list SchemaNode) (d out : dict) (k : string) (v : value) :
  NoDup (dict_keys d) ->
  In (k, v) d ->
  is_list_filter k = false ->
  ~ In k (map node_name fields) ->
  QuerySchema_deserialize (QuerySchema fields) (VDict d) = Ok (VDict out) ->
  dict_get k out = Some (native_value v).
Proof.
  intros Hnd Hin Hk Hdecl H.
  destruct (QuerySchema_deserialize_inv _ _ _ H) as [sv [values [Hsv [Hf ->]]]].
  destruct (QuerySchema_declared _ _ _ Hsv) as [Hnd' Hkeys].
  rewrite dict_get_update by assumption.
  assert (Hnone : dict_get k sv = None).
  { apply dict_get_None. intros Hc. apply Hdecl. apply Hkeys. assumption. }
  rewrite Hnone, (filters_lookup d [] values k v Hf Hnd Hin), Hk. reflexivity.
Qed.

Lemma dict_update_keys (k : string) (d other : dict) :
  In k (dict_keys (dict_update d other)) <-> In k (dict_keys d) \/ In k (dict_keys other).
Proof.
  plain_data.
  unfold dict_update. revert d.
  induction other as [|[k0 v0] o IH]; intros d; simpl.
  - tauto.
  - rewrite IH, dict_keys_set. split; intros H; decompose [or] H; subst; auto.
Qed.

Lemma filters_keys (items : dict) :
  forall values0 values,
    deserialize_filters items values0 = Ok values ->
    (forall k, In k (dict_keys values) ->
               In k (dict_keys values0) \/ In k (dict_keys items)) /\
    (forall k, In k (dict_keys values0) -> In k (dict_keys values)) /\
    (forall k, In k (dict_keys items) -> is_list_filter k = false ->
               In k (dict_keys values)).
Proof.
  induction items as [|[k0 v0] items IH]; simpl; intros values0 values H.
  - inversion H; subst. repeat split; auto. intros k [].
  - assert (Hset : forall x,
               deserialize_filters items (dict_set k0 x values0) = Ok values ->
               (forall k, In k (dict_keys values) ->
                          In k (dict_keys values0) \/ k0 = k \/ In k (dict_keys items)) /\
               (forall k, In k (dict_keys values0) -> In k (dict_keys values)) /\
               (forall k, k0 = k \/ In k (dict_keys items) -> is_list_filter k = false ->
                          In k (dict_keys values))).
    { intros x Hx. apply IH in Hx. destruct Hx as [A [B C]]. split; [|split].
      - intros k Hk. apply A in Hk. destruct Hk as [Hk|Hk]; [|auto].
        apply dict_keys_set in Hk. destruct Hk as [->|Hk]; auto.
      - intros k Hk. apply B. apply dict_keys_set. auto.
      - intros k [<-|Hk] Hl; [|auto].
        apply B. apply dict_keys_set. auto. }
    destruct (is_list_filter k0) eqn:El.
    + destruct (FieldList_deserialize v0) as [a|e]; simpl in H; [|discriminate].
      assert (Hskip : deserialize_filters items values0 = Ok values ->
               (forall k, In k (dict_keys values) ->
                          In k (dict_keys values0) \/ k0 = k \/ In k (dict_keys items)) /\
               (forall k, In k (dict_keys values0) -> In k (dict_keys values)) /\
               (forall k, k0 = k \/ In k (dict_keys items) -> is_list_filter k = false ->
                          In k (dict_keys values))).
      { intros Hx. apply IH in Hx. destruct Hx as [A [B C]]. split; [|split].
        - intros k Hk. apply A in Hk. destruct Hk; auto.
        - assumption.
        - intros k [<-|Hk] Hl; [congruence | auto]. }
      destruct a; try (apply Hskip; exact H). apply (Hset _ H).
    + apply (Hset _ H).
Qed.

(** X6: the resolver makes up no key and loses no scalar filter: every
    key of the output is a raw key or the name of a declared field, and
    every raw key that is not a list filter is in the output. *)
Theorem resolver_output_keys (fields : list SchemaNode) (d out : dict) :
  QuerySchema_deserialize (QuerySchema fields) (VDict d) = Ok (VDict out) ->
  (forall k, In k (dict_keys out) ->
             In k (dict_keys d) \/ In k (map node_name fields)) /\
  (forall k, In k (dict_keys d) -> is_list_filter k = false -> In k (dict_keys out)).
Proof.
  intros H.
  destruct (QuerySchema_deserialize_inv _ _ _ H) as [sv [values [Hsv [Hf ->]]]].
  destruct (QuerySchema_declared _ _ _ Hsv) as [_ Hkeys].
  destruct (filters_keys d [] values Hf) as [A [_ C]].
  split.
  - intros k Hk. apply dict_update_keys in Hk. destruct Hk as [Hk|Hk].
    + apply A in Hk. destruct Hk as [[]|Hk]. left. assumption.
    + right. apply Hkeys. assumption.
  - intros k Hk Hl. apply dict_update_keys. left. apply C; assumption.
Qed.

(** X7: a querystring that is not a mapping.  When there is none at all
    the resolver hands back [drop] and infers nothing; any other value is
    refused as not being a mapping. *)
Theorem querystring_absent_or_malformed (fields : list SchemaNode) (c : value) :
  (forall d, c <> VDict d) ->
  QuerySchema_deserialize (QuerySchema fields) c =
  if is_null c then Ok VDrop
  else Raise (EInvalid (Invalid "" (Some (NotAMapping c)) [])).
Proof.
  intros Hc. unfold QuerySchema_deserialize, QuerySchema.
  destruct c; try reflexivity. exfalso. eapply Hc. reflexivity.
Qed.

(** A child whose value is refused leaves an error behind, whatever the
    other children do. *)
Lemma Mapping_loop_child_fails (callback : SchemaNode -> value -> result value)
    (cs : list SchemaNode) :
  NoDup (map node_name cs) ->
  forall c e remaining,
    In c cs ->
    (let v := match dict_get (node_name c) remaining with
              | Some v => v
              | None => VNull
              end in
     is_drop v || (is_null v && is_drop (node_default c)) = false /\
     callback c v = Raise (EInvalid e)) ->
    forall num error res,
      match Mapping_loop callback cs num remaining error res with
      | Ok (_, error', _) => error' <> []
      | Raise _ => True
      end.
Proof.
  plain_data.
  induction cs as [|c0 cs IH]; intros Hnd c e remaining Hin Hc num error res;
    [contradiction|].
  inversion Hnd as [|? ? Hn Hd]; subst.
  rewrite Mapping_loop_cons. cbv zeta.
  destruct Hin as [->|Hin].
  - destruct Hc as [Hskip Hcb]. rewrite Hskip, Hcb.
    destruct (Mapping_loop callback cs (S num) _ _ res) as [[[r1 e1] r2]|ex] eqn:E;
      [|exact I].
    apply Mapping_loop_error_grows in E. destruct E as [extra ->].
    destruct error; discriminate.
  - assert (Hne : node_name c0 <> node_name c).
    { intros Heq. apply Hn. rewrite Heq. apply in_map. assumption. }
    assert (Hc' : let v := match dict_get (node_name c)
                                   (dict_remove (node_name c0) remaining) with
                           | Some v => v
                           | None => VNull
                           end in
                  is_drop v || (is_null v && is_drop (node_default c)) = false /\
                  callback c v = Raise (EInvalid e)).
    { cbv zeta. rewrite dict_get_remove_ne by assumption. exact Hc. }
    destruct (is_drop _ || _); [apply (IH Hd c e _ Hin Hc')|].
    destruct (callback c0 _) as [a|[e0| | |]]; try exact I.
    + destruct (is_drop a); apply (IH Hd c e _ Hin Hc').
    + apply (IH Hd c e _ Hin Hc').
Qed.

(** X8: a collection request in which an integer-typed reserved field
    holds an integer below 0 or above 2^63 is refused as a whole, whatever
    else the querystring holds. *)
Theorem integer_field_rejects_request (d : dict) (f s : string) (n : Z) :
  In f integer_fields ->
  dict_get f d = Some (VStr s) ->
  s <> "" ->
  int_of_str s = Some n ->
  (n < 0 \/ n > 2 ^ 63)%Z ->
  is_ok (QuerySchema_deserialize CollectionQuerySchema (VDict d)) = false.
Proof.
  plain_data.
  intros Hf Hd Hs Hn Hr.
  assert (Hcb : exists e,
             deserialize (QueryField f TInteger (Some positive_big_integer)) (VStr s)
             = Raise (EInvalid e)).
  { unfold QueryField. cbn [deserialize is_null]. unfold Integer_deserialize.
    cbn [equals_zero truthy negb andb]. apply String.eqb_neq in Hs. rewrite Hs.
    cbn [negb].
    rewrite Hn. cbn [bind is_null]. unfold positive_big_integer, run_validator.
    rewrite POSTGRESQL_MAX_INTEGER_VALUE_eq.
    destruct (n <? 0)%Z eqn:E1; [eexists; reflexivity|].
    apply Z.ltb_ge in E1.
    assert (E2 : (n >? 2 ^ 63)%Z = true)
      by (rewrite Z.gtb_ltb; apply Z.ltb_lt; lia).
    rewrite E2. eexists. reflexivity. }
  destruct Hcb as [e Hcb].
  assert (Hin : In (QueryField f TInteger (Some positive_big_integer))
                  CollectionQuerySchema_fields).
  { simpl in Hf. unfold CollectionQuerySchema_fields.
    decompose [or] Hf; subst; simpl; tauto. }
  assert (Hnd : NoDup (map node_name CollectionQuerySchema_fields)).
  { repeat constructor; simpl; intuition discriminate. }
  pose proof (Mapping_loop_child_fails deserialize CollectionQuerySchema_fields Hnd
                _ e d Hin) as Hloop.
  cbv zeta in Hloop. cbn [node_name node_default QueryField] in Hloop.
  rewrite Hd in Hloop. specialize (Hloop (conj eq_refl Hcb) 0 [] []).
  unfold QuerySchema_deserialize, CollectionQuerySchema, QuerySchema.
  rewrite deserialize_mapping. unfold Mapping_impl.
  destruct (Mapping_loop deserialize CollectionQuerySchema_fields 0 d [] [])
    as [[[r1 e1] r2]|ex]; [|reflexivity].
  destruct e1; [contradiction|]. reflexivity.
Qed.

(** ** JSON Patch bodies *)

(** A string node checked by [OneOf] or [Regex] returns or raises
    [Invalid]; no other exception leaves it. *)
Lemma string_node_safe (name : string) (val : validator) (m : missing_policy) (v : value) :
  (exists choices, val = OneOf choices) \/ (exists r, val = Regex r) ->
  (exists a, deserialize (Node name TString [] (Some val) m VNull) v = Ok a) \/
  (exists e, deserialize (Node name TString [] (Some val) m VNull) v = Raise (EInvalid e)).
Proof.
  intros Hval. cbn [deserialize].
  assert (Hm : (exists a, match m with
                          | required => raise_invalid name Required
                          | drop => Ok VDrop
                          | MissingValue v0 => Ok v0
                          end = Ok a) \/
               (exists e, match m with
                          | required => raise_invalid name Required
                          | drop => Ok VDrop
                          | MissingValue v0 => Ok v0
                          end = Raise (EInvalid e))).
  { destruct m; [right|left|left]; eexists; reflexivity. }
  destruct (is_null v); [exact Hm|].
  destruct (String_deserialize_cases name v) as [[_ E]|[[s [_ [_ E]]]|[_ E]]];
    rewrite E; cbn [bind is_null];
    [exact Hm| |right; eexists; reflexivity].
  destruct Hval as [[choices ->]|[r ->]]; cbn [run_validator].
  - destruct (mem s choices); cbn [bind]; [left|right]; eexists; reflexivity.
  - destruct (re_match r s); cbn [bind]; [left|right]; eexists; reflexivity.
Qed.

(** When no child lets another exception through, the loop of a mapping
    runs to its end. *)
Lemma Mapping_loop_safe (callback : SchemaNode -> value -> result value)
    (cs : list SchemaNode) :
  (forall c v, In c cs ->
               (exists a, callback c v = Ok a) \/
               (exists e, callback c v = Raise (EInvalid e))) ->
  forall num remaining error res,
  exists st, Mapping_loop callback cs num remaining error res = Ok st.
Proof.
  plain_data.
  induction cs as [|c cs IH]; intros Hsafe num remaining error res.
  - eexists. reflexivity.
  - assert (Hsafe' : forall c' v, In c' cs ->
                       (exists a, callback c' v = Ok a) \/
                       (exists e, callback c' v = Raise (EInvalid e)))
      by (intros c' v Hin; apply Hsafe; right; assumption).
    rewrite Mapping_loop_cons. cbv zeta.
    destruct (is_drop _ || _); [apply IH; assumption|].
    destruct (Hsafe c match dict_get (node_name c) remaining with
                      | Some v => v
                      | None => VNull
                      end (or_introl eq_refl)) as [[a Ha]|[e He]].
    + rewrite Ha. destruct (is_drop a); apply IH; assumption.
    + rewrite He. apply IH; assumption.
Qed.

(** An operation that is there at all validates to a mapping or is refused
    with [Invalid]. *)
Lemma patch_operation_outcome (name : string) (m : missing_policy) (c : value) :
  is_null c = false ->
  (exists o, deserialize (JsonPatchOperationSchema name m) c = Ok (VDict o)) \/
  (exists e, deserialize (JsonPatchOperationSchema name m) c = Raise (EInvalid e)).
Proof.
  intros Hc. unfold JsonPatchOperationSchema.
  destruct c as [| | | | | | |d]; try discriminate Hc;
    try (right; eexists; reflexivity).
  rewrite deserialize_mapping. unfold Mapping_impl.
  destruct (Mapping_loop_safe deserialize
              [Node "op" TString [] (Some op_validator) required VNull;
               Node "path" TString [] (Some path_validator) required VNull;
               Node "from" TString [] (Some path_validator) drop VNull;
               Node "value" TAny [] None drop VNull]) with (num := 0) (remaining := d)
      (error := @nil (nat * invalid)) (res := @nil (string * value))
    as [[[rem err] res] Hst].
  { intros c v [<-|[<-|[<-|[<-|[]]]]].
    - apply string_node_safe. left. eexists. reflexivity.
    - apply string_node_safe. right. eexists. reflexivity.
    - apply string_node_safe. right. eexists. reflexivity.
    - left. cbn [deserialize is_null Any_deserialize bind].
      destruct (is_null v); eexists; reflexivity. }
  rewrite Hst. cbn [bind].
  destruct rem; [|right; eexists; reflexivity].
  destruct err; [left|right]; eexists; reflexivity.
Qed.

(** The loop of a sequence, when every item is either taken or refused
    with [Invalid]: the errors of the refused items under their positions,
    and the results of the others in order. *)
Lemma Sequence_loop_outcomes (callback : SchemaNode -> value -> result value)
    (subnode : SchemaNode) (l : list value) :
  is_drop (node_default subnode) = false ->
  (forall c, In c l ->
             is_drop c = false /\
             ((exists o, callback subnode c = Ok o /\ is_drop o = false) \/
              (exists e, callback subnode c = Raise (EInvalid e)))) ->
  forall num error res,
    Sequence_loop callback subnode l num error res =
    Ok (error ++
          flat_map (fun ic => match callback subnode (snd ic) with
                              | Raise (EInvalid e) => [(fst ic, e)]
                              | _ => []
                              end) (combine (seq num (List.length l)) l),
        res ++
          flat_map (fun c => match callback subnode c with
                             | Ok o => [o]
                             | _ => []
                             end) l).
Proof.
  plain_data.
  intros Hdef. induction l as [|c l IH]; intros Hl num error res.
  - simpl. rewrite !app_nil_r. reflexivity.
  - assert (Hl' : forall c', In c' l ->
                    is_drop c' = false /\
                    ((exists o, callback subnode c' = Ok o /\ is_drop o = false) \/
                     (exists e, callback subnode c' = Raise (EInvalid e))))
      by (intros c' Hin; apply Hl; right; assumption).
    destruct (Hl c (or_introl eq_refl)) as [Hd Hout].
    cbn [Sequence_loop List.length seq combine flat_map fst snd].
    rewrite Hd, Hdef, andb_false_r. cbn [orb].
    destruct Hout as [[o [Ho Hdo]]|[e He]].
    + rewrite Ho, Hdo. rewrite IH by assumption. cbn [app].
      rewrite <- app_assoc. reflexivity.
    + rewrite He. rewrite IH by assumption. cbn [app].
      rewrite <- app_assoc. reflexivity.
Qed.

Lemma combine_seq_In {A : Type} (l : list A) :
  forall num j (c : A),
    In (j, c) (combine (seq num (List.length l)) l) <->
    (num <= j)%nat /\ nth_error l (j - num) = Some c.
Proof.
  plain_data.
  induction l as [|x l IH]; intros num j c; simpl.
  - split; [intros [] | intros [_ H]]. destruct (j - num)%nat; discriminate.
  - rewrite IH. split.
    + intros [H|[H1 H2]].
      * inversion H; subst. split; [lia|]. rewrite Nat.sub_diag. reflexivity.
      * split; [lia|]. replace (j - num)%nat with (S (j - S num)) by lia. exact H2.
    + intros [H1 H2]. destruct (j - num)%nat as [|n] eqn:E.
      * left. simpl in H2. inversion H2. f_equal. lia.
      * right. split; [lia|]. simpl in H2.
        replace (j - S num)%nat with n by lia. exact H2.
Qed.

(** The body of a JSON Patch request, once the loop is read off. *)
Lemma JsonPatchBodySchema_outcome (l : list value) :
  Forall (fun c => is_null c = false /\ is_drop c = false) l ->
  deserialize JsonPatchBodySchema (VList l) =
  finish ""
    (flat_map (fun ic => match deserialize (JsonPatchOperationSchema "operations" drop)
                                  (snd ic) with
                         | Raise (EInvalid e) => [(fst ic, e)]
                         | _ => []
                         end) (combine (seq 0 (List.length l)) l))
    (VList (flat_map (fun c => match deserialize
                                        (JsonPatchOperationSchema "operations" drop) c with
                               | Ok o => [o]
                               | _ => []
                               end) l)).
Proof.
  intros Hl. unfold JsonPatchBodySchema.
  cbn [deserialize is_null Sequence_impl].
  rewrite (Sequence_loop_outcomes deserialize (JsonPatchOperationSchema "operations" drop) l).
  - cbn [bind fst snd app].
    destruct (flat_map _ (combine _ _)); reflexivity.
  - reflexivity.
  - intros c Hin. rewrite Forall_forall in Hl. destruct (Hl c Hin) as [Hn Hd].
    split; [assumption|].
    destruct (patch_operation_outcome "operations" drop c Hn) as [[o Ho]|[e He]].
    + left. exists (VDict o). auto.
    + right. exists e. assumption.
Qed.

(** X9: a JSON Patch body validates exactly when every one of its
    operations does, and the result is the validated operations in the
    order of the body. *)
Theorem patch_body_validates_iff (l outs : list value) :
  Forall (fun c => is_null c = false /\ is_drop c = false) l ->
  deserialize JsonPatchBodySchema (VList l) = Ok (VList outs) <->
  Forall2 (fun c o => deserialize (JsonPatchOperationSchema "operations" drop) c = Ok o)
    l outs.
Proof.
  intros Hl. rewrite (JsonPatchBodySchema_outcome l Hl).
  assert (Hgen : forall num,
             (flat_map (fun ic => match deserialize
                                          (JsonPatchOperationSchema "operations" drop)
                                          (snd ic) with
                                  | Raise (EInvalid e) => [(fst ic, e)]
                                  | _ => []
                                  end) (combine (seq num (List.length l)) l) = [] /\
              flat_map (fun c => match deserialize
                                         (JsonPatchOperationSchema "operations" drop) c with
                                 | Ok o => [o]
                                 | _ => []
                                 end) l = outs) <->
             Forall2 (fun c o => deserialize (JsonPatchOperationSchema "operations" drop) c
                                 = Ok o) l outs).
  { revert outs. induction Hl as [|c l [Hn Hd] Hl IH]; intros outs num.
    - simpl. split.
      + intros [_ <-]. constructor.
      + intros H. inversion H. auto.
    - cbn [List.length seq combine flat_map fst snd].
      destruct (patch_operation_outcome "operations" drop c Hn) as [[o Ho]|[e He]].
      + rewrite Ho. cbn [app]. split.
        * intros [H1 H2]. destruct outs as [|o' outs]; [discriminate|].
          inversion H2; subst. constructor; [assumption|].
          apply (IH _ (S num)). auto.
        * intros H. inversion H as [|? ? ? outs' Hc Hrest]; subst.
          rewrite Ho in Hc. inversion Hc; subst.
          apply (IH _ (S num)) in Hrest. destruct Hrest as [H1 H2].
          split; [assumption|]. rewrite H2. reflexivity.
      + rewrite He. split.
        * intros [H1 _]. discriminate.
        * intros H. inversion H as [|? ? ? outs' Hc Hrest]; subst.
          rewrite He in Hc. discriminate. }
  rewrite <- (Hgen 0).
  destruct (flat_map _ (combine _ _)) as [|x errs]; cbn [finish]; split.
  - intros H. inversion H. auto.
  - intros [_ ->]. reflexivity.
  - discriminate.
  - intros [H _]. discriminate.
Qed.

(** X10: when a JSON Patch body is refused, the error lists every refused
    operation, and only those, each under its position in the body. *)
Theorem patch_body_reports_every_failure (l : list value) (r : exn) :
  Forall (fun c => is_null c = false /\ is_drop c = false) l ->
  deserialize JsonPatchBodySchema (VList l) = Raise r ->
  exists errs,
    r = EInvalid (Invalid "" None errs) /\
    forall i e,
      In (i, e) errs <->
      exists c, nth_error l i = Some c /\
                deserialize (JsonPatchOperationSchema "operations" drop) c
                = Raise (EInvalid e).
Proof.
  intros Hl. rewrite (JsonPatchBodySchema_outcome l Hl).
  destruct (flat_map _ (combine _ _)) as [|x errs] eqn:E; cbn [finish]; [discriminate|].
  intros H. inversion H; subst r. exists (x :: errs). split; [reflexivity|].
  intros i e. rewrite <- E. rewrite in_flat_map. split.
  - intros [[j c] [Hin Hf]]. apply combine_seq_In in Hin. destruct Hin as [_ Hnth].
    rewrite Nat.sub_0_r in Hnth. cbn [fst snd] in Hf.
    destruct (deserialize (JsonPatchOperationSchema "operations" drop) c)
      as [o|[e0| | |]] eqn:Ec; try contradiction.
    destruct Hf as [Hf|[]]. inversion Hf; subst. exists c. auto.
  - intros [c [Hnth Hc]]. exists (i, c). split.
    + apply combine_seq_In. split; [lia|]. rewrite Nat.sub_0_r. assumption.
    + cbn [fst snd]. rewrite Hc. left. reflexivity.
Qed.

(** ** Path schemas: the fields and what they let through *)

Lemma placeholder_children (id_generators : option dict) (r : string) (rids : list string) :
  forall cs,
    NoDup (map node_name cs) ->
    let cs' := fold_left
                 (fun cs rid =>
                    set_child (field_name r rid) (placeholder_node id_generators rid) cs)
                 rids cs in
    NoDup (map node_name cs') /\
    (forall n, In n (map node_name cs') <->
               In n (map node_name cs) \/ In n (map (field_name r) rids)) /\
    (forall c, In c cs' ->
               In c cs \/
               exists rid, In rid rids /\
                           c = set_name (field_name r rid)
                                 (placeholder_node id_generators rid)).
Proof.
  plain_data.
  induction rids as [|rid rids IH]; intros cs Hnd; simpl.
  - split; [assumption|]. split; [intros n; tauto | auto].
  - destruct (IH (set_child (field_name r rid) (placeholder_node id_generators rid) cs))
      as [A [B C]]; [apply set_child_NoDup; assumption|].
    split; [assumption|]. split.
    + intros n. rewrite B, set_child_names. split; intros H; decompose [or] H; auto.
    + intros c Hc. apply C in Hc. destruct Hc as [Hc|[rid' [H1 H2]]].
      * apply set_child_In in Hc. destruct Hc as [->|Hc]; [|auto].
        right. exists rid. auto.
      * right. exists rid'. auto.
Qed.

Lemma build_path_children (kw : kwargs) (path r : string) :
  kw_path kw = Some path ->
  path <> "" ->
  kw_resource_name kw = Some r ->
  exists cs,
    build_path kw = Ok (Some (Node "path" (TMapping UIgnore) cs None required VNull)) /\
    NoDup (map node_name cs) /\
    (forall n, In n (map node_name cs) <->
               In n (map (field_name r) (placeholders (specialize (Some r) path)))) /\
    (forall c, In c cs ->
               exists rid,
                 In rid (placeholders (specialize (Some r) path)) /\
                 c = Node (field_name r rid) TString []
                       (Some (Regex (resolve_regexp (kw_id_generators kw) rid)))
                       required VNull).
Proof.
  plain_data.
  intros Hp Hne Hr. unfold build_path. rewrite Hp, Hr.
  destruct path as [|c0 path']; [contradiction|].
  cbn [truthy negb String.eqb].
  rewrite build_nodes_fold, fold_setitem_children. cbn [bind].
  destruct (placeholder_children (kw_id_generators kw) r
              (placeholders (specialize (Some r) (String c0 path'))) [])
    as [A [B C]]; [constructor|].
  eexists. split; [reflexivity|]. split; [exact A|]. split.
  - intros n. rewrite B. simpl. tauto.
  - intros c Hc. apply C in Hc. destruct Hc as [[]|[rid [H1 H2]]].
    exists rid. split; [assumption|]. rewrite H2. reflexivity.
Qed.

(** X11: the path schema has one field for each distinct field name of the
    template's placeholders and no other; every field is a required string
    checked by the pattern resolved for one of the placeholders that go by
    its name. *)
Theorem path_schema_fields (kw : kwargs) (path r : string) :
  kw_path kw = Some path ->
  path <> "" ->
  kw_resource_name kw = Some r ->
  exists cs,
    build_path kw = Ok (Some (Node "path" (TMapping UIgnore) cs None required VNull)) /\
    NoDup (map node_name cs) /\
    (forall n, In n (map node_name cs) <->
               In n (map (field_name r) (placeholders (specialize (Some r) path)))) /\
    (forall c, In c cs ->
               exists rid,
                 In rid (placeholders (specialize (Some r) path)) /\
                 c = Node (field_name r rid) TString []
                       (Some (Regex (resolve_regexp (kw_id_generators kw) rid)))
                       required VNull).
Proof. exact (build_path_children kw path r). Qed.

(** On a run without error, every child returned, and the result holds
    what it returned unless that was [drop]. *)
Lemma Mapping_loop_children_ok (callback : SchemaNode -> value -> result value)
    (cs : list SchemaNode) :
  NoDup (map node_name cs) ->
  (forall c, In c cs -> is_drop (node_default c) = false) ->
  forall num remaining res remaining' res',
    Forall (fun kv => is_drop (snd kv) = false) remaining ->
    Mapping_loop callback cs num remaining [] res = Ok (remaining', [], res') ->
    forall c, In c cs ->
      exists ret,
        callback c match dict_get (node_name c) remaining with
                   | Some v => v
                   | None => VNull
                   end = Ok ret /\
        dict_get (node_name c) res' =
        if is_drop ret then dict_get (node_name c) res else Some ret.
Proof.
  plain_data.
  induction cs as [|c0 cs IH]; intros Hnd Hdef num remaining res remaining' res' Hd H c Hin;
    [contradiction|].
  inversion Hnd as [|? ? Hn Hnd']; subst.
  apply Mapping_loop_cons_ok in H. cbv zeta in H.
  rewrite (nodrop_get _ _ Hd), (Hdef c0 (or_introl eq_refl)), andb_false_r in H.
  destruct H as [[H _]|[_ [r0 [Hr0 H]]]]; [discriminate H|].
  destruct Hin as [->|Hin].
  - exists r0. split; [assumption|].
    destruct (Mapping_loop_leftover _ _ _ _ _ _ _ _ _ H) as [_ [_ C]].
    rewrite (C _ Hn). destruct (is_drop r0); [reflexivity|].
    rewrite dict_get_set, String.eqb_refl. reflexivity.
  - assert (Hne : node_name c0 <> node_name c).
    { intros Heq. apply Hn. rewrite Heq. apply in_map. assumption. }
    destruct (IH Hnd' (fun c' Hc' => Hdef c' (or_intror Hc')) _ _ _ _ _
                (nodrop_remove _ _ Hd) H c Hin) as [ret [H1 H2]].
    rewrite dict_get_remove_ne in H1 by assumption.
    exists ret. split; [assumption|]. rewrite H2.
    destruct (is_drop ret); [|reflexivity].
    destruct (is_drop r0); [reflexivity|].
    rewrite dict_get_set. apply String.eqb_neq in Hne. rewrite Hne. reflexivity.
Qed.

(** X12: what a bound path schema lets through.  When the path parameters
    validate, every placeholder has a value in the input, that value is a
    string, the output holds the same string under the placeholder's field
    name, the pattern resolved for a placeholder of that name matches at
    its start, and the output has no other key.  So a parameter that is
    missing, is not a string, or does not match is refused. *)
Theorem path_parameters_validated
    (kw : kwargs) (path r : string) (schema : SchemaNode) (d : dict) (out : value) :
  kw_path kw = Some path ->
  path <> "" ->
  kw_resource_name kw = Some r ->
  build_path kw = Ok (Some schema) ->
  Forall (fun kv => is_drop (snd kv) = false) d ->
  deserialize schema (VDict d) = Ok out ->
  exists o,
    out = VDict o /\
    (forall rid, In rid (placeholders (specialize (Some r) path)) ->
       exists s rid',
         In rid' (placeholders (specialize (Some r) path)) /\
         field_name r rid' = field_name r rid /\
         dict_get (field_name r rid) o = Some (VStr s) /\
         re_match (resolve_regexp (kw_id_generators kw) rid') s = true /\
         dict_get (field_name r rid) d <> None /\
         dict_get (field_name r rid) d = Some (VStr s)) /\
    (forall k, In k (dict_keys o) ->
               In k (map (field_name r) (placeholders (specialize (Some r) path)))).
Proof.
  intros Hp Hne Hr Hb Hd H.
  destruct (build_path_children kw path r Hp Hne Hr) as [cs [Hb' [Hnd [Hnames Hcs]]]].
  rewrite Hb in Hb'. inversion Hb'; subst schema. clear Hb'.
  rewrite deserialize_mapping in H. unfold Mapping_impl in H.
  destruct (Mapping_loop deserialize cs 0 d [] []) as [[[rem err] res]|e] eqn:E;
    cbn [bind] in H; [|discriminate].
  destruct err; cbn [finish] in H; [|discriminate].
  inversion H; subst out. exists res. split; [reflexivity|]. split.
  - intros rid Hrid.
    assert (Hn : In (field_name r rid) (map node_name cs))
      by (apply Hnames; apply in_map; assumption).
    apply in_map_iff in Hn. destruct Hn as [c [Hc Hin]].
    destruct (Hcs c Hin) as [rid' [Hrid' Hceq]].
    assert (Hfn : field_name r rid' = field_name r rid)
      by (rewrite <- Hc, Hceq; reflexivity).
    assert (Hdef : forall c', In c' cs -> is_drop (node_default c') = false).
    { intros c' Hc'. destruct (Hcs c' Hc') as [x [_ ->]]. reflexivity. }
    destruct (Mapping_loop_children_ok deserialize cs Hnd Hdef _ _ _ _ _ Hd E c Hin)
      as [ret [Hret Hres]].
    rewrite Hc in Hret, Hres. rewrite Hceq in Hret.
    pose proof (string_node_result _ _ _ _ _ Hret) as Hcase.
    destruct Hcase as [[Hm _]|[[mv [Hm _]]|[s [Hin0 [-> [_ Hv]]]]]]; try discriminate Hm.
    apply get_or_null_str in Hin0.
    exists s, rid'. split; [assumption|]. split; [assumption|].
    split; [exact Hres|]. split; [apply Regex_passes; assumption|].
    split; [|exact Hin0]. rewrite Hin0. discriminate.
  - intros k Hk. apply Hnames.
    destruct (Mapping_loop_keys _ _ _ _ _ _ _ _ _ E (NoDup_nil _)) as [_ Hkeys].
    destruct (Hkeys k Hk) as [[]|Hin]. assumption.
Qed.

(** ** Binding: defaults, late binding, and what comes too late *)

Lemma get_child_nil (n : string) : get_child n [] = None.
Proof. reflexivity. Qed.

Lemma Ok_inj {A : Type} (a b : A) : Ok a = Ok b -> a = b.
Proof. intros H. inversion H. reflexivity. Qed.

Ltac bind_simpl :=
  cbn [rs_children rs_header rs_path rs_querystring RequestSchema
       kw_header kw_querystring kw_path
       with_child with_header with_path with_querystring bind option_map] in *.

Ltac child_lookup :=
  repeat first
    [ rewrite get_child_set_same
    | rewrite get_child_set_other by discriminate
    | rewrite get_child_nil ];
  bind_simpl.

(** X13: the first binding of a request schema.  The header and
    querystring schemas of the context become the children of those names,
    and where the context has none the defaults [HeaderSchema()] and
    [QuerySchema()] are installed; the path schema is the one [build_path]
    returns, if it returns one. *)
Theorem first_bind_children (kw : kwargs) (s : RequestSchemaState) :
  RequestSchema_bind kw RequestSchema = Ok s ->
  get_child "header" (rs_children s)
  = Some (set_name "header" match kw_header kw with
                            | Some h => h
                            | None => HeaderSchema
                            end) /\
  get_child "querystring" (rs_children s)
  = Some (set_name "querystring" match kw_querystring kw with
                                 | Some q => q
                                 | None => QuerySchema []
                                 end) /\
  exists p, build_path kw = Ok p /\ path_schema_of s = option_map (set_name "path") p.
Proof.
  intros H. unfold RequestSchema_bind, bind_header, bind_path, bind_querystring in H.
  bind_simpl.
  destruct (build_path kw) as [p|e] eqn:Eb; bind_simpl; [|destruct (kw_header kw); discriminate].
  destruct (kw_header kw) as [h|]; destruct p as [p|]; bind_simpl;
    destruct (kw_querystring kw) as [q|]; bind_simpl;
    apply Ok_inj in H; subst s; unfold after_bind, path_schema_of; bind_simpl;
    repeat (progress child_lookup);
    (split; [reflexivity|]); (split; [reflexivity|]);
    eexists; (split; [reflexivity|]); reflexivity.
Qed.

Ltac child_lookup_in H :=
  repeat first
    [ rewrite get_child_set_same in H
    | rewrite get_child_set_other in H by discriminate
    | rewrite get_child_nil in H ];
  bind_simpl.

Ltac bind_run H :=
  unfold RequestSchema_bind, bind_header, bind_path, bind_querystring, after_bind in H;
  bind_simpl; repeat (progress child_lookup_in H).

Ltac bind_done :=
  unfold path_schema_of; bind_simpl; repeat (progress child_lookup).

(** X14: header and querystring across two bindings.  A schema given at the
    first binding can be replaced at the second; when the first binding had
    none, the attribute is no longer deferred and the default installed by
    [after_bind] stays, whatever the second binding supplies. *)
Theorem rebind_header_and_querystring (kw1 kw2 : kwargs) (s1 s2 : RequestSchemaState) :
  RequestSchema_bind kw1 RequestSchema = Ok s1 ->
  RequestSchema_bind kw2 s1 = Ok s2 ->
  get_child "header" (rs_children s2)
  = Some (set_name "header"
            match kw_header kw1 with
            | None => HeaderSchema
            | Some h1 => match kw_header kw2 with Some h2 => h2 | None => h1 end
            end) /\
  get_child "querystring" (rs_children s2)
  = Some (set_name "querystring"
            match kw_querystring kw1 with
            | None => QuerySchema []
            | Some q1 => match kw_querystring kw2 with Some q2 => q2 | None => q1 end
            end).
Proof.
  intros H1 H2. bind_run H1.
  destruct (build_path kw1) as [p1|e1]; bind_simpl;
    [|destruct (kw_header kw1); discriminate].
  destruct (kw_header kw1) as [h1|]; destruct p1 as [p1|]; bind_simpl;
    destruct (kw_querystring kw1) as [q1|]; bind_simpl;
    apply Ok_inj in H1; subst s1; bind_run H2;
    (destruct (build_path kw2) as [p2|e2]; bind_simpl;
     [|try destruct (kw_header kw2); bind_simpl; discriminate]);
    destruct (kw_header kw2) as [h2|]; destruct p2 as [p2|]; bind_simpl;
    destruct (kw_querystring kw2) as [q2|]; bind_simpl;
    repeat (progress child_lookup_in H2);
    apply Ok_inj in H2; subst s2; bind_done; split; reflexivity.
Qed.

(** X15: the path can be bound late.  When the first binding has no path,
    the deferred [build_path] is kept, and the next binding builds the path
    schema from its own context (or fails as [build_path] does). *)
Theorem late_path_binding (kw1 kw2 : kwargs) (s1 : RequestSchemaState) :
  build_path kw1 = Ok None ->
  RequestSchema_bind kw1 RequestSchema = Ok s1 ->
  match build_path kw2 with
  | Ok p =>
      exists s2, RequestSchema_bind kw2 s1 = Ok s2 /\
                 path_schema_of s2 = option_map (set_name "path") p
  | Raise e => RequestSchema_bind kw2 s1 = Raise e
  end.
Proof.
  intros Eb H1. bind_run H1. rewrite Eb in H1. bind_simpl.
  destruct (kw_header kw1) as [h1|]; bind_simpl;
    destruct (kw_querystring kw1) as [q1|]; bind_simpl;
    apply Ok_inj in H1; subst s1;
    unfold RequestSchema_bind, bind_header, bind_path, bind_querystring, after_bind;
    bind_simpl; repeat (progress child_lookup);
    destruct (build_path kw2) as [p2|e2]; bind_simpl;
    try destruct (kw_header kw2) as [h2|]; bind_simpl; try reflexivity;
    destruct p2 as [p2|]; bind_simpl;
    try destruct (kw_querystring kw2) as [q2|]; bind_simpl;
    repeat (progress child_lookup);
    eexists; (split; [reflexivity|]); bind_done; reflexivity.
Qed.

(** X16: late binding of the path works once.  After two bindings without
    a path the attribute holds [None], so every later binding succeeds
    without calling [build_path] and leaves the schema without a path
    schema, whatever path its context has. *)
Theorem path_binding_expires (kw1 kw2 kw3 : kwargs) (s1 s2 : RequestSchemaState) :
  build_path kw1 = Ok None ->
  build_path kw2 = Ok None ->
  RequestSchema_bind kw1 RequestSchema = Ok s1 ->
  RequestSchema_bind kw2 s1 = Ok s2 ->
  exists s3, RequestSchema_bind kw3 s2 = Ok s3 /\ path_schema_of s3 = None.
Proof.
  intros Eb1 Eb2 H1 H2. bind_run H1. rewrite Eb1 in H1. bind_simpl.
  destruct (kw_header kw1) as [h1|]; bind_simpl;
    destruct (kw_querystring kw1) as [q1|]; bind_simpl;
    apply Ok_inj in H1; subst s1; bind_run H2; rewrite Eb2 in H2; bind_simpl;
    try destruct (kw_header kw2) as [h2|]; bind_simpl;
    try destruct (kw_querystring kw2) as [q2|]; bind_simpl;
    repeat (progress child_lookup_in H2);
    apply Ok_inj in H2; subst s2;
    unfold RequestSchema_bind, bind_header, bind_path, bind_querystring, after_bind;
    bind_simpl; repeat (progress child_lookup);
    try destruct (kw_header kw3) as [h3|]; bind_simpl;
    try destruct (kw_querystring kw3) as [q3|]; bind_simpl;
    repeat (progress child_lookup);
    eexists; (split; [reflexivity|]); bind_done; reflexivity.
Qed.

(** ** Record bodies *)

(** The loop of a mapping never raises [Invalid] itself: it collects the
    children's. *)
Lemma Mapping_loop_raises (callback : SchemaNode -> value -> result value)
    (cs : list SchemaNode) :
  forall num remaining error res e i,
    Mapping_loop callback cs num remaining error res = Raise e -> e <> EInvalid i.
Proof.
  plain_data.
  induction cs as [|c cs IH]; intros num remaining error res e i H.
  - discriminate H.
  - rewrite Mapping_loop_cons in H. cbv zeta in H.
    destruct (is_drop _ || _); [eapply IH; eassumption|].
    destruct (callback c _) as [a|[e0| | |]].
    + destruct (is_drop a); eapply IH; eassumption.
    + eapply IH; eassumption.
    + inversion H. discriminate.
    + inversion H. discriminate.
    + inversion H. discriminate.
Qed.

(** A mapping that raises on unknown keys, given a key none of its children
    has: it never returns, and the [Invalid] it raises is the one about the
    unrecognized keys, whatever the children found. *)
Lemma closed_mapping_unknown_key (name : string) (cs : list SchemaNode)
    (val : option validator) (m : missing_policy) (df : value) (d : dict) (k : string) :
  In k (dict_keys d) -> ~ In k (map node_name cs) ->
  match deserialize (Node name (TMapping URaise) cs val m df) (VDict d) with
  | Ok _ => False
  | Raise (EInvalid e) =>
      exists rem, e = Invalid name (Some (UnrecognizedKeys rem)) [] /\
                  dict_get k rem = dict_get k d
  | Raise _ => True
  end.
Proof.
  intros Hk Hn. cbn [deserialize is_null]. unfold Mapping_impl.
  destruct (Mapping_loop deserialize cs 0 d [] []) as [[[rem err] res]|e] eqn:E;
    cbn [bind].
  - destruct (Mapping_loop_leftover _ _ _ _ _ _ _ _ _ E) as [Hrem _].
    specialize (Hrem k).
    assert (Hmem : mem k (map node_name cs) = false).
    { destruct (mem k (map node_name cs)) eqn:Em; [|reflexivity].
      apply mem_In in Em. contradiction. }
    rewrite Hmem in Hrem.
    destruct rem as [|kv rem].
    + simpl in Hrem. symmetry in Hrem. apply dict_get_None in Hrem. contradiction.
    + cbn [is_null bind]. unfold raise_invalid. cbn [bind].
      eexists. split; [reflexivity|assumption].
  - destruct e as [i| | |]; try exact I.
    exfalso. exact (Mapping_loop_raises _ _ _ _ _ _ _ i E eq_refl).
Qed.

(** X17: the body of a record request is a closed mapping.  A body with a
    key other than [data] and, once a permissions schema is bound,
    [permissions] never validates; before the permissions are bound a body
    carrying [permissions] is refused too.  The [Invalid] raised names the
    unrecognized keys only: what the data schema found wrong is not
    reported with it. *)
Theorem record_body_closed_shape
    (data permissions : option SchemaNode) (schema : SchemaNode) (d : dict) (k : string) :
  RecordSchema_bind data permissions = Ok schema ->
  In k (dict_keys d) ->
  k <> "data" ->
  (permissions <> None -> k <> "permissions") ->
  match deserialize schema (VDict d) with
  | Ok _ => False
  | Raise (EInvalid e) =>
      exists rem, e = Invalid "" (Some (UnrecognizedKeys rem)) [] /\
                  dict_get k rem = dict_get k d
  | Raise _ => True
  end.
Proof.
  intros H Hk Hd Hp. unfold RecordSchema_bind in H.
  destruct (RecordSchema_data data) as [data'|e]; cbn [bind] in H; [|discriminate].
  apply Ok_inj in H. subst schema.
  destruct data' as [dn|]; destruct permissions as [pn|]; cbn [setitem];
    apply closed_mapping_unknown_key; try assumption;
    intros Hin; repeat (apply set_child_names in Hin; destruct Hin as [Hin|Hin]);
    try contradiction; try (apply Hp; [discriminate|assumption]).
Qed.

(** ** Requests with a body *)

Lemma after_bind_other (s : RequestSchemaState) (n : string) :
  n <> "header" -> n <> "querystring" ->
  get_child n (rs_children (after_bind s)) = get_child n (rs_children s).
Proof.
  intros Hh Hq. unfold after_bind.
  destruct (get_child "header" (rs_children s));
    destruct (get_child "querystring" _);
    cbn [rs_children with_child]; rewrite ?get_child_set_other by assumption;
    reflexivity.
Qed.

(** Binding a request schema touches the children [header], [path] and
    [querystring] only. *)
Lemma RequestSchema_bind_other (kw : kwargs) (s s' : RequestSchemaState) (n : string) :
  RequestSchema_bind kw s = Ok s' ->
  n <> "header" -> n <> "path" -> n <> "querystring" ->
  get_child n (rs_children s') = get_child n (rs_children s).
Proof.
  unfold RequestSchema_bind. intros H Hh Hp Hq.
  destruct (bind_path kw (bind_header kw s)) as [sp|e] eqn:Ep; cbn [bind] in H;
    [|discriminate].
  apply Ok_inj in H. subst s'.
  destruct (bind_header_facts kw s) as [_ [_ [Hother _]]].
  destruct (bind_path_facts kw _ _ Ep) as [_ [_ [Pother _]]].
  destruct (bind_querystring_facts kw sp) as [_ [_ [Qother _]]].
  rewrite after_bind_other, Qother, Pother, Hother by assumption. reflexivity.
Qed.

Lemma PayloadRequestSchema_bind_body (body : option SchemaNode) (kw : kwargs)
    (s s' : PayloadRequestSchemaState) :
  PayloadRequestSchema_bind body kw s = Ok s' ->
  prs_body s' = prs_body (bind_body body s) /\
  get_child "body" (rs_children (prs_request s'))
  = get_child "body" (rs_children (prs_request (bind_body body s))).
Proof.
  unfold PayloadRequestSchema_bind. intros H.
  destruct (RequestSchema_bind kw (prs_request (bind_body body s))) as [r|e] eqn:Er;
    cbn [bind] in H; [|discriminate].
  apply Ok_inj in H. subst s'. cbn [prs_body prs_request].
  split; [reflexivity|].
  apply (RequestSchema_bind_other _ _ _ _ Er); discriminate.
Qed.

(** X18: the body of a payload request schema across bindings.  A body
    given at a binding becomes the child [body], replacing the one of an
    earlier binding; a binding without one keeps what is there.  After two
    bindings without a body the attribute holds [None], and a body given
    later is never installed. *)
Theorem payload_body_binding
    (b1 b2 : option SchemaNode) (kw1 kw2 : kwargs) (s1 s2 : PayloadRequestSchemaState) :
  PayloadRequestSchema_bind b1 kw1 PayloadRequestSchema = Ok s1 ->
  PayloadRequestSchema_bind b2 kw2 s1 = Ok s2 ->
  get_child "body" (rs_children (prs_request s1)) = option_map (set_name "body") b1 /\
  get_child "body" (rs_children (prs_request s2))
  = option_map (set_name "body") match b2 with Some b => Some b | None => b1 end /\
  (b1 = None -> b2 = None ->
   forall b3 kw3 s3,
     PayloadRequestSchema_bind b3 kw3 s2 = Ok s3 ->
     get_child "body" (rs_children (prs_request s3)) = None).
Proof.
  intros H1 H2.
  destruct (PayloadRequestSchema_bind_body _ _ _ _ H1) as [A1 C1].
  destruct (PayloadRequestSchema_bind_body _ _ _ _ H2) as [A2 C2].
  assert (E1 : get_child "body" (rs_children (prs_request s1))
               = option_map (set_name "body") b1).
  { rewrite C1. destruct b1; reflexivity || apply get_child_set_same. }
  assert (E2 : get_child "body" (rs_children (prs_request s2))
               = option_map (set_name "body") match b2 with Some b => Some b | None => b1 end).
  { rewrite C2. unfold bind_body in A1 |- *. cbn [prs_body PayloadRequestSchema] in A1.
    destruct b1 as [v1|]; cbn [prs_body] in A1; rewrite A1;
      destruct b2 as [v2|]; cbn [prs_request with_child rs_children option_map];
      try apply get_child_set_same; exact E1. }
  split; [assumption|]. split; [assumption|].
  intros -> -> b3 kw3 s3 H3.
  destruct (PayloadRequestSchema_bind_body _ _ _ _ H3) as [_ C3].
  rewrite C3.
  assert (A : prs_body s2 = BodyNone).
  { rewrite A2. unfold bind_body. rewrite A1. reflexivity. }
  unfold bind_body. rewrite A. assumption.
Qed.
End Schema.

(** ** The theorems at concrete inputs *)

(** C2 on the querystring [?id=7&in_x=a,b&deleted=true] of a collection:
    [id] is declared as a string and inferred as an integer, and the string
    is what the output carries. *)
Lemma QuerySchema_declared_overwrites_inferred_witness :
  QuerySchema_deserialize int_of_decimal FieldList_spec native_value_spec
    (QuerySchema CollectionQuerySchema_fields)
    (VDict [("id", VStr "7"); ("in_x", VStr "a,b"); ("deleted", VStr "true")])
  = Ok (VDict [("id", VStr "7"); ("in_x", VList [VStr "a"; VStr "b"]);
               ("deleted", VBool true)]) /\
  exists d sv values,
    VDict [("id", VStr "7"); ("in_x", VStr "a,b"); ("deleted", VStr "true")] = VDict d /\
    deserialize int_of_decimal FieldList_spec
      (QuerySchema CollectionQuerySchema_fields)
      (VDict [("id", VStr "7"); ("in_x", VStr "a,b"); ("deleted", VStr "true")])
    = Ok (VDict sv) /\
    deserialize_filters FieldList_spec native_value_spec d [] = Ok values /\
    [("id", VStr "7"); ("in_x", VList [VStr "a"; VStr "b"]); ("deleted", VBool true)]
    = dict_update values sv /\
    (forall k v, dict_get k sv = Some v ->
       dict_get k [("id", VStr "7"); ("in_x", VList [VStr "a"; VStr "b"]);
                   ("deleted", VBool true)] = Some v) /\
    (forall k, dict_get k sv = None ->
       dict_get k [("id", VStr "7"); ("in_x", VList [VStr "a"; VStr "b"]);
                   ("deleted", VBool true)] = dict_get k values).
Proof.
  split; [reflexivity|].
  apply (QuerySchema_declared_overwrites_inferred int_of_decimal
           FieldList_spec native_value_spec CollectionQuerySchema_fields).
  reflexivity.
Defined.

(** The field-list parser modelled from the spec returns the comma-split
    tokens of a string and never raises. *)
Lemma FieldList_spec_tokens (s : string) :
  FieldList_spec (VStr s) = Ok (VList (map VStr (split_commas s))).
Proof. reflexivity. Qed.

Lemma FieldList_spec_total (v : value) : is_ok (FieldList_spec v) = true.
Proof. destruct v; reflexivity. Qed.

(** C7 on [?in_x=a,3&exclude_y=...] where the value of [exclude_y] is not a
    string: [exclude_y] is absent from the output and the request goes
    through. *)
Lemma list_filter_parsed_or_dropped_witness :
  NoDup (dict_keys [("in_x", VStr "a,3"); ("exclude_y", VNone)]) /\
  In ("exclude_y", VNone) [("in_x", VStr "a,3"); ("exclude_y", VNone)] /\
  is_list_filter "exclude_y" = true /\
  ~ In "exclude_y" (map node_name CollectionQuerySchema_fields) /\
  exists out,
    QuerySchema_deserialize int_of_decimal FieldList_spec native_value_spec
      (QuerySchema CollectionQuerySchema_fields)
      (VDict [("in_x", VStr "a,3"); ("exclude_y", VNone)]) = Ok (VDict out) /\
    dict_get "exclude_y" out =
    match FieldList_spec VNone with
    | Ok (VList tokens) => Some (VList (map native_value_spec tokens))
    | _ => None
    end.
Proof.
  assert (H1 : NoDup (dict_keys [("in_x", VStr "a,3"); ("exclude_y", VNone)])).
  { repeat constructor; simpl; intuition discriminate. }
  assert (H2 : In ("exclude_y", VNone) [("in_x", VStr "a,3"); ("exclude_y", VNone)])
    by (right; left; reflexivity).
  assert (H3 : ~ In "exclude_y" (map node_name CollectionQuerySchema_fields))
    by (simpl; intuition discriminate).
  split; [exact H1|]. split; [exact H2|]. split; [reflexivity|]. split; [exact H3|].
  apply (list_filter_parsed_or_dropped int_of_decimal FieldList_spec
           native_value_spec CollectionQuerySchema_fields
           [("in_x", VStr "a,3"); ("exclude_y", VNone)] [] "exclude_y" VNone
           H1 H2 eq_refl H3 eq_refl).
  intros k' v' _ _. apply FieldList_spec_total.
Defined.

(** The same request, evaluated: the list filter holds its tokens, each
    coerced. *)
Example list_filter_tokens :
  QuerySchema_deserialize int_of_decimal FieldList_spec native_value_spec
    (QuerySchema CollectionQuerySchema_fields)
    (VDict [("in_x", VStr "a,3"); ("exclude_y", VNone)])
  = Ok (VDict [("in_x", VList [VStr "a"; VInt 3])]).
Proof. reflexivity. Qed.

(** The placeholders of a collection route once [{id}] stands for the
    collection, and of a template with stray brackets. *)
Example collection_placeholders :
  specialize (Some "collection") "/buckets/{bucket_id}/collections/{id}"
  = "/buckets/{bucket_id}/collections/{collection_id}" /\
  placeholders "/buckets/{bucket_id}/collections/{collection_id}"
  = ["bucket_id"; "collection_id"] /\
  placeholders "/a{b{c}d}/{z}{" = ["b{c"; "z"].
Proof. repeat split; reflexivity. Qed.

(** C3 on a collection route: binding [RequestSchema()] and binding the
    result again. *)
Lemma bind_idempotent_witness :
  exists s1,
    RequestSchema_bind example_locate storage_regexp
      (Node "" (TMapping UPreserve) [] None drop VNull)
      {| kw_path := Some "/buckets/{bucket_id}/collections/{id}";
         kw_resource_name := Some "collection";
         kw_id_generators := Some [("bucket_id_generator", VStr "generators.Name")];
         kw_header := None; kw_querystring := None |}
      RequestSchema = Ok s1 /\
    exists s2,
      RequestSchema_bind example_locate storage_regexp
        (Node "" (TMapping UPreserve) [] None drop VNull)
        {| kw_path := Some "/buckets/{bucket_id}/collections/{id}";
           kw_resource_name := Some "collection";
           kw_id_generators := Some [("bucket_id_generator", VStr "generators.Name")];
           kw_header := None; kw_querystring := None |}
        s1 = Ok s2 /\
      rs_children s2 = rs_children s1 /\
      path_schema_of s2 = path_schema_of s1 /\
      (forall p1 p2 cstruct,
          path_schema_of s1 = Some p1 -> path_schema_of s2 = Some p2 ->
          deserialize int_of_decimal FieldList_spec p1 cstruct
          = deserialize int_of_decimal FieldList_spec p2 cstruct) /\
      (forall s1',
          RequestSchema_bind example_locate storage_regexp
            (Node "" (TMapping UPreserve) [] None drop VNull)
            {| kw_path := Some "/buckets/{bucket_id}/collections/{id}";
               kw_resource_name := Some "collection";
               kw_id_generators := Some [("bucket_id_generator", VStr "generators.Name")];
               kw_header := None; kw_querystring := None |}
            RequestSchema = Ok s1' -> s1' = s1).
Proof.
  eexists. split; [reflexivity|].
  apply (bind_idempotent int_of_decimal FieldList_spec example_locate
           storage_regexp).
  reflexivity.
Defined.

(** The path schema of that binding: the bucket takes the pattern of its
    own generator, the collection that of the storage generator, under the
    name [id]. *)
Example collection_path_schema :
  build_path example_locate storage_regexp
    {| kw_path := Some "/buckets/{bucket_id}/collections/{id}";
       kw_resource_name := Some "collection";
       kw_id_generators := Some [("bucket_id_generator", VStr "generators.Name")];
       kw_header := None; kw_querystring := None |}
  = Ok (Some (Node "path" (TMapping UIgnore)
                [ Node "bucket_id" TString [] (Some (Regex name_regexp)) required VNull;
                  Node "id" TString [] (Some (Regex storage_regexp)) required VNull ]
                None required VNull)).
Proof. reflexivity. Qed.

(** C1 on the same route, with a default generator in the registry. *)
Lemma path_fields_and_precedence_witness :
  exists cs,
    build_path example_locate storage_regexp
      {| kw_path := Some "/buckets/{bucket_id}/collections/{id}";
         kw_resource_name := Some "collection";
         kw_id_generators := Some [("bucket_id_generator", VStr "generators.Name");
                                   ("id_generator", VStr "generators.Digits")];
         kw_header := None; kw_querystring := None |}
    = Ok (Some (Node "path" (TMapping UIgnore) cs None required VNull)) /\
    get_child "bucket_id" cs
    = Some (Node "bucket_id" TString [] (Some (Regex name_regexp)) required VNull) /\
    get_child "id" cs
    = Some (Node "id" TString [] (Some (Regex digits_regexp)) required VNull).
Proof.
  destruct (path_fields_and_precedence example_locate storage_regexp
              {| kw_path := Some "/buckets/{bucket_id}/collections/{id}";
                 kw_resource_name := Some "collection";
                 kw_id_generators := Some [("bucket_id_generator", VStr "generators.Name");
                                           ("id_generator", VStr "generators.Digits")];
                 kw_header := None; kw_querystring := None |}
              "/buckets/{bucket_id}/collections/{id}" "collection"
              [("bucket_id_generator", VStr "generators.Name");
               ("id_generator", VStr "generators.Digits")]
              eq_refl ltac:(discriminate) eq_refl eq_refl)
    as [cs [Hb [Hf _]]].
  exists cs. split; [exact Hb|].
  assert (Hid : ~ In "id" (placeholders (specialize (Some "collection")
                                            "/buckets/{bucket_id}/collections/{id}")))
    by (simpl; intuition discriminate).
  split.
  - destruct (Hf "bucket_id" (or_introl eq_refl)) as [rid' [_ [_ [He Hg]]]].
    rewrite (He Hid) in Hg. exact Hg.
  - destruct (Hf "collection_id" (or_intror (or_introl eq_refl))) as [rid' [_ [_ [He Hg]]]].
    rewrite (He Hid) in Hg. exact Hg.
Defined.

(** C1 as stated fails: with a generator registered under [bar_generator]
    for the resource [bar] and a default one, the field of the resource's
    own placeholder takes the pattern of the default generator; "abc"
    passes it and would not pass the pattern of the generator registered
    for [bar]. *)
Lemma generator_key_of_resource_is_not_read :
  build_path example_locate storage_regexp
    {| kw_path := Some "/bars/{id}"; kw_resource_name := Some "bar";
       kw_id_generators := Some [("bar_generator", VStr "generators.Digits");
                                 ("id_generator", VStr "generators.Name")];
       kw_header := None; kw_querystring := None |}
  = Ok (Some (Node "path" (TMapping UIgnore)
                [Node "id" TString [] (Some (Regex name_regexp)) required VNull]
                None required VNull)) /\
  example_locate "generators.Digits" = Some {| regexp := Some digits_regexp |} /\
  deserialize int_of_decimal FieldList_spec
    (Node "path" (TMapping UIgnore)
       [Node "id" TString [] (Some (Regex name_regexp)) required VNull]
       None required VNull)
    (VDict [("id", VStr "abc")])
  = Ok (VDict [("id", VStr "abc")]) /\
  re_match digits_regexp "abc" = false.
Proof. repeat split; reflexivity. Qed.

(** C5 on a known permission with one principal. *)
Lemma known_permissions_checked_witness :
  ["read"; "write"] <> [] /\
  ((exists k, In k (dict_keys [("read", VList [VStr "fxa:abc"])]) /\
              ~ In k ["read"; "write"]) ->
   exists k0,
     find (fun k => negb (mem k ["read"; "write"]))
       (dict_keys [("read", VList [VStr "fxa:abc"])]) = Some k0 /\
     In k0 (dict_keys [("read", VList [VStr "fxa:abc"])]) /\
     ~ In k0 ["read"; "write"] /\
     PermissionsSchema_deserialize int_of_decimal FieldList_spec
       "permissions" required ["read"; "write"]
       (VDict [("read", VList [VStr "fxa:abc"])])
     = Raise (EInvalid (Invalid "permissions"
                          (Some (NotOneOf (VStr k0) ["read"; "write"])) []))) /\
  ((forall k v, In (k, v) [("read", VList [VStr "fxa:abc"])] ->
                In k ["read"; "write"] /\ principals v) ->
   exists out,
     PermissionsSchema_deserialize int_of_decimal FieldList_spec
       "permissions" required ["read"; "write"]
       (VDict [("read", VList [VStr "fxa:abc"])]) = Ok (VDict out) /\
     forall k, dict_get k out = dict_get k [("read", VList [VStr "fxa:abc"])]).
Proof.
  assert (H : ["read"; "write"] <> []) by discriminate.
  split; [exact H|].
  apply (known_permissions_checked int_of_decimal FieldList_spec
           "permissions" required ["read"; "write"]
           [("read", VList [VStr "fxa:abc"])] H).
Defined.

(** The two examples of the spec for a closed set of permissions. *)
Example known_permission_validates :
  PermissionsSchema_deserialize int_of_decimal FieldList_spec
    "permissions" required ["read"; "write"]
    (VDict [("read", VList [VStr "fxa:abc"])])
  = Ok (VDict [("read", VList [VStr "fxa:abc"])]).
Proof. reflexivity. Qed.

Example unknown_permission_fails :
  PermissionsSchema_deserialize int_of_decimal FieldList_spec
    "permissions" required ["read"; "write"]
    (VDict [("delete", VList [VStr "fxa:abc"])])
  = Raise (EInvalid (Invalid "permissions"
                       (Some (NotOneOf (VStr "delete") ["read"; "write"])) [])).
Proof. reflexivity. Qed.

(** C5 as stated fails: all keys are known and the value is a sequence of
    strings, yet the empty principal makes deserialization fail, since a
    string node takes the empty string for a missing value. *)
Lemma empty_principal_is_rejected :
  (forall k, In k (dict_keys [("read", VList [VStr ""])]) -> In k ["read"; "write"]) /\
  PermissionsSchema_deserialize int_of_decimal FieldList_spec
    "permissions" required ["read"; "write"]
    (VDict [("read", VList [VStr ""])])
  = Raise (EInvalid (Invalid "permissions" None
                       [(0, Invalid "read" None [(0, Invalid "" (Some Required) [])])])).
Proof.
  split; [|reflexivity].
  intros k [<-|[]]. left; reflexivity.
Qed.

(** C6 on the example of the spec. *)
Lemma patch_operation_closed_shape_witness :
  Forall (fun kv => is_drop (snd kv) = false)
    [("op", VStr "add"); ("path", VStr "/a/b"); ("value", VInt 1)] /\
  deserialize int_of_decimal FieldList_spec
    (JsonPatchOperationSchema "" required)
    (VDict [("op", VStr "add"); ("path", VStr "/a/b"); ("value", VInt 1)])
  = Ok (VDict [("op", VStr "add"); ("path", VStr "/a/b"); ("value", VInt 1)]) /\
  exists o op path,
    VDict [("op", VStr "add"); ("path", VStr "/a/b"); ("value", VInt 1)] = VDict o /\
    dict_get "op" o = Some (VStr op) /\
    In op ["test"; "add"; "remove"; "replace"; "move"; "copy"] /\
    dict_get "path" o = Some (VStr path) /\
    re_match pointer_regex path = true.
Proof.
  assert (H : Forall (fun kv => is_drop (snd kv) = false)
                [("op", VStr "add"); ("path", VStr "/a/b"); ("value", VInt 1)])
    by (repeat constructor).
  split; [exact H|]. split; [reflexivity|].
  destruct (patch_operation_closed_shape int_of_decimal FieldList_spec
              "" required [("op", VStr "add"); ("path", VStr "/a/b"); ("value", VInt 1)] H)
    as [Honly _].
  destruct (Honly _ eq_refl) as [o [op [path [H1 [H2 [H3 [H4 [H5 _]]]]]]]].
  exists o, op, path. repeat split; assumption.
Defined.

(** The failing examples of the spec. *)
Example patch_operation_bogus_op :
  deserialize int_of_decimal FieldList_spec
    (JsonPatchOperationSchema "" required)
    (VDict [("op", VStr "bogus"); ("path", VStr "/a")])
  = Raise (EInvalid
             (Invalid "" None
                [(0, Invalid "op"
                       (Some (NotOneOf (VStr "bogus")
                                ["test"; "add"; "remove"; "replace"; "move"; "copy"]))
                       [])])).
Proof. reflexivity. Qed.

Example patch_operation_bad_path :
  deserialize int_of_decimal FieldList_spec
    (JsonPatchOperationSchema "" required)
    (VDict [("op", VStr "add"); ("path", VStr "bad")])
  = Raise (EInvalid (Invalid "" None [(1, Invalid "path" (Some RegexMismatch) [])])).
Proof. reflexivity. Qed.

(** A [from] without a leading slash fails; an empty one is dropped; an
    [op] that is not a string is refused by the string type. *)
Example patch_operation_bad_from_refused :
  deserialize int_of_decimal FieldList_spec
    (JsonPatchOperationSchema "" required)
    (VDict [("op", VStr "move"); ("path", VStr "/a"); ("from", VStr "b")])
  = Raise (EInvalid (Invalid "" None [(2, Invalid "from" (Some RegexMismatch) [])])).
Proof. reflexivity. Qed.

Example patch_operation_empty_from_dropped :
  deserialize int_of_decimal FieldList_spec
    (JsonPatchOperationSchema "" required)
    (VDict [("op", VStr "add"); ("path", VStr "/a"); ("from", VStr EmptyString)])
  = Ok (VDict [("op", VStr "add"); ("path", VStr "/a")]).
Proof. reflexivity. Qed.

Example patch_operation_op_not_a_string :
  deserialize int_of_decimal FieldList_spec
    (JsonPatchOperationSchema "" required)
    (VDict [("op", VInt 1); ("path", VStr "/a")])
  = Raise (EInvalid (Invalid "" None [(0, Invalid "op" (Some (NotAString (VInt 1))) [])])).
Proof. reflexivity. Qed.

(** C6 as stated fails: the path "/a b" is not in the language of the
    pointer grammar, and the operation validates. *)
Lemma path_outside_the_grammar_validates :
  re_fullmatch pointer_regex "/a b" = false /\
  deserialize int_of_decimal FieldList_spec
    (JsonPatchOperationSchema "" required)
    (VDict [("op", VStr "add"); ("path", VStr "/a b")])
  = Ok (VDict [("op", VStr "add"); ("path", VStr "/a b")]).
Proof. split; reflexivity. Qed.

(** C4 as stated fails: the data schema has the required field [title];
    a body without [data] fails on the node [data], and [title] is nowhere
    in the error. *)
Lemma required_field_is_not_named :
  RecordSchema_bind int_of_decimal FieldList_spec
    (Some (Node "" (TMapping UPreserve)
             [Node "title" TString [] None required VNull] None required VNull))
    None
  = Ok (Node "" (TMapping URaise)
          [Node "data" (TMapping UPreserve)
             [Node "title" TString [] None required VNull] None required VNull]
          None required VNull) /\
  deserialize int_of_decimal FieldList_spec
    (Node "" (TMapping URaise)
       [Node "data" (TMapping UPreserve)
          [Node "title" TString [] None required VNull] None required VNull]
       None required VNull)
    (VDict [])
  = Raise (EInvalid (Invalid "" None [(0, Invalid "data" (Some Required) [])])) /\
  ~ In "title" (invalid_names (Invalid "" None [(0, Invalid "data" (Some Required) [])])).
Proof.
  split; [reflexivity|]. split; [reflexivity|].
  simpl. intuition discriminate.
Qed.

(** A data schema whose only field has a default: the body without [data]
    validates to the empty object, and the default is not filled in. *)
Example defaulted_data_is_dropped :
  RecordSchema_bind int_of_decimal FieldList_spec
    (Some (Node "" (TMapping UPreserve)
             [Node "title" TString [] None (MissingValue (VStr "Untitled")) VNull]
             None required VNull))
    None
  = Ok (Node "" (TMapping URaise)
          [Node "data" (TMapping UPreserve)
             [Node "title" TString [] None (MissingValue (VStr "Untitled")) VNull]
             None drop (VDict [])]
          None required VNull) /\
  deserialize int_of_decimal FieldList_spec
    (Node "" (TMapping URaise)
       [Node "data" (TMapping UPreserve)
          [Node "title" TString [] None (MissingValue (VStr "Untitled")) VNull]
          None drop (VDict [])]
       None required VNull)
    (VDict [])
  = Ok (VDict []).
Proof. split; reflexivity. Qed.

(** The same data schema with a permissions schema bound: a body without
    [data] is then judged by the permissions schema alone.  The empty body
    fails when the permissions are required, and a body that holds
    permissions only validates to an object that holds them. *)
Example defaulted_data_with_permissions :
  (schema <- RecordSchema_bind int_of_decimal FieldList_spec
               (Some (Node "" (TMapping UPreserve)
                        [Node "title" TString [] None (MissingValue (VStr "Untitled")) VNull]
                        None required VNull))
               (Some (Node "" (TMapping UPreserve) [] None required VNull)) ;;
   deserialize int_of_decimal FieldList_spec schema (VDict []))
  = Raise (EInvalid (Invalid "" None [(1, Invalid "permissions" (Some Required) [])])) /\
  (schema <- RecordSchema_bind int_of_decimal FieldList_spec
               (Some (Node "" (TMapping UPreserve)
                        [Node "title" TString [] None (MissingValue (VStr "Untitled")) VNull]
                        None required VNull))
               (Some (Node "" (TMapping UPreserve) [] None drop VNull)) ;;
   deserialize int_of_decimal FieldList_spec schema
     (VDict [("permissions", VDict [("read", VList [VStr "fxa:abc"])])]))
  = Ok (VDict [("permissions", VDict [("read", VList [VStr "fxa:abc"])])]).
Proof. split; reflexivity. Qed.

(** C9, at the failing input: every integer-typed reserved field takes
    9223372036854775808, which is 2^63 and above 2^63 - 1. *)
Theorem integer_fields_accept_two_to_the_63 :
  Forall
    (fun f =>
       QuerySchema_deserialize int_of_decimal FieldList_spec native_value_spec
         CollectionQuerySchema (VDict [(f, VStr "9223372036854775808")])
       = Ok (VDict [(f, VInt 9223372036854775808)]))
    integer_fields /\
  (9223372036854775808 = 2 ^ 63)%Z /\
  (9223372036854775808 > 2 ^ 63 - 1)%Z.
Proof.
  split; [repeat constructor | split; reflexivity].
Qed.

(** One more than that is refused. *)
Example limit_above_the_bound :
  QuerySchema_deserialize int_of_decimal FieldList_spec native_value_spec
    CollectionQuerySchema (VDict [("_limit", VStr "9223372036854775809")])
  = Raise (EInvalid
             (Invalid "" None
                [(0, Invalid "_limit"
                       (Some (AboveMax 9223372036854775809 9223372036854775808)) [])])).
Proof. reflexivity. Qed.

(** ** Further properties at concrete inputs *)

(** X1 on a record with a field the schema does not declare, under the
    default options. *)
Lemma resource_unknown_fields_witness :
  NoDup (dict_keys [("title", VStr "a"); ("extra", VInt 1)]) /\
  deserialize int_of_decimal FieldList_spec
    (ResourceSchema {| readonly_fields := None; preserve_unknown := None |}
       [Node "title" TString [] None required VNull])
    (VDict [("title", VStr "a"); ("extra", VInt 1)])
  = Ok (VDict [("title", VStr "a"); ("extra", VInt 1)]) /\
  ~ In "extra" (map node_name [Node "title" TString [] None required VNull]) /\
  (preserve_unknown {| readonly_fields := None; preserve_unknown := None |} = None \/
   preserve_unknown {| readonly_fields := None; preserve_unknown := None |}
   = Some (VBool true) ->
   dict_get "extra" [("title", VStr "a"); ("extra", VInt 1)]
   = dict_get "extra" [("title", VStr "a"); ("extra", VInt 1)]) /\
  ((exists v, preserve_unknown {| readonly_fields := None; preserve_unknown := None |}
              = Some v /\ v <> VBool true) ->
   dict_get "extra" [("title", VStr "a"); ("extra", VInt 1)] = None).
Proof.
  assert (H1 : NoDup (dict_keys [("title", VStr "a"); ("extra", VInt 1)])).
  { repeat constructor; simpl; intuition discriminate. }
  assert (H3 : ~ In "extra" (map node_name [Node "title" TString [] None required VNull]))
    by (simpl; intuition discriminate).
  split; [exact H1|]. split; [reflexivity|]. split; [exact H3|].
  apply (resource_unknown_fields int_of_decimal FieldList_spec
           {| readonly_fields := None; preserve_unknown := None |}
           [Node "title" TString [] None required VNull]
           [("title", VStr "a"); ("extra", VInt 1)]
           [("title", VStr "a"); ("extra", VInt 1)] "extra" H1 eq_refl H3).
Defined.

(** The same record under [preserve_unknown = False]: the field is left
    out. *)
Example unknown_field_ignored :
  deserialize int_of_decimal FieldList_spec
    (ResourceSchema {| readonly_fields := None; preserve_unknown := Some (VBool false) |}
       [Node "title" TString [] None required VNull])
    (VDict [("title", VStr "a"); ("extra", VInt 1)])
  = Ok (VDict [("title", VStr "a")]).
Proof. reflexivity. Qed.

(** X2 on a mapping with an arbitrary permission name and an empty list of
    principals. *)
Lemma open_permissions_unchanged_witness :
  NoDup (dict_keys [("read", VList [VStr "fxa:abc"]); ("anything", VList [])]) /\
  PermissionsSchema_deserialize int_of_decimal FieldList_spec
    "permissions" required []
    (VDict [("read", VList [VStr "fxa:abc"]); ("anything", VList [])])
  = Ok (VDict [("read", VList [VStr "fxa:abc"]); ("anything", VList [])]).
Proof.
  assert (H1 : NoDup (dict_keys [("read", VList [VStr "fxa:abc"]); ("anything", VList [])])).
  { repeat constructor; simpl; intuition discriminate. }
  split; [exact H1|].
  apply (open_permissions_unchanged int_of_decimal FieldList_spec
           "permissions" required
           [("read", VList [VStr "fxa:abc"]); ("anything", VList [])] H1).
  intros k v [H|[H|[]]]; inversion H; subst.
  - exists ["fxa:abc"]. split; [reflexivity|]. repeat constructor. discriminate.
  - exists []. split; [reflexivity|]. constructor.
Defined.

(** X3 on a mapping whose second permission holds a string. *)
Lemma open_permissions_not_a_sequence_witness :
  is_list (VStr "fxa:abc") = false /\
  PermissionsSchema_deserialize int_of_decimal FieldList_spec
    "permissions" required []
    (VDict ([("read", VList [VStr "a"])] ++ ("write", VStr "fxa:abc") :: []))
  = Raise (EInvalid (Invalid "" (Some (if is_null (VStr "fxa:abc") then Required
                                       else NotIterable (VStr "fxa:abc"))) [])).
Proof.
  split; [reflexivity|].
  apply (open_permissions_not_a_sequence int_of_decimal FieldList_spec
           "permissions" required [("read", VList [VStr "a"])] [] "write"
           (VStr "fxa:abc")); [|reflexivity].
  intros k v [H|[]]. inversion H; subst.
  exists ["a"]. split; [reflexivity|]. repeat constructor. discriminate.
Defined.

(** X4 on a list given as permissions, with a closed set. *)
Lemma permissions_not_a_mapping_witness :
  (forall d, VList [VStr "read"] <> VDict d) /\
  PermissionsSchema_deserialize int_of_decimal FieldList_spec
    "permissions" required ["read"; "write"] (VList [VStr "read"])
  = if is_null (VList [VStr "read"]) then
      match required with
      | required => Raise (EInvalid (Invalid "permissions" (Some Required) []))
      | drop => Ok VDrop
      | MissingValue v => Ok v
      end
    else Raise (EInvalid (Invalid "permissions"
                            (Some (NotAMapping (VList [VStr "read"]))) [])).
Proof.
  assert (H : forall d, VList [VStr "read"] <> VDict d) by (intros d; discriminate).
  split; [exact H|].
  apply (permissions_not_a_mapping int_of_decimal FieldList_spec
           "permissions" required ["read"; "write"] (VList [VStr "read"]) H).
Defined.

(** X5 on the filter [?deleted=true] of a collection. *)
Lemma scalar_filter_native_witness :
  NoDup (dict_keys [("deleted", VStr "true"); ("_limit", VStr "10")]) /\
  In ("deleted", VStr "true") [("deleted", VStr "true"); ("_limit", VStr "10")] /\
  is_list_filter "deleted" = false /\
  ~ In "deleted" (map node_name CollectionQuerySchema_fields) /\
  QuerySchema_deserialize int_of_decimal FieldList_spec native_value_spec
    (QuerySchema CollectionQuerySchema_fields)
    (VDict [("deleted", VStr "true"); ("_limit", VStr "10")])
  = Ok (VDict [("deleted", VBool true); ("_limit", VInt 10)]) /\
  dict_get "deleted" [("deleted", VBool true); ("_limit", VInt 10)]
  = Some (native_value_spec (VStr "true")).
Proof.
  assert (H1 : NoDup (dict_keys [("deleted", VStr "true"); ("_limit", VStr "10")])).
  { repeat constructor; simpl; intuition discriminate. }
  assert (H2 : In ("deleted", VStr "true")
                 [("deleted", VStr "true"); ("_limit", VStr "10")])
    by (left; reflexivity).
  assert (H4 : ~ In "deleted" (map node_name CollectionQuerySchema_fields))
    by (simpl; intuition discriminate).
  split; [exact H1|]. split; [exact H2|]. split; [reflexivity|]. split; [exact H4|].
  split; [reflexivity|].
  apply (scalar_filter_native int_of_decimal FieldList_spec
           native_value_spec CollectionQuerySchema_fields
           [("deleted", VStr "true"); ("_limit", VStr "10")]
           [("deleted", VBool true); ("_limit", VInt 10)] "deleted" (VStr "true")
           H1 H2 eq_refl H4 eq_refl).
Defined.

(** X6 on a querystring with a declared field, a scalar filter and a list
    filter that is not parsed. *)
Lemma resolver_output_keys_witness :
  QuerySchema_deserialize int_of_decimal FieldList_spec native_value_spec
    (QuerySchema CollectionQuerySchema_fields)
    (VDict [("_limit", VStr "10"); ("name", VStr "a"); ("in_x", VNone)])
  = Ok (VDict [("_limit", VInt 10); ("name", VStr "a")]) /\
  (forall k, In k (dict_keys [("_limit", VInt 10); ("name", VStr "a")]) ->
             In k (dict_keys [("_limit", VStr "10"); ("name", VStr "a"); ("in_x", VNone)]) \/
             In k (map node_name CollectionQuerySchema_fields)) /\
  (forall k, In k (dict_keys [("_limit", VStr "10"); ("name", VStr "a"); ("in_x", VNone)]) ->
             is_list_filter k = false ->
             In k (dict_keys [("_limit", VInt 10); ("name", VStr "a")])).
Proof.
  split; [reflexivity|].
  apply (resolver_output_keys int_of_decimal FieldList_spec
           native_value_spec CollectionQuerySchema_fields
           [("_limit", VStr "10"); ("name", VStr "a"); ("in_x", VNone)]
           [("_limit", VInt 10); ("name", VStr "a")] eq_refl).
Defined.

(** X7 on a querystring given as a list. *)
Lemma querystring_absent_or_malformed_witness :
  (forall d, VList [VStr "a"] <> VDict d) /\
  QuerySchema_deserialize int_of_decimal FieldList_spec native_value_spec
    (QuerySchema CollectionQuerySchema_fields) (VList [VStr "a"])
  = if is_null (VList [VStr "a"]) then Ok VDrop
    else Raise (EInvalid (Invalid "" (Some (NotAMapping (VList [VStr "a"]))) [])).
Proof.
  assert (H : forall d, VList [VStr "a"] <> VDict d) by (intros d; discriminate).
  split; [exact H|].
  apply (querystring_absent_or_malformed int_of_decimal FieldList_spec
           native_value_spec CollectionQuerySchema_fields (VList [VStr "a"]) H).
Defined.

(** With no querystring at all, the resolver hands back [drop]. *)
Example querystring_absent :
  QuerySchema_deserialize int_of_decimal FieldList_spec native_value_spec
    (QuerySchema CollectionQuerySchema_fields) VNull = Ok VDrop.
Proof. reflexivity. Qed.

(** X8 on [?_since=9223372036854775809&name=a]. *)
Lemma integer_field_rejects_request_witness :
  In "_since" integer_fields /\
  dict_get "_since" [("name", VStr "a"); ("_since", VStr "9223372036854775809")]
  = Some (VStr "9223372036854775809") /\
  int_of_decimal "9223372036854775809" = Some 9223372036854775809%Z /\
  is_ok (QuerySchema_deserialize int_of_decimal FieldList_spec
           native_value_spec CollectionQuerySchema
           (VDict [("name", VStr "a"); ("_since", VStr "9223372036854775809")]))
  = false.
Proof.
  assert (H1 : In "_since" integer_fields) by (right; left; reflexivity).
  split; [exact H1|]. split; [reflexivity|]. split; [reflexivity|].
  apply (integer_field_rejects_request int_of_decimal FieldList_spec
           native_value_spec
           [("name", VStr "a"); ("_since", VStr "9223372036854775809")]
           "_since" "9223372036854775809" 9223372036854775809%Z H1 eq_refl).
  - discriminate.
  - reflexivity.
  - right. reflexivity.
Defined.

(** X9 on a body of two operations. *)
Lemma patch_body_validates_iff_witness :
  Forall (fun c => is_null c = false /\ is_drop c = false)
    [VDict [("op", VStr "remove"); ("path", VStr "/a")];
     VDict [("op", VStr "add"); ("path", VStr "/b"); ("value", VInt 1)]] /\
  (deserialize int_of_decimal FieldList_spec JsonPatchBodySchema
     (VList [VDict [("op", VStr "remove"); ("path", VStr "/a")];
             VDict [("op", VStr "add"); ("path", VStr "/b"); ("value", VInt 1)]])
   = Ok (VList [VDict [("op", VStr "remove"); ("path", VStr "/a")];
                VDict [("op", VStr "add"); ("path", VStr "/b"); ("value", VInt 1)]])
   <->
   Forall2 (fun c o => deserialize int_of_decimal FieldList_spec
                         (JsonPatchOperationSchema "operations" drop) c = Ok o)
     [VDict [("op", VStr "remove"); ("path", VStr "/a")];
      VDict [("op", VStr "add"); ("path", VStr "/b"); ("value", VInt 1)]]
     [VDict [("op", VStr "remove"); ("path", VStr "/a")];
      VDict [("op", VStr "add"); ("path", VStr "/b"); ("value", VInt 1)]]).
Proof.
  assert (H : Forall (fun c => is_null c = false /\ is_drop c = false)
                [VDict [("op", VStr "remove"); ("path", VStr "/a")];
                 VDict [("op", VStr "add"); ("path", VStr "/b"); ("value", VInt 1)]])
    by (repeat constructor).
  split; [exact H|].
  apply (patch_body_validates_iff int_of_decimal FieldList_spec _ _ H).
Defined.

(** The body of X9 does validate. *)
Example patch_body_accepted :
  deserialize int_of_decimal FieldList_spec JsonPatchBodySchema
    (VList [VDict [("op", VStr "remove"); ("path", VStr "/a")];
            VDict [("op", VStr "add"); ("path", VStr "/b"); ("value", VInt 1)]])
  = Ok (VList [VDict [("op", VStr "remove"); ("path", VStr "/a")];
               VDict [("op", VStr "add"); ("path", VStr "/b"); ("value", VInt 1)]]).
Proof. reflexivity. Qed.

(** X10 on a body whose first and third operations are refused. *)
Lemma patch_body_reports_every_failure_witness :
  exists r,
    deserialize int_of_decimal FieldList_spec JsonPatchBodySchema
      (VList [VDict [("op", VStr "increment"); ("path", VStr "/a")];
              VDict [("op", VStr "remove"); ("path", VStr "/a")];
              VDict [("op", VStr "add"); ("path", VStr "b")]])
    = Raise r /\
    exists errs,
      r = EInvalid (Invalid "" None errs) /\
      forall i e,
        In (i, e) errs <->
        exists c,
          nth_error [VDict [("op", VStr "increment"); ("path", VStr "/a")];
                     VDict [("op", VStr "remove"); ("path", VStr "/a")];
                     VDict [("op", VStr "add"); ("path", VStr "b")]] i = Some c /\
          deserialize int_of_decimal FieldList_spec
            (JsonPatchOperationSchema "operations" drop) c = Raise (EInvalid e).
Proof.
  eexists. split; [reflexivity|].
  apply (patch_body_reports_every_failure int_of_decimal FieldList_spec);
    [repeat constructor|reflexivity].
Defined.

(** The positions reported for the body of X10. *)
Example patch_body_error_positions :
  match deserialize int_of_decimal FieldList_spec JsonPatchBodySchema
          (VList [VDict [("op", VStr "increment"); ("path", VStr "/a")];
                  VDict [("op", VStr "remove"); ("path", VStr "/a")];
                  VDict [("op", VStr "add"); ("path", VStr "b")]]) with
  | Raise (EInvalid (Invalid _ _ errs)) => map fst errs
  | _ => []
  end = [0; 2]%nat.
Proof. reflexivity. Qed.

(** X11 on a route that names the bucket twice. *)
Lemma path_schema_fields_witness :
  exists cs,
    build_path example_locate storage_regexp
      {| kw_path := Some "/buckets/{bucket_id}/collections/{id}/of/{bucket_id}";
         kw_resource_name := Some "collection";
         kw_id_generators := Some [("bucket_id_generator", VStr "generators.Name")];
         kw_header := None; kw_querystring := None |}
    = Ok (Some (Node "path" (TMapping UIgnore) cs None required VNull)) /\
    NoDup (map node_name cs) /\
    (forall n, In n (map node_name cs) <->
               In n (map (field_name "collection")
                       (placeholders
                          (specialize (Some "collection")
                             "/buckets/{bucket_id}/collections/{id}/of/{bucket_id}")))) /\
    (forall c, In c cs ->
               exists rid,
                 In rid (placeholders
                           (specialize (Some "collection")
                              "/buckets/{bucket_id}/collections/{id}/of/{bucket_id}")) /\
                 c = Node (field_name "collection" rid) TString []
                       (Some (Regex (resolve_regexp example_locate storage_regexp
                                       (Some [("bucket_id_generator",
                                               VStr "generators.Name")]) rid)))
                       required VNull).
Proof.
  apply (path_schema_fields example_locate storage_regexp
           {| kw_path := Some "/buckets/{bucket_id}/collections/{id}/of/{bucket_id}";
              kw_resource_name := Some "collection";
              kw_id_generators := Some [("bucket_id_generator", VStr "generators.Name")];
              kw_header := None; kw_querystring := None |}
           "/buckets/{bucket_id}/collections/{id}/of/{bucket_id}" "collection"
           eq_refl ltac:(discriminate) eq_refl).
Defined.

(** X12 on the parameters of a collection route. *)
Lemma path_parameters_validated_witness :
  exists schema out,
    build_path example_locate storage_regexp
      {| kw_path := Some "/buckets/{bucket_id}/collections/{id}";
         kw_resource_name := Some "collection";
         kw_id_generators := Some [("bucket_id_generator", VStr "generators.Name")];
         kw_header := None; kw_querystring := None |}
    = Ok (Some schema) /\
    deserialize int_of_decimal FieldList_spec schema
      (VDict [("bucket_id", VStr "blog"); ("id", VStr "a1f"); ("other", VInt 1)])
    = Ok out /\
    exists o,
      out = VDict o /\
      (forall rid,
          In rid (placeholders (specialize (Some "collection")
                                  "/buckets/{bucket_id}/collections/{id}")) ->
          exists s rid',
            In rid' (placeholders (specialize (Some "collection")
                                     "/buckets/{bucket_id}/collections/{id}")) /\
            field_name "collection" rid' = field_name "collection" rid /\
            dict_get (field_name "collection" rid) o = Some (VStr s) /\
            re_match (resolve_regexp example_locate storage_regexp
                        (Some [("bucket_id_generator", VStr "generators.Name")]) rid') s
            = true /\
            dict_get (field_name "collection" rid)
              [("bucket_id", VStr "blog"); ("id", VStr "a1f"); ("other", VInt 1)]
            <> None /\
            dict_get (field_name "collection" rid)
              [("bucket_id", VStr "blog"); ("id", VStr "a1f"); ("other", VInt 1)]
            = Some (VStr s)) /\
      (forall k, In k (dict_keys o) ->
                 In k (map (field_name "collection")
                         (placeholders (specialize (Some "collection")
                                          "/buckets/{bucket_id}/collections/{id}")))).
Proof.
  eexists. eexists. split; [reflexivity|]. split; [reflexivity|].
  apply (path_parameters_validated int_of_decimal FieldList_spec
           example_locate storage_regexp
           {| kw_path := Some "/buckets/{bucket_id}/collections/{id}";
              kw_resource_name := Some "collection";
              kw_id_generators := Some [("bucket_id_generator", VStr "generators.Name")];
              kw_header := None; kw_querystring := None |}
           "/buckets/{bucket_id}/collections/{id}" "collection" _
           [("bucket_id", VStr "blog"); ("id", VStr "a1f"); ("other", VInt 1)] _
           eq_refl ltac:(discriminate) eq_refl eq_refl).
  - repeat constructor.
  - reflexivity.
Defined.

(** A parameter that does not match the pattern of its placeholder is
    refused, and so is one that is not a string. *)
Example path_parameter_refused :
  (schema <- build_path example_locate storage_regexp
               {| kw_path := Some "/buckets/{bucket_id}/collections/{id}";
                  kw_resource_name := Some "collection";
                  kw_id_generators := Some [("bucket_id_generator",
                                             VStr "generators.Name")];
                  kw_header := None; kw_querystring := None |} ;;
   match schema with
   | Some schema =>
       deserialize int_of_decimal FieldList_spec schema
         (VDict [("bucket_id", VStr "blog"); ("id", VStr "xyz!")])
   | None => Ok VNull
   end)
  = Raise (EInvalid (Invalid "path" None [(1, Invalid "id" (Some RegexMismatch) [])])) /\
  (schema <- build_path example_locate storage_regexp
               {| kw_path := Some "/buckets/{bucket_id}/collections/{id}";
                  kw_resource_name := Some "collection";
                  kw_id_generators := Some [("bucket_id_generator",
                                             VStr "generators.Name")];
                  kw_header := None; kw_querystring := None |} ;;
   match schema with
   | Some schema =>
       deserialize int_of_decimal FieldList_spec schema
         (VDict [("bucket_id", VInt 7); ("id", VStr "a1f")])
   | None => Ok VNull
   end)
  = Raise (EInvalid (Invalid "path" None
                       [(0, Invalid "bucket_id" (Some (NotAString (VInt 7))) [])])).
Proof. split; reflexivity. Qed.

(** X13 on a first binding with a querystring schema and no header. *)
Lemma first_bind_children_witness :
  exists s,
    RequestSchema_bind example_locate storage_regexp
      (Node "" (TMapping UPreserve) [] None drop VNull)
      {| kw_path := Some "/buckets/{id}"; kw_resource_name := Some "bucket";
         kw_id_generators := None; kw_header := None;
         kw_querystring := Some CollectionQuerySchema |}
      RequestSchema = Ok s /\
    get_child "header" (rs_children s)
    = Some (set_name "header" (Node "" (TMapping UPreserve) [] None drop VNull)) /\
    get_child "querystring" (rs_children s)
    = Some (set_name "querystring" CollectionQuerySchema) /\
    exists p,
      build_path example_locate storage_regexp
        {| kw_path := Some "/buckets/{id}"; kw_resource_name := Some "bucket";
           kw_id_generators := None; kw_header := None;
           kw_querystring := Some CollectionQuerySchema |} = Ok p /\
      path_schema_of s = option_map (set_name "path") p.
Proof.
  eexists. split; [reflexivity|].
  apply (first_bind_children example_locate storage_regexp
           (Node "" (TMapping UPreserve) [] None drop VNull)
           {| kw_path := Some "/buckets/{id}"; kw_resource_name := Some "bucket";
              kw_id_generators := None; kw_header := None;
              kw_querystring := Some CollectionQuerySchema |}).
  reflexivity.
Defined.

(** X14 on a second binding that brings a header and another querystring
    schema: the header comes too late, the querystring schema is
    replaced. *)
Lemma rebind_header_and_querystring_witness :
  exists s1 s2,
    RequestSchema_bind example_locate storage_regexp
      (Node "" (TMapping UPreserve) [] None drop VNull)
      {| kw_path := None; kw_resource_name := None; kw_id_generators := None;
         kw_header := None; kw_querystring := Some CollectionQuerySchema |}
      RequestSchema = Ok s1 /\
    RequestSchema_bind example_locate storage_regexp
      (Node "" (TMapping UPreserve) [] None drop VNull)
      {| kw_path := None; kw_resource_name := None; kw_id_generators := None;
         kw_header := Some (Node "" (TMapping URaise) [] None required VNull);
         kw_querystring := Some RecordGetQuerySchema |}
      s1 = Ok s2 /\
    get_child "header" (rs_children s2)
    = Some (set_name "header" (Node "" (TMapping UPreserve) [] None drop VNull)) /\
    get_child "querystring" (rs_children s2)
    = Some (set_name "querystring" RecordGetQuerySchema).
Proof.
  eexists. eexists. split; [reflexivity|]. split; [reflexivity|].
  eapply (rebind_header_and_querystring example_locate storage_regexp
           (Node "" (TMapping UPreserve) [] None drop VNull)
           {| kw_path := None; kw_resource_name := None; kw_id_generators := None;
              kw_header := None; kw_querystring := Some CollectionQuerySchema |}
           {| kw_path := None; kw_resource_name := None; kw_id_generators := None;
              kw_header := Some (Node "" (TMapping URaise) [] None required VNull);
              kw_querystring := Some RecordGetQuerySchema |});
    reflexivity.
Defined.

(** X15 on a binding without a path followed by one with a route. *)
Lemma late_path_binding_witness :
  RequestSchema_bind example_locate storage_regexp
    (Node "" (TMapping UPreserve) [] None drop VNull)
    {| kw_path := None; kw_resource_name := None; kw_id_generators := None;
         kw_header := None; kw_querystring := None |}
    RequestSchema
  = Ok {| rs_children := [Node "header" (TMapping UPreserve) [] None drop VNull;
                         Node "querystring" (TMapping UIgnore) [] None drop VNull];
         rs_header := AttrNone; rs_path := PathInstanceDeferred;
         rs_querystring := AttrNone |} /\
  match build_path example_locate storage_regexp
          {| kw_path := Some "/buckets/{id}"; kw_resource_name := Some "bucket";
         kw_id_generators := None; kw_header := None; kw_querystring := None |} with
  | Ok p =>
      exists s2,
        RequestSchema_bind example_locate storage_regexp
    (Node "" (TMapping UPreserve) [] None drop VNull)
          {| kw_path := Some "/buckets/{id}"; kw_resource_name := Some "bucket";
         kw_id_generators := None; kw_header := None; kw_querystring := None |}
          {| rs_children := [Node "header" (TMapping UPreserve) [] None drop VNull;
                         Node "querystring" (TMapping UIgnore) [] None drop VNull];
         rs_header := AttrNone; rs_path := PathInstanceDeferred;
         rs_querystring := AttrNone |} = Ok s2 /\
        path_schema_of s2 = option_map (set_name "path") p
  | Raise e =>
      RequestSchema_bind example_locate storage_regexp
    (Node "" (TMapping UPreserve) [] None drop VNull)
        {| kw_path := Some "/buckets/{id}"; kw_resource_name := Some "bucket";
         kw_id_generators := None; kw_header := None; kw_querystring := None |}
        {| rs_children := [Node "header" (TMapping UPreserve) [] None drop VNull;
                         Node "querystring" (TMapping UIgnore) [] None drop VNull];
         rs_header := AttrNone; rs_path := PathInstanceDeferred;
         rs_querystring := AttrNone |} = Raise e
  end.
Proof.
  split; [reflexivity|].
  apply (late_path_binding example_locate storage_regexp
    (Node "" (TMapping UPreserve) [] None drop VNull)
           {| kw_path := None; kw_resource_name := None; kw_id_generators := None;
         kw_header := None; kw_querystring := None |}
           {| kw_path := Some "/buckets/{id}"; kw_resource_name := Some "bucket";
         kw_id_generators := None; kw_header := None; kw_querystring := None |}
           {| rs_children := [Node "header" (TMapping UPreserve) [] None drop VNull;
                         Node "querystring" (TMapping UIgnore) [] None drop VNull];
         rs_header := AttrNone; rs_path := PathInstanceDeferred;
         rs_querystring := AttrNone |}); reflexivity.
Defined.

(** The path schema that the second binding of X15 installs. *)
Example late_path_schema :
  (s1 <- RequestSchema_bind example_locate storage_regexp
           (Node "" (TMapping UPreserve) [] None drop VNull)
           {| kw_path := None; kw_resource_name := None; kw_id_generators := None;
              kw_header := None; kw_querystring := None |}
           RequestSchema ;;
   s2 <- RequestSchema_bind example_locate storage_regexp
           (Node "" (TMapping UPreserve) [] None drop VNull)
           {| kw_path := Some "/buckets/{id}"; kw_resource_name := Some "bucket";
              kw_id_generators := None; kw_header := None; kw_querystring := None |}
           s1 ;;
   Ok (path_schema_of s2))
  = Ok (Some (Node "path" (TMapping UIgnore)
                [Node "id" TString [] (Some (Regex storage_regexp)) required VNull]
                None required VNull)).
Proof. reflexivity. Qed.

(** X16 on two bindings without a path followed by one with a route. *)
Lemma path_binding_expires_witness :
  RequestSchema_bind example_locate storage_regexp
    (Node "" (TMapping UPreserve) [] None drop VNull)
    {| kw_path := None; kw_resource_name := None; kw_id_generators := None;
         kw_header := None; kw_querystring := None |}
    RequestSchema
  = Ok {| rs_children := [Node "header" (TMapping UPreserve) [] None drop VNull;
                         Node "querystring" (TMapping UIgnore) [] None drop VNull];
         rs_header := AttrNone; rs_path := PathInstanceDeferred;
         rs_querystring := AttrNone |} /\
  RequestSchema_bind example_locate storage_regexp
    (Node "" (TMapping UPreserve) [] None drop VNull)
    {| kw_path := Some EmptyString; kw_resource_name := None; kw_id_generators := None;
         kw_header := None; kw_querystring := None |}
    {| rs_children := [Node "header" (TMapping UPreserve) [] None drop VNull;
                         Node "querystring" (TMapping UIgnore) [] None drop VNull];
         rs_header := AttrNone; rs_path := PathInstanceDeferred;
         rs_querystring := AttrNone |}
  = Ok {| rs_children := [Node "header" (TMapping UPreserve) [] None drop VNull;
                         Node "querystring" (TMapping UIgnore) [] None drop VNull];
         rs_header := AttrNone; rs_path := PathNone;
         rs_querystring := AttrNone |} /\
  exists s3,
    RequestSchema_bind example_locate storage_regexp
    (Node "" (TMapping UPreserve) [] None drop VNull)
      {| kw_path := Some "/buckets/{id}"; kw_resource_name := Some "bucket";
         kw_id_generators := None; kw_header := None; kw_querystring := None |}
      {| rs_children := [Node "header" (TMapping UPreserve) [] None drop VNull;
                         Node "querystring" (TMapping UIgnore) [] None drop VNull];
         rs_header := AttrNone; rs_path := PathNone;
         rs_querystring := AttrNone |} = Ok s3 /\
    path_schema_of s3 = None.
Proof.
  split; [reflexivity|]. split; [reflexivity|].
  apply (path_binding_expires example_locate storage_regexp
    (Node "" (TMapping UPreserve) [] None drop VNull)
           {| kw_path := None; kw_resource_name := None; kw_id_generators := None;
         kw_header := None; kw_querystring := None |}
           {| kw_path := Some EmptyString; kw_resource_name := None; kw_id_generators := None;
         kw_header := None; kw_querystring := None |}
           {| kw_path := Some "/buckets/{id}"; kw_resource_name := Some "bucket";
         kw_id_generators := None; kw_header := None; kw_querystring := None |}
           {| rs_children := [Node "header" (TMapping UPreserve) [] None drop VNull;
                         Node "querystring" (TMapping UIgnore) [] None drop VNull];
         rs_header := AttrNone; rs_path := PathInstanceDeferred;
         rs_querystring := AttrNone |}
           {| rs_children := [Node "header" (TMapping UPreserve) [] None drop VNull;
                         Node "querystring" (TMapping UIgnore) [] None drop VNull];
         rs_header := AttrNone; rs_path := PathNone;
         rs_querystring := AttrNone |}); reflexivity.
Defined.

(** X17 on a body that carries permissions before a permissions schema is
    bound. *)
Lemma record_body_closed_shape_witness :
  exists schema,
    RecordSchema_bind int_of_decimal FieldList_spec
      (Some (Node "" (TMapping UPreserve) [] None required VNull)) None = Ok schema /\
    In "permissions" (dict_keys [("data", VDict []); ("permissions", VDict [])]) /\
    match deserialize int_of_decimal FieldList_spec schema
            (VDict [("data", VDict []); ("permissions", VDict [])]) with
    | Ok _ => False
    | Raise (EInvalid e) =>
        exists rem, e = Invalid "" (Some (UnrecognizedKeys rem)) [] /\
                    dict_get "permissions" rem
                    = dict_get "permissions" [("data", VDict []); ("permissions", VDict [])]
    | Raise _ => True
    end.
Proof.
  assert (Hk : In "permissions" (dict_keys [("data", VDict []); ("permissions", VDict [])]))
    by (right; left; reflexivity).
  eexists. split; [reflexivity|]. split; [exact Hk|].
  apply (record_body_closed_shape int_of_decimal FieldList_spec
           (Some (Node "" (TMapping UPreserve) [] None required VNull)) None _
           [("data", VDict []); ("permissions", VDict [])] "permissions" eq_refl Hk).
  - discriminate.
  - intros H. exfalso. apply H. reflexivity.
Defined.

(** The error of that body. *)
Example record_body_with_unbound_permissions :
  (r <- RecordSchema_bind int_of_decimal FieldList_spec
          (Some (Node "" (TMapping UPreserve) [] None required VNull)) None ;;
   deserialize int_of_decimal FieldList_spec r
     (VDict [("data", VDict []); ("permissions", VDict [])]))
  = Raise (EInvalid (Invalid "" (Some (UnrecognizedKeys [("permissions", VDict [])])) [])).
Proof. reflexivity. Qed.

(** X18 on a payload schema bound first without a body, then with one. *)
Lemma payload_body_binding_witness :
  exists s1 s2,
    PayloadRequestSchema_bind example_locate storage_regexp
      (Node "" (TMapping UPreserve) [] None drop VNull)
      None
      {| kw_path := None; kw_resource_name := None; kw_id_generators := None;
         kw_header := None; kw_querystring := None |}
      PayloadRequestSchema = Ok s1 /\
    PayloadRequestSchema_bind example_locate storage_regexp
      (Node "" (TMapping UPreserve) [] None drop VNull)
      (Some JsonPatchBodySchema)
      {| kw_path := None; kw_resource_name := None; kw_id_generators := None;
         kw_header := None; kw_querystring := None |}
      s1 = Ok s2 /\
    get_child "body" (rs_children (prs_request s1)) = None /\
    get_child "body" (rs_children (prs_request s2))
    = Some (set_name "body" JsonPatchBodySchema).
Proof.
  eexists. eexists. split; [reflexivity|]. split; [reflexivity|].
  refine (let H := payload_body_binding example_locate storage_regexp
                     (Node "" (TMapping UPreserve) [] None drop VNull)
                     None (Some JsonPatchBodySchema)
                     {| kw_path := None; kw_resource_name := None;
                        kw_id_generators := None; kw_header := None;
                        kw_querystring := None |}
                     {| kw_path := None; kw_resource_name := None;
                        kw_id_generators := None; kw_header := None;
                        kw_querystring := None |}
                     _ _ eq_refl eq_refl in _).
  split; [exact (proj1 H)|exact (proj1 (proj2 H))].
Defined.
